(** * epanet-utilities: INP geometry round trip and model-builder schema

    A shallow embedding of [src/lib/network-utils.ts],
    [src/lib/model-builder-constants.ts] and the state handling of the
    model builder page, [src/unnamed/part_001].

    Modelling conventions.
    - A JavaScript string is the list of its UTF-16 code units ([list N]).
    - A JavaScript [number] is [NaN], an infinity, or a finite value kept
      exactly as [m * 10^e]; binary64 rounding, overflow and signed zero
      are not represented.
    - A [Record<string, V>] is the list of its own properties in creation
      order, without duplicate keys; [Object.entries] enumerates array-index
      keys first, in ascending order, then the other keys in creation order.
      Inherited properties of [Object.prototype] are not represented.
    - [decimalPrecision] is an integer; a throwing call returns [None].
    - [proj4] is an external library and is taken as a parameter. *)

From Stdlib Require Import List ZArith NArith Lia Bool Permutation.
From Stdlib Require Ascii String.
Import ListNotations String.StringSyntax.
Delimit Scope string_scope with string.

Set Implicit Arguments.

(* ================================================================== *)
(** * JavaScript strings *)
(* ================================================================== *)

Module JsString.

Definition char := N.
Definition jsstring := list char.

(** String literals of the source, as code units. *)
Definition lit (s : String.string) : jsstring :=
  List.map Ascii.N_of_ascii (String.list_ascii_of_string s).
Arguments lit s%_string.

Definition char_eqb : char -> char -> bool := N.eqb.

Fixpoint str_eqb (a b : jsstring) : bool :=
  match a, b with
  | [], [] => true
  | x :: a', y :: b' => char_eqb x y && str_eqb a' b'
  | _, _ => false
  end.

(** ECMAScript WhiteSpace and LineTerminator code points: the characters
    removed by [String.prototype.trim] and matched by the class [\s]. *)
Definition is_ws (c : char) : bool :=
  ((9 <=? c) && (c <=? 13) || (c =? 32) || (c =? 160) || (c =? 5760)
   || (8192 <=? c) && (c <=? 8202) || (c =? 8232) || (c =? 8233)
   || (c =? 8239) || (c =? 8287) || (c =? 12288) || (c =? 65279))%N.

Definition LF : char := 10%N.
Definition SP : char := 32%N.

Fixpoint startsWith (s prefix : jsstring) : bool :=
  match prefix, s with
  | [], _ => true
  | p :: prefix', c :: s' => char_eqb c p && startsWith s' prefix'
  | _ :: _, [] => false
  end.

Fixpoint trimStart (s : jsstring) : jsstring :=
  match s with
  | c :: s' => if is_ws c then trimStart s' else s
  | [] => []
  end.

Definition trimEnd (s : jsstring) : jsstring := rev (trimStart (rev s)).

Definition trim (s : jsstring) : jsstring := trimEnd (trimStart s).

(** [s.split(sep)] for a one-character separator: always at least one
    field, empty fields kept. *)
Fixpoint split (sep : char) (s : jsstring) : list jsstring :=
  match s with
  | [] => [[]]
  | c :: s' =>
      if char_eqb c sep then [] :: split sep s'
      else match split sep s' with
           | f :: fs => (c :: f) :: fs
           | [] => [[c]]
           end
  end.

(** [s.split(/\s+/)]: fields separated by maximal runs of whitespace; a
    run at either end of the string leaves an empty field there. *)
Fixpoint split_ws_from (in_sep : bool) (s : jsstring) : list jsstring :=
  match s with
  | [] => [[]]
  | c :: s' =>
      if is_ws c then
        if in_sep then split_ws_from true s'
        else [] :: split_ws_from true s'
      else match split_ws_from false s' with
           | f :: fs => (c :: f) :: fs
           | [] => [[c]]
           end
  end.

Definition split_ws (s : jsstring) : list jsstring := split_ws_from false s.

(** [xs.join(sep)]. *)
Fixpoint join (sep : jsstring) (xs : list jsstring) : jsstring :=
  match xs with
  | [] => []
  | [x] => x
  | x :: xs' => x ++ sep ++ join sep xs'
  end.

Definition no_ws (s : jsstring) : Prop := Forall (fun c => is_ws c = false) s.

Definition no_wsb (s : jsstring) : bool := forallb (fun c => negb (is_ws c)) s.

End JsString.
Export JsString.

(* ================================================================== *)
(** * JavaScript numbers: [Number.prototype.toFixed] and [parseFloat] *)
(* ================================================================== *)

Module JsNumber.

(** [Fin m e] is the finite value [m * 10^e]. *)
Inductive number : Type :=
| NaN
| Inf (negative : bool)
| Fin (m e : Z).

Definition is_digit (c : char) : bool := ((48 <=? c) && (c <=? 57))%N.

Definition digit_char (d : Z) : char := (48 + Z.to_N d)%N.

Definition digit_val (c : char) : Z := Z.of_N (c - 48).

(** Value of a run of decimal digits, most significant first. *)
Definition Z_of_digits (s : jsstring) : Z :=
  fold_left (fun acc c => (acc * 10 + digit_val c)%Z) s 0%Z.

Fixpoint digits_fuel (fuel : nat) (n : Z) (acc : jsstring) : jsstring :=
  match fuel with
  | O => acc
  | S fuel' =>
      let acc' := digit_char (n mod 10) :: acc in
      if (n / 10 =? 0)%Z then acc' else digits_fuel fuel' (n / 10) acc'
  end.

(** Decimal representation of a non-negative integer, no leading zero
    (["0"] for zero). *)
Definition digits (n : Z) : jsstring :=
  digits_fuel (S (Z.to_nat (Z.log2 n))) n [].

Definition zeros (k : nat) : jsstring := repeat 48%N k.

Fixpoint dropWhile (f : char -> bool) (s : jsstring) : jsstring :=
  match s with
  | c :: s' => if f c then dropWhile f s' else s
  | [] => []
  end.

Definition ge_1e21 (a e : Z) : bool :=
  (if 0 <=? e then 10 ^ 21 <=? a * 10 ^ e
   else 10 ^ 21 * 10 ^ (- e) <=? a)%Z.

(** [Number::toString] for a finite value [a * 10^e >= 10^21]: exponent
    notation over the significant digits of the exact value (for a
    binary64 value JavaScript prints the shortest digits that identify
    it; the notation is the same). *)
Definition toString_large (a e : Z) : jsstring :=
  let ds := digits a in
  let n := (Z.of_nat (length ds) + e)%Z in
  match rev (dropWhile (N.eqb 48) (rev ds)) with
  | d :: rest =>
      d :: (match rest with [] => [] | _ => lit "." ++ rest end)
        ++ lit "e+" ++ digits (n - 1)
  | [] => lit "0"
  end.

(** The integer [n] for which [n / 10^f - x] is closest to zero, the
    larger one on a tie; here [x = a * 10^e >= 0] and [s = e + f]. *)
Definition scaled_round (a s : Z) : Z :=
  (if 0 <=? s then a * 10 ^ s
   else (2 * a + 10 ^ (- s)) / (2 * 10 ^ (- s)))%Z.

(** Steps 10 and 11 of [Number.prototype.toFixed]. *)
Definition fixed_digits (n : Z) (f : nat) : jsstring :=
  let m := digits n in
  match f with
  | O => m
  | S _ =>
      let m := if (length m <=? f)%nat
               then zeros (f + 1 - length m) ++ m else m in
      let k := length m in
      firstn (k - f) m ++ lit "." ++ skipn (k - f) m
  end.

Definition sign_text (negative : bool) : jsstring :=
  if negative then lit "-" else [].

Definition toFixed_finite (m e : Z) (f : Z) : jsstring :=
  let s := sign_text (m <? 0)%Z in
  let a := Z.abs m in
  s ++ (if ge_1e21 a e then toString_large a e
        else fixed_digits (scaled_round a (e + f)) (Z.to_nat f)).

(** The text produced by [x.toFixed(f)] when [f] is in range. *)
Definition toFixed_text (x : number) (f : Z) : jsstring :=
  match x with
  | NaN => lit "NaN"
  | Inf neg => sign_text neg ++ lit "Infinity"
  | Fin m e => toFixed_finite m e f
  end.

(** [x.toFixed(f)]; [None] is the [RangeError] thrown when [f] is outside
    [0..100]. *)
Definition toFixed (x : number) (f : Z) : option jsstring :=
  if ((f <? 0) || (100 <? f))%Z then None else Some (toFixed_text x f).

Fixpoint span_digits (s : jsstring) : jsstring * jsstring :=
  match s with
  | c :: s' =>
      if is_digit c
      then let (d, r) := span_digits s' in (c :: d, r)
      else ([], s)
  | [] => ([], [])
  end.

(** An optional sign: [(negative, rest)]. *)
Definition take_sign (s : jsstring) : bool * jsstring :=
  match s with
  | c :: s' =>
      if (c =? 45)%N then (true, s')
      else if (c =? 43)%N then (false, s')
      else (false, s)
  | [] => (false, [])
  end.

(** Value of an ExponentPart at the head of [s], [0] when there is none. *)
Definition parse_exponent (s : jsstring) : Z :=
  match s with
  | c :: s' =>
      if ((c =? 101) || (c =? 69))%N then
        let (neg, s'') := take_sign s' in
        match fst (span_digits s'') with
        | [] => 0%Z
        | ds => if neg then (- Z_of_digits ds)%Z else Z_of_digits ds
        end
      else 0%Z
  | [] => 0%Z
  end.

(** [parseFloat(s)]: the longest prefix of the left-trimmed string that
    is a StrDecimalLiteral, [NaN] when there is none. *)
Definition parseFloat (s : jsstring) : number :=
  let (neg, s1) := take_sign (trimStart s) in
  if startsWith s1 (lit "Infinity") then Inf neg
  else
    let (ip, r1) := span_digits s1 in
    let (fp, r2) :=
      match r1 with
      | c :: r1' => if (c =? 46)%N then span_digits r1' else ([], r1)
      | [] => ([], r1)
      end in
    match ip ++ fp with
    | [] => NaN
    | ds =>
        let v := Z_of_digits ds in
        Fin (if neg then - v else v)
            (parse_exponent r2 - Z.of_nat (length fp))
    end.

(** The value read back from the text written for [x] at precision [f]. *)
Definition reparse (f : Z) (x : number) : number :=
  parseFloat (toFixed_text x f).

(** A finite value of magnitude below [10^21]. *)
Definition moderate (x : number) : bool :=
  match x with
  | Fin m e => negb (ge_1e21 (Z.abs m) e)
  | _ => false
  end.

(** The text has the shape [-]d+ for [f = 0] and [-]d+.d{f} otherwise. *)
Definition strip_minus (s : jsstring) : jsstring :=
  match s with
  | c :: s' => if (c =? 45)%N then s' else s
  | [] => []
  end.

Definition fixed_format (f : nat) (s : jsstring) : bool :=
  let (ip, r) := span_digits (strip_minus s) in
  negb (Nat.eqb (length ip) 0)
  && match f, r with
     | O, [] => true
     | S _, c :: fp =>
         (c =? 46)%N && forallb is_digit fp && Nat.eqb (length fp) f
     | _, _ => false
     end.

(** A run of digits ends at [rest]. *)
Definition stops (rest : jsstring) : Prop :=
  match rest with [] => True | c :: _ => is_digit c = false end.

End JsNumber.
Export JsNumber.

(* ================================================================== *)
(** * JavaScript objects used as [Record<string, V>] *)
(* ================================================================== *)

Module JsRecord.

Section Record.
Variable V : Type.

(** Own properties in creation order. *)
Definition record := list (jsstring * V).

Definition empty : record := [].

(** [o[k]], [None] for [undefined]. *)
Fixpoint get (o : record) (k : jsstring) : option V :=
  match o with
  | [] => None
  | (k', v) :: o' => if str_eqb k' k then Some v else get o' k
  end.

(** [o[k] = v]: an existing property keeps its place. *)
Fixpoint set (o : record) (k : jsstring) (v : V) : record :=
  match o with
  | [] => [(k, v)]
  | (k', v') :: o' =>
      if str_eqb k' k then (k', v) :: o' else (k', v') :: set o' k v
  end.

(** A canonical numeric string below [2^32 - 1]. *)
Definition array_index (k : jsstring) : option Z :=
  match k with
  | [] => None
  | c :: rest =>
      if forallb is_digit k
         && (negb (c =? 48)%N || Nat.eqb (length rest) 0)
         && (Z_of_digits k <? 2 ^ 32 - 1)%Z
      then Some (Z_of_digits k) else None
  end.

Definition is_index (kv : jsstring * V) : bool :=
  match array_index (fst kv) with Some _ => true | None => false end.

Fixpoint insert_by_index (i : Z) (kv : jsstring * V)
    (l : list (Z * (jsstring * V))) : list (Z * (jsstring * V)) :=
  match l with
  | [] => [(i, kv)]
  | (j, kv') :: l' =>
      if (i <? j)%Z then (i, kv) :: l
      else (j, kv') :: insert_by_index i kv l'
  end.

Definition sort_indexed (o : record) : list (Z * (jsstring * V)) :=
  fold_right
    (fun kv acc =>
       match array_index (fst kv) with
       | Some i => insert_by_index i kv acc
       | None => acc
       end) [] o.

(** [Object.entries(o)]. *)
Definition entries (o : record) : list (jsstring * V) :=
  List.map snd (sort_indexed o) ++ filter (fun kv => negb (is_index kv)) o.

(** [Object.keys(o)]. *)
Definition keys (o : record) : list jsstring := List.map fst (entries o).

(** The invariant of an object: no key twice. *)
Definition wf (o : record) : Prop := NoDup (List.map fst o).

End Record.

Arguments empty {V}.

End JsRecord.

(** A small error monad for code that may throw. *)
Module Throw.

Definition bind {A B} (m : option A) (k : A -> option B) : option B :=
  match m with Some a => k a | None => None end.

Fixpoint foldM {A B} (f : B -> A -> option B) (l : list A) (b : B)
  : option B :=
  match l with
  | [] => Some b
  | a :: l' => bind (f b a) (foldM f l')
  end.

End Throw.

Notation "x <- m ;; k" := (Throw.bind m (fun x => k))
  (at level 61, m at next level, right associativity).

(* ================================================================== *)
(** * src/lib/network-utils.ts *)
(* ================================================================== *)

Module NetworkUtils.

Import JsRecord.

Definition point := (number * number)%type.

(** [NetworkData] of the types module. *)
Record NetworkData := {
  coordinates : record point;
  vertices : record (list point);
  inp : jsstring;
  name : jsstring
}.

Definition COORDINATES := lit "[COORDINATES]".
Definition VERTICES := lit "[VERTICES]".
Definition END := lit "[END]".

Definition section_is (section : option jsstring) (h : jsstring) : bool :=
  match section with Some s => str_eqb s h | None => false end.

(** ** extractGeometryData *)

Record extract_state := {
  ex_section : option jsstring;
  ex_coordinates : record point;
  ex_vertices : record (list point)
}.

(** [vertices[linkId].push(pt)], after creating the array when missing. *)
Definition push_vertex (vs : record (list point)) (linkId : jsstring)
    (pt : point) : record (list point) :=
  let vs := match get vs linkId with
            | None => set vs linkId []
            | Some _ => vs
            end in
  match get vs linkId with
  | Some pts => set vs linkId (pts ++ [pt])
  | None => vs
  end.

(** One iteration of the loop over the lines. *)
Definition extract_step (st : extract_state) (line : jsstring)
  : extract_state :=
  let trimmed := trim line in
  if startsWith trimmed (lit ";") || str_eqb trimmed [] then st
  else if startsWith trimmed (lit "[") then
    {| ex_section := Some trimmed;
       ex_coordinates := ex_coordinates st;
       ex_vertices := ex_vertices st |}
  else
    let parts := split_ws trimmed in
    let id := nth 0 parts [] in
    let x := nth 1 parts [] in
    let y := nth 2 parts [] in
    if section_is (ex_section st) COORDINATES && (3 <=? length parts)%nat then
      {| ex_section := ex_section st;
         ex_coordinates :=
           set (ex_coordinates st) id (parseFloat x, parseFloat y);
         ex_vertices := ex_vertices st |}
    else if section_is (ex_section st) VERTICES && (3 <=? length parts)%nat
    then
      {| ex_section := ex_section st;
         ex_coordinates := ex_coordinates st;
         ex_vertices :=
           push_vertex (ex_vertices st) id (parseFloat x, parseFloat y) |}
    else st.

Definition extract_init : extract_state :=
  {| ex_section := None; ex_coordinates := empty; ex_vertices := empty |}.

Definition extract_lines (lines : list jsstring) : extract_state :=
  fold_left extract_step lines extract_init.

Definition extractGeometryData (inpContent : jsstring)
  : record point * record (list point) :=
  let st := extract_lines (split LF inpContent) in
  (ex_coordinates st, ex_vertices st).

(** ** updateINPWithReprojectedData *)

Record update_state := {
  up_section : option jsstring;
  insideCoordinates : bool;
  insideVertices : bool;
  updatedLines : list jsstring
}.

Definition update_step (st : update_state) (line : jsstring)
  : update_state :=
  let trimmed := trim line in
  if str_eqb trimmed END then st
  else if startsWith trimmed (lit "[") then
    {| up_section := Some trimmed;
       insideCoordinates := str_eqb trimmed COORDINATES;
       insideVertices := str_eqb trimmed VERTICES;
       updatedLines := updatedLines st ++ [line] |}
  else if insideCoordinates st || insideVertices st then st
  else
    {| up_section := up_section st;
       insideCoordinates := insideCoordinates st;
       insideVertices := insideVertices st;
       updatedLines := updatedLines st ++ [line] |}.

Definition update_init : update_state :=
  {| up_section := None; insideCoordinates := false;
     insideVertices := false; updatedLines := [] |}.

(** The template literal [`${id} ${x.toFixed(p)} ${y.toFixed(p)}`]. *)
Definition format_line (id : jsstring) (pt : point) (p : Z)
  : option jsstring :=
  xs <- toFixed (fst pt) p ;;
  ys <- toFixed (snd pt) p ;;
  Some (id ++ lit " " ++ xs ++ lit " " ++ ys).

Definition push_coordinates (p : Z) (coords : record point)
    (lines : list jsstring) : option (list jsstring) :=
  if (0 <? length (keys coords))%nat then
    Throw.foldM
      (fun lines kv => l <- format_line (fst kv) (snd kv) p ;;
                       Some (lines ++ [l]))
      (entries coords) (lines ++ [LF :: COORDINATES])
  else Some lines.

Definition push_vertices (p : Z) (verts : record (list point))
    (lines : list jsstring) : option (list jsstring) :=
  if (0 <? length (keys verts))%nat then
    Throw.foldM
      (fun lines kv =>
         Throw.foldM
           (fun lines pt => l <- format_line (fst kv) pt p ;;
                            Some (lines ++ [l]))
           (snd kv) lines)
      (entries verts) (lines ++ [LF :: VERTICES])
  else Some lines.

(** [decimalPrecision] is [None] when the argument is not supplied. *)
Definition updateINPWithReprojectedData (inpContent : jsstring)
    (networkData : NetworkData) (decimalPrecision : option Z)
  : option jsstring :=
  let p := match decimalPrecision with Some p => p | None => 4%Z end in
  let st := fold_left update_step (split LF inpContent) update_init in
  l1 <- push_coordinates p (coordinates networkData) (updatedLines st) ;;
  l2 <- push_vertices p (vertices networkData) l1 ;;
  Some (join [LF] (l2 ++ [LF :: END])).

Section Projection.

(** [proj4(source, target, [x, y])]. *)
Variable proj4 : jsstring -> jsstring -> point -> point.

(** ** convertCoordinates *)

Definition convertCoordinates (networkData : NetworkData)
    (sourceProjection targetProjection : jsstring) : NetworkData :=
  let transformedCoordinates :=
    fold_left
      (fun acc kv =>
         let '(long, lat) :=
           proj4 sourceProjection targetProjection (snd kv) in
         set acc (fst kv) (long, lat))
      (entries (coordinates networkData)) empty in
  let transformedVertices :=
    fold_left
      (fun acc kv =>
         set acc (fst kv)
           (List.map (proj4 sourceProjection targetProjection) (snd kv)))
      (entries (vertices networkData)) empty in
  {| coordinates := transformedCoordinates;
     vertices := transformedVertices;
     inp := inp networkData;
     name := name networkData |}.

(** ** convertGeometry and convertGeoJsonToWGS84Generic *)

(** The members of an object other than the ones named in a constructor
    (a bounding box, foreign members); the spread [...geometry] carries
    them over. *)
Variable members : Type.

(** A GeoJSON geometry, by its [type]; positions are read as pairs, as the
    casts of the source do. *)
#[local] Unset Elimination Schemes.
Inductive Geometry : Type :=
| Point (rest : members) (coords : point)
| LineString (rest : members) (coords : list point)
| Polygon (rest : members) (coords : list (list point))
| MultiPoint (rest : members) (coords : list point)
| MultiLineString (rest : members) (coords : list (list point))
| MultiPolygon (rest : members) (coords : list (list (list point)))
| GeometryCollection (rest : members) (geometries : list Geometry)
| OtherGeometry (type : jsstring) (rest : members).
#[local] Set Elimination Schemes.

Definition WGS84 := lit "EPSG:4326".

Fixpoint convertGeometry (geometry : Geometry) (sourceProjection : jsstring)
  : Geometry :=
  let tr := proj4 sourceProjection WGS84 in
  match geometry with
  | Point r c => Point r (tr c)
  | LineString r cs => LineString r (List.map tr cs)
  | Polygon r rings => Polygon r (List.map (List.map tr) rings)
  | MultiPoint r cs => MultiPoint r (List.map tr cs)
  | MultiLineString r ls => MultiLineString r (List.map (List.map tr) ls)
  | MultiPolygon r ps =>
      MultiPolygon r (List.map (List.map (List.map tr)) ps)
  | GeometryCollection r gs =>
      GeometryCollection r
        (List.map (fun geom => convertGeometry geom sourceProjection) gs)
  | OtherGeometry t r => OtherGeometry t r
  end.

Record Feature := {
  geometry : option Geometry;
  feature_rest : members
}.

Record FeatureCollection := {
  features : list Feature;
  collection_rest : members
}.

Definition convertGeoJsonToWGS84Generic (geojson : FeatureCollection)
    (sourceProjection : jsstring) : FeatureCollection :=
  {| features :=
       List.map
         (fun feature =>
            match geometry feature with
            | None => feature
            | Some g =>
                {| geometry := Some (convertGeometry g sourceProjection);
                   feature_rest := feature_rest feature |}
            end)
         (features geojson);
     collection_rest := collection_rest geojson |}.

End Projection.

End NetworkUtils.

(* ================================================================== *)
(** * src/lib/model-builder-constants.ts *)
(* ================================================================== *)

Module ModelBuilderConstants.

Import JsRecord.

(** Modelled from the spec: [FlowUnit] and [HeadlossFormula] are declared
    in the types module, which is not among the sources; the spec calls
    each a fixed enumerated set, and the code uses their members as
    strings. *)
Definition FlowUnit := jsstring.
Definition HeadlossFormula := jsstring.

Definition FLOW_UNITS_US : list FlowUnit :=
  [lit "CFS"; lit "GPM"; lit "MGD"; lit "IMGD"; lit "AFD"].

Definition FLOW_UNITS_METRIC : list FlowUnit :=
  [lit "LPS"; lit "LPM"; lit "MLD"; lit "CMH"; lit "CMD"].

Definition FLOW_UNITS : list FlowUnit := FLOW_UNITS_US ++ FLOW_UNITS_METRIC.

(** [xs.includes(x)] on strings. *)
Definition includes (xs : list jsstring) (x : jsstring) : bool :=
  existsb (fun y => str_eqb y x) xs.

Definition isMetricUnit (unit : FlowUnit) : bool :=
  includes FLOW_UNITS_METRIC unit.

Record unit_labels := { us : jsstring; metric : jsstring }.

Definition ATTRIBUTE_UNIT_MAP : record unit_labels :=
  [ (lit "Diameter", {| us := lit "in"; metric := lit "mm" |});
    (lit "InitLevel", {| us := lit "ft"; metric := lit "m" |});
    (lit "MinLevel", {| us := lit "ft"; metric := lit "m" |});
    (lit "MaxLevel", {| us := lit "ft"; metric := lit "m" |});
    (lit "Head", {| us := lit "ft"; metric := lit "m" |}) ].

(** [None] is [null]. *)
Definition getAttributeUnit (attribute : jsstring) (unit : FlowUnit)
  : option jsstring :=
  match get ATTRIBUTE_UNIT_MAP attribute with
  | None => None
  | Some mapping =>
      Some (if isMetricUnit unit then metric mapping else us mapping)
  end.

Definition PIPE_ROUGHNESS_DEFAULT : record number :=
  [ (lit "Hazen-Williams", Fin 100 0);
    (lit "Darcy-Weisbach", Fin 1 (-2));
    (lit "Chezy-Manning", Fin 13 (-3)) ].

Definition getDefaultPipeRoughness (formula : HeadlossFormula) : number :=
  match get PIPE_ROUGHNESS_DEFAULT formula with
  | Some r => r
  | None => Fin 100 0
  end.

(** A default value is a number or a string. *)
Inductive value : Type :=
| VNum (n : number)
| VStr (s : jsstring).

(** Modelled from the spec: [EpanetElementDefinition] is declared in the
    types module, which is not among the sources; its fields are those of
    the entries of [EPANET_ELEMENTS], the parts the spec lists for an
    element schema. *)
Record EpanetElementDefinition := {
  key : jsstring;
  name : jsstring;
  geometryTypes : list jsstring;
  requiredAttributes : list jsstring;
  optionalAttributes : list jsstring;
  defaultValues : record value
}.

Definition EPANET_ELEMENTS : list EpanetElementDefinition :=
  [ {| key := lit "pipes";
       name := lit "Pipes";
       geometryTypes := [lit "LineString"; lit "MultiLineString"];
       requiredAttributes := [lit "Id"; lit "Diameter"; lit "Roughness"];
       optionalAttributes := [lit "MinorLoss"; lit "Status"; lit "Comment"];
       defaultValues :=
         [ (lit "Diameter", VNum (Fin 150 0));
           (lit "Roughness", VNum (Fin 100 0));
           (lit "MinorLoss", VNum (Fin 0 0));
           (lit "Status", VStr (lit "Open")) ] |};
    {| key := lit "nodes";
       name := lit "Nodes";
       geometryTypes := [lit "Point"; lit "MultiPoint"];
       requiredAttributes := [lit "Id"];
       optionalAttributes := [lit "Comment"];
       defaultValues := [] |};
    {| key := lit "valves";
       name := lit "Valves";
       geometryTypes := [lit "Point"; lit "MultiPoint"];
       requiredAttributes :=
         [lit "Id"; lit "Diameter"; lit "Type"; lit "Setting"];
       optionalAttributes := [lit "MinorLoss"; lit "Comment"];
       defaultValues :=
         [ (lit "Diameter", VNum (Fin 150 0));
           (lit "Type", VStr (lit "PRV"));
           (lit "Setting", VNum (Fin 0 0));
           (lit "MinorLoss", VNum (Fin 0 0)) ] |};
    {| key := lit "pumps";
       name := lit "Pumps";
       geometryTypes := [lit "Point"; lit "MultiPoint"];
       requiredAttributes := [lit "Id"];
       optionalAttributes := [lit "Parameters"; lit "Comment"];
       defaultValues := [ (lit "Parameters", VStr (lit "POWER 5")) ] |};
    {| key := lit "tanks";
       name := lit "Tanks";
       geometryTypes := [lit "Point"; lit "MultiPoint"];
       requiredAttributes :=
         [lit "Id"; lit "InitLevel"; lit "MinLevel"; lit "MaxLevel";
          lit "Diameter"];
       optionalAttributes := [lit "MinVolume"; lit "Comment"];
       defaultValues :=
         [ (lit "InitLevel", VNum (Fin 5 0));
           (lit "MinLevel", VNum (Fin 0 0));
           (lit "MaxLevel", VNum (Fin 10 0));
           (lit "Diameter", VNum (Fin 50 0));
           (lit "MinVolume", VNum (Fin 0 0)) ] |};
    {| key := lit "reservoirs";
       name := lit "Reservoirs";
       geometryTypes := [lit "Point"; lit "MultiPoint"];
       requiredAttributes := [lit "Id"; lit "Head"];
       optionalAttributes := [lit "Comment"];
       defaultValues := [ (lit "Head", VNum (Fin 0 0)) ] |} ].

Definition isValidGeometryForElement (geometryType elementType : jsstring)
  : bool :=
  match find (fun e => str_eqb (key e) elementType) EPANET_ELEMENTS with
  | None => false
  | Some element => includes (geometryTypes element) geometryType
  end.

(** Does the schema carry a default for the attribute? *)
Definition has_default (e : EpanetElementDefinition) (a : jsstring) : bool :=
  match get (defaultValues e) a with Some _ => true | None => false end.

(** Every default belongs to a required attribute. *)
Definition only_required_defaulted : Prop :=
  forall e a, In e EPANET_ELEMENTS -> has_default e a = true ->
    In a (requiredAttributes e).

(** The five attributes that carry a unit. *)
Definition UNIT_ATTRIBUTES : list jsstring :=
  [lit "Diameter"; lit "InitLevel"; lit "MinLevel"; lit "MaxLevel";
   lit "Head"].

Definition POINT_ELEMENTS : list jsstring :=
  [lit "nodes"; lit "valves"; lit "pumps"; lit "tanks"; lit "reservoirs"].

End ModelBuilderConstants.

(* ================================================================== *)
(** * Specification-level views of an INP document and of the schema *)
(* ================================================================== *)

Module InpSpec.

Import JsRecord NetworkUtils.

(** ** Lines and sections of an INP text *)

Definition is_end_marker (line : jsstring) : bool := str_eqb (trim line) END.

(** A bracketed header other than the end marker opens a section. *)
Definition is_section_header (line : jsstring) : bool :=
  startsWith (trim line) (lit "[") && negb (is_end_marker line).

Definition is_geometry_header (line : jsstring) : bool :=
  str_eqb (trim line) COORDINATES || str_eqb (trim line) VERTICES.

(** The lines before the first header, then every section as its header
    line and the lines below it. *)
Fixpoint split_sections (lines : list jsstring)
  : list jsstring * list (jsstring * list jsstring) :=
  match lines with
  | [] => ([], [])
  | l :: rest =>
      let (b, ss) := split_sections rest in
      if is_section_header l then ([], (l, b) :: ss) else (l :: b, ss)
  end.

Definition without_end_markers (body : list jsstring) : list jsstring :=
  filter (fun l => negb (is_end_marker l)) body.

(** What is kept of a section: all of it but its end markers, or the bare
    header line for the two geometry sections. *)
Definition preserved_section (s : jsstring * list jsstring)
  : list jsstring :=
  fst s :: (if is_geometry_header (fst s) then []
            else without_end_markers (snd s)).

Definition preserved (lines : list jsstring) : list jsstring :=
  let (pre, ss) := split_sections lines in
  without_end_markers pre ++ flat_map preserved_section ss.

(** ** The regenerated geometry sections *)

Definition data_line (p : Z) (id : jsstring) (pt : point) : jsstring :=
  id ++ lit " " ++ toFixed_text (fst pt) p ++ lit " " ++ toFixed_text (snd pt) p.

Definition coordinate_section (p : Z) (coords : record point)
  : list jsstring :=
  match coords with
  | [] => []
  | _ => (LF :: COORDINATES)
         :: List.map (fun kv => data_line p (fst kv) (snd kv)) (entries coords)
  end.

Definition vertex_section (p : Z) (verts : record (list point))
  : list jsstring :=
  match verts with
  | [] => []
  | _ => (LF :: VERTICES)
         :: flat_map (fun kv => List.map (data_line p (fst kv)) (snd kv))
              (entries verts)
  end.

(** The lines appended after the preserved ones; [None] when formatting
    throws. *)
Definition regenerated (p : Z) (nd : NetworkData) : option (list jsstring) :=
  l1 <- push_coordinates p (coordinates nd) [] ;;
  l2 <- push_vertices p (vertices nd) l1 ;;
  Some (l2 ++ [LF :: END]).

(** Every numeric text written for the network. *)
Definition point_texts (p : Z) (pt : point) : list jsstring :=
  [toFixed_text (fst pt) p; toFixed_text (snd pt) p].

Definition written_values (p : Z) (nd : NetworkData) : list jsstring :=
  flat_map (fun kv => point_texts p (snd kv)) (entries (coordinates nd))
  ++ flat_map (fun kv => flat_map (point_texts p) (snd kv))
       (entries (vertices nd)).

Definition precision (decimalPrecision : option Z) : Z :=
  match decimalPrecision with Some p => p | None => 4%Z end.

Definition in_range (p : Z) : Prop := (0 <= p <= 100)%Z.

(** ** Data records read by the coordinate extractor *)

Definition ignorable (line : jsstring) : bool :=
  startsWith (trim line) (lit ";") || str_eqb (trim line) [].

Definition is_header (line : jsstring) : bool :=
  negb (ignorable line) && startsWith (trim line) (lit "[").

Definition fields (line : jsstring) : list jsstring := split_ws (trim line).

(** The data lines of a text in file order, each with the header it
    stands under and its whitespace-separated fields. *)
Fixpoint data_records (section : option jsstring) (lines : list jsstring)
  : list (option jsstring * list jsstring) :=
  match lines with
  | [] => []
  | l :: rest =>
      if ignorable l then data_records section rest
      else if is_header l then data_records (Some (trim l)) rest
      else (section, fields l) :: data_records section rest
  end.

Definition qualifies (h : jsstring) (r : option jsstring * list jsstring)
  : bool :=
  section_is (fst r) h && (3 <=? length (snd r))%nat.

Definition record_id (r : option jsstring * list jsstring) : jsstring :=
  nth 0 (snd r) [].

Definition record_point (r : option jsstring * list jsstring) : point :=
  (parseFloat (nth 1 (snd r) []), parseFloat (nth 2 (snd r) [])).

Definition matching (h id : jsstring)
    (recs : list (option jsstring * list jsstring))
  : list (option jsstring * list jsstring) :=
  filter (fun r => qualifies h r && str_eqb (record_id r) id) recs.

Definition records_of (h id : jsstring) (section : option jsstring)
    (lines : list jsstring) : list (option jsstring * list jsstring) :=
  matching h id (data_records section lines).

(** The point of the last qualifying coordinate line of a node. *)
Definition last_point (id : jsstring) (lines : list jsstring)
  : option point :=
  match rev (records_of COORDINATES id None lines) with
  | r :: _ => Some (record_point r)
  | [] => None
  end.

(** The points of the qualifying vertex lines of a link, in file order. *)
Definition link_points (link : jsstring) (lines : list jsstring)
  : list point :=
  List.map record_point (records_of VERTICES link None lines).

(** ** Round trip *)

Definition reparse_point (p : Z) (pt : point) : point :=
  (reparse p (fst pt), reparse p (snd pt)).

(** Writing the network into [base] and reading the text back gives the
    coordinates and the vertices of the network, each value as read back
    from its text. *)
Definition roundtrip_holds (base : jsstring) (nd : NetworkData)
    (decimalPrecision : option Z) : Prop :=
  exists out,
    updateINPWithReprojectedData base nd decimalPrecision = Some out
    /\ (forall k, get (fst (extractGeometryData out)) k
                  = option_map (reparse_point (precision decimalPrecision))
                      (get (coordinates nd) k))
    /\ (forall k, get (snd (extractGeometryData out)) k
                  = option_map
                      (List.map (reparse_point (precision decimalPrecision)))
                      (get (vertices nd) k)).

Definition ids_without_whitespace (nd : NetworkData) : Prop :=
  (forall k, In k (List.map fst (coordinates nd)) -> no_ws k)
  /\ (forall k, In k (List.map fst (vertices nd)) -> no_ws k).

(** An identifier that survives as the first field of a data line. *)
Definition plain_id (id : jsstring) : Prop :=
  id <> [] /\ no_ws id
  /\ startsWith id (lit ";") = false /\ startsWith id (lit "[") = false.

Definition well_formed (nd : NetworkData) : Prop :=
  wf (coordinates nd) /\ wf (vertices nd).

(** Every written numeric text has exactly [decimalPrecision] digits after
    the decimal point. *)
Definition written_fixed (nd : NetworkData) (decimalPrecision : option Z)
  : Prop :=
  forall t, In t (written_values (precision decimalPrecision) nd) ->
    fixed_format (Z.to_nat (precision decimalPrecision)) t = true.

(** The sections of a text laid out again as its lines. *)
Definition section_lines (s : jsstring * list jsstring) : list jsstring :=
  fst s :: snd s.

(** ** Sample networks *)

(** A node whose identifier begins with a semicolon. *)
Definition semicolon_node : NetworkData :=
  {| coordinates := [(lit ";J1", (Fin 1 0, Fin 2 0))];
     vertices := [];
     inp := [];
     name := [] |}.

(** A link that has no vertex. *)
Definition bare_link : NetworkData :=
  {| coordinates := [];
     vertices := [(lit "P1", [])];
     inp := [];
     name := [] |}.

(** A node whose identifier begins with a bracket. *)
Definition bracket_node : NetworkData :=
  {| coordinates := [(lit "[J1]", (Fin 1 0, Fin 2 0))];
     vertices := [];
     inp := [];
     name := [] |}.

(** A node whose identifier is the empty string. *)
Definition unnamed_node : NetworkData :=
  {| coordinates := [([], (Fin 1 0, Fin 2 0))];
     vertices := [];
     inp := [];
     name := [] |}.

(** A node at [x = 10^21]. *)
Definition far_node : NetworkData :=
  {| coordinates := [(lit "J1", (Fin 1 21, Fin 0 0))];
     vertices := [];
     inp := [];
     name := [] |}.

(** A node whose coordinates did not parse as numbers. *)
Definition nan_node : NetworkData :=
  {| coordinates := [(lit "J1", (NaN, NaN))];
     vertices := [];
     inp := [];
     name := [] |}.

(** A small network: two junctions and a pipe with two vertices. *)
Definition small_network : NetworkData :=
  {| coordinates := [(lit "J1", (Fin 15 (-1), Fin 2 0));
                     (lit "10", (Fin (-123456) (-5), Fin 0 0))];
     vertices := [(lit "P1", [(Fin 1 0, Fin 2 0); (Fin 3 0, Fin 45 (-1))])];
     inp := [];
     name := lit "net.inp" |}.

(** A stand-in for a projection: it swaps the two axes. *)
Definition swap_axes (source target : jsstring) (pt : point) : point :=
  (snd pt, fst pt).

Definition small_base : jsstring :=
  lit "[TITLE]" ++ [LF] ++ lit " demo" ++ [LF] ++ lit "[COORDINATES]" ++ [LF]
  ++ lit "J1 0 0" ++ [LF] ++ lit "[OPTIONS]" ++ [LF] ++ lit "UNITS LPS"
  ++ [LF] ++ lit "[END]" ++ [LF].

(** ** Loop invariants *)

Definition skipping (st : update_state) : bool :=
  insideCoordinates st || insideVertices st.

(** What the loop keeps of [lines] when it starts inside ([skip]) or
    outside a geometry section. *)
Definition kept (skip : bool) (lines : list jsstring) : list jsstring :=
  let (pre, ss) := split_sections lines in
  (if skip then [] else without_end_markers pre)
  ++ flat_map preserved_section ss.

Definition push_one (A : Type) (g : A -> option jsstring)
    (lines : list jsstring) (x : A) : option (list jsstring) :=
  l <- g x ;; Some (lines ++ [l]).

Definition push_link (p : Z) (lines : list jsstring)
    (kv : jsstring * list point) : option (list jsstring) :=
  Throw.foldM (push_one (fun pt => format_line (fst kv) pt p)) (snd kv) lines.

Definition in_geometry (section : option jsstring) : bool :=
  section_is section COORDINATES || section_is section VERTICES.

(** The effect of one data record on the two mappings. *)
Definition apply_record (cv : record point * record (list point))
    (r : option jsstring * list jsstring)
  : record point * record (list point) :=
  if qualifies COORDINATES r
  then (set (fst cv) (record_id r) (record_point r), snd cv)
  else if qualifies VERTICES r
  then (fst cv, push_vertex (snd cv) (record_id r) (record_point r))
  else cv.

Definition geometry_of (st : extract_state)
  : record point * record (list point) :=
  (ex_coordinates st, ex_vertices st).

(** What reading the data line of a node, or the data lines of a link,
    does to the mappings. *)
Definition set_point (p : Z) (c : record point) (kv : jsstring * point)
  : record point :=
  set c (fst kv) (reparse_point p (snd kv)).

Definition push_points (p : Z) (v : record (list point))
    (kv : jsstring * list point) : record (list point) :=
  fold_left (fun v pt => push_vertex v (fst kv) (reparse_point p pt))
    (snd kv) v.

(** The lines of the regenerated sections, as the extractor reads them. *)
Definition coordinate_lines (p : Z) (coords : record point)
  : list jsstring :=
  match coords with
  | [] => []
  | _ => [] :: COORDINATES
         :: List.map (fun kv => data_line p (fst kv) (snd kv)) (entries coords)
  end.

Definition vertex_lines (p : Z) (verts : record (list point))
  : list jsstring :=
  match verts with
  | [] => []
  | _ => [] :: VERTICES
         :: flat_map (fun kv => List.map (data_line p (fst kv)) (snd kv))
              (entries verts)
  end.

End InpSpec.

(** ** GeoJSON geometries *)

Module GeoSpec.

Import NetworkUtils.

Section Geo.
Variable members : Type.

(** Every position of a geometry, in document order. *)
Fixpoint positions (g : Geometry members) : list point :=
  match g with
  | Point _ c => [c]
  | LineString _ cs => cs
  | Polygon _ rings => concat rings
  | MultiPoint _ cs => cs
  | MultiLineString _ ls => concat ls
  | MultiPolygon _ ps => concat (List.map (@concat point) ps)
  | GeometryCollection _ gs => flat_map positions gs
  | OtherGeometry _ _ => []
  end.

(** The same function applied to every position, at whatever depth the
    geometry type puts it; everything else is left as it is. *)
Fixpoint map_positions (f : point -> point) (g : Geometry members)
  : Geometry members :=
  match g with
  | Point r c => Point r (f c)
  | LineString r cs => LineString r (List.map f cs)
  | Polygon r rings => Polygon r (List.map (List.map f) rings)
  | MultiPoint r cs => MultiPoint r (List.map f cs)
  | MultiLineString r ls => MultiLineString r (List.map (List.map f) ls)
  | MultiPolygon r ps => MultiPolygon r (List.map (List.map (List.map f)) ps)
  | GeometryCollection r gs =>
      GeometryCollection r (List.map (map_positions f) gs)
  | OtherGeometry t r => OtherGeometry t r
  end.

(** The geometry with its positions blanked: its type, members and
    nesting. *)
Definition shape (g : Geometry members) : Geometry members :=
  map_positions (fun _ => (NaN, NaN)) g.

End Geo.

End GeoSpec.

(* ================================================================== *)
(** * Further code of src/lib/network-utils.ts *)
(* ================================================================== *)

Module NetworkUtilsMore.

Import JsRecord NetworkUtils.

(** ** parseINPFile *)

(** A [File]: its name and what reading it as text gives, [None] when the
    reader reports an error. *)
Record File := {
  file_name : jsstring;
  file_text : option jsstring
}.

(** How a promise settles. *)
Inductive settled (A : Type) : Type :=
| Resolved (value : A)
| Rejected (message : jsstring).
Arguments Resolved {A} value.
Arguments Rejected {A} message.

Definition parseINPFile (file : option File)
  : settled (option NetworkData) :=
  match file with
  | None => Resolved None
  | Some f =>
      match file_text f with
      | Some content =>
          let (coordinates, vertices) := extractGeometryData content in
          Resolved (Some {| coordinates := coordinates;
                            vertices := vertices;
                            inp := content;
                            name := file_name f |})
      | None => Rejected (lit "Failed to read file")
      end
  end.

Section Projection.

Variable proj4 : jsstring -> jsstring -> point -> point.
Variable members : Type.

(** The members [type], [properties], [id] and [bbox] of a feature, without
    its foreign members: what the object literal of the LineString branch
    copies. *)
Variable standard_members : members -> members.

(** ** convertGeoJsonToWGS84 *)

(** One feature; [None] is the [TypeError] of reading [geometry.type] when
    the geometry is [null]. *)
Definition convertFeature (feature : Feature members)
    (sourceProjection : jsstring) : option (Feature members) :=
  match geometry feature with
  | None => None
  | Some (Point r c) =>
      Some {| geometry := Some (Point r (proj4 sourceProjection WGS84 c));
              feature_rest := feature_rest feature |}
  | Some (LineString r cs) =>
      Some {| geometry :=
                Some (LineString r
                        (List.map (proj4 sourceProjection WGS84) cs));
              feature_rest := standard_members (feature_rest feature) |}
  | Some _ => Some feature
  end.

(** [xs.map(f)] for an [f] that may throw. *)
Fixpoint mapM (A B : Type) (f : A -> option B) (xs : list A)
  : option (list B) :=
  match xs with
  | [] => Some []
  | x :: xs' =>
      y <- f x ;;
      ys <- mapM f xs' ;;
      Some (y :: ys)
  end.

Definition convertGeoJsonToWGS84 (geojson : FeatureCollection members)
    (sourceProjection : jsstring) : option (FeatureCollection members) :=
  fs <- mapM (fun feature => convertFeature feature sourceProjection)
          (features geojson) ;;
  Some {| features := fs; collection_rest := collection_rest geojson |}.

End Projection.

End NetworkUtilsMore.

(* ================================================================== *)
(** * Further code of src/lib/model-builder-constants.ts *)
(* ================================================================== *)

Module ModelBuilderConstantsMore.

Import JsRecord ModelBuilderConstants.

(** [set.add(x)] on a [Set<string>], kept in insertion order. *)
Definition set_add (s : list jsstring) (x : jsstring) : list jsstring :=
  if includes s x then s else s ++ [x].

(** Comparison of strings by code units, as the default [sort] does. *)
Fixpoint str_ltb (a b : jsstring) : bool :=
  match a, b with
  | _, [] => false
  | [], _ :: _ => true
  | x :: a', y :: b' => (x <? y)%N || ((x =? y)%N && str_ltb a' b')
  end.

Fixpoint insert_sorted (x : jsstring) (l : list jsstring) : list jsstring :=
  match l with
  | [] => [x]
  | y :: l' => if str_ltb y x then y :: insert_sorted x l' else x :: l
  end.

(** [xs.sort()] on strings. *)
Definition sort (xs : list jsstring) : list jsstring :=
  fold_right insert_sorted [] xs.

Section Any.

(** The values of feature properties. *)
Variable V : Type.

(** The parts of an untyped GeoJSON value that the code reads; [None] is
    a missing or [null] member. *)
Record AnyGeometry := { geometry_type : option jsstring }.

Record AnyFeature := {
  any_geometry : option AnyGeometry;
  any_properties : option (record V)
}.

Record AnyGeoJSON := { any_features : option (list AnyFeature) }.

(** One round of the first [forEach]: an empty type string is falsy. *)
Definition add_geometry_type (geometryTypes : list jsstring)
    (feature : AnyFeature) : list jsstring :=
  match any_geometry feature with
  | Some g =>
      match geometry_type g with
      | Some (c :: t) => set_add geometryTypes (c :: t)
      | _ => geometryTypes
      end
  | None => geometryTypes
  end.

Definition getValidGeometryType (geoJSON : option AnyGeoJSON) : jsstring :=
  match geoJSON with
  | None => lit "Unknown"
  | Some g =>
      match any_features g with
      | None => lit "Unknown"
      | Some [] => lit "Unknown"
      | Some fs =>
          match fold_left add_geometry_type fs [] with
          | [t] => t
          | _ :: _ :: _ => lit "Mixed"
          | [] => lit "Unknown"
          end
      end
  end.

Definition add_property_keys (allProperties : list jsstring)
    (feature : AnyFeature) : list jsstring :=
  match any_properties feature with
  | Some properties => fold_left set_add (keys properties) allProperties
  | None => allProperties
  end.

Definition getGeoJSONProperties (geoJSON : option AnyGeoJSON)
  : list jsstring :=
  match geoJSON with
  | None => []
  | Some g =>
      match any_features g with
      | None => []
      | Some [] => []
      | Some fs => sort (fold_left add_property_keys fs [])
      end
  end.

(** ** Specification-level notions *)

(** The geometry type of a feature, when it has one. *)
Definition typed (feature : AnyFeature) : list jsstring :=
  match any_geometry feature with
  | Some g =>
      match geometry_type g with
      | Some (c :: t) => [c :: t]
      | _ => []
      end
  | None => []
  end.

(** The geometry types of the features of a value, with repetitions. *)
Definition geometry_types (geoJSON : option AnyGeoJSON) : list jsstring :=
  match geoJSON with
  | Some g =>
      match any_features g with
      | Some fs => flat_map typed fs
      | None => []
      end
  | None => []
  end.

(** The property names of the features of a value, with repetitions. *)
Definition property_names (geoJSON : option AnyGeoJSON) : list jsstring :=
  match geoJSON with
  | Some g =>
      match any_features g with
      | Some fs =>
          flat_map (fun f => match any_properties f with
                             | Some properties => List.map fst properties
                             | None => []
                             end) fs
      | None => []
      end
  | None => []
  end.

End Any.

Fixpoint strictly_ascending (l : list jsstring) : bool :=
  match l with
  | [] => true
  | x :: l' =>
      match l' with
      | [] => true
      | y :: _ => str_ltb x y && strictly_ascending l'
      end
  end.

(** A layer of two points and one feature without geometry. *)
Definition point_layer : option (AnyGeoJSON nat) :=
  Some {| any_features :=
            Some [ {| any_geometry :=
                        Some {| geometry_type := Some (lit "Point") |};
                      any_properties := Some [(lit "name", 1%nat);
                                              (lit "dia", 2%nat)] |};
                   {| any_geometry := None;
                      any_properties := None |};
                   {| any_geometry :=
                        Some {| geometry_type := Some (lit "Point") |};
                      any_properties := Some [(lit "dia", 3%nat);
                                              (lit "10", 4%nat)] |} ] |}.

End ModelBuilderConstantsMore.

(* ================================================================== *)
(** * Specification-level notions for the further properties *)
(* ================================================================== *)

Module MoreSpec.

Import JsRecord NetworkUtils NetworkUtilsMore InpSpec.

(** The network read from a text. *)
Definition parsed (content fileName : jsstring) : NetworkData :=
  {| coordinates := fst (extractGeometryData content);
     vertices := snd (extractGeometryData content);
     inp := content;
     name := fileName |}.

(** Every identifier of the network is plain and every link has a
    vertex. *)
Definition plain_network (nd : NetworkData) : Prop :=
  (forall kv, In kv (coordinates nd) -> plain_id (fst kv))
  /\ (forall kv, In kv (vertices nd) -> plain_id (fst kv) /\ snd kv <> []).

(** The invariant of the extractor's loop. *)
Definition plain_state (st : extract_state) : Prop :=
  wf (ex_coordinates st) /\ wf (ex_vertices st)
  /\ (forall k, get (ex_coordinates st) k <> None -> plain_id k)
  /\ (forall k pts, get (ex_vertices st) k = Some pts ->
        plain_id k /\ pts <> []).

(** A value that the text at precision [p] gives back unchanged. *)
Definition stable (p : Z) (x : number) : Prop := reparse p x = x.

Definition stable_point (p : Z) (pt : point) : Prop :=
  stable p (fst pt) /\ stable p (snd pt).

Definition stable_network (p : Z) (nd : NetworkData) : Prop :=
  (forall kv, In kv (coordinates nd) -> stable_point p (snd kv))
  /\ (forall kv pt, In kv (vertices nd) -> In pt (snd kv) ->
        stable_point p pt).

(** The number of lines that satisfy a test. *)
Definition count_lines (test : jsstring -> bool) (lines : list jsstring)
  : nat :=
  length (filter test lines).

Definition is_coordinates_header (line : jsstring) : bool :=
  str_eqb (trim line) COORDINATES.

Definition is_vertices_header (line : jsstring) : bool :=
  str_eqb (trim line) VERTICES.

(** Is there a value to format? *)
Definition has_values (nd : NetworkData) : Prop :=
  coordinates nd <> [] \/ exists kv, In kv (vertices nd) /\ snd kv <> [].

(** A network without nodes and links. *)
Definition empty_network (content fileName : jsstring) : NetworkData :=
  {| coordinates := []; vertices := []; inp := content; name := fileName |}.

(** A network whose values have four decimals. *)
Definition rounded_network : NetworkData :=
  {| coordinates := [(lit "J1", (Fin 15000 (-4), Fin (-20001) (-4)))];
     vertices := [(lit "P1", [(Fin 0 (-4), Fin 123 (-4))])];
     inp := [];
     name := [] |}.

(** A stand-in for a pair of inverse projections: the target names the
    direction of a shift along the first axis. *)
Definition shift_axes (source target : jsstring) (pt : point) : point :=
  match fst pt with
  | Fin m e =>
      if str_eqb target (lit "B") then (Fin (m + 1) e, snd pt)
      else (Fin (m - 1) e, snd pt)
  | _ => pt
  end.

End MoreSpec.

(* ================================================================== *)
(** * src/unnamed/part_001: the model builder page *)
(* ================================================================== *)

Module ModelBuilderPage.

Import JsRecord ModelBuilderConstants.

(** ** The step of the wizard *)

Definition validSteps : list jsstring :=
  [lit "modelSettings"; lit "dataAssignment"; lit "attributeMapping"].

(** [getInitialStep]; the argument is [searchParams.get("step")], [None]
    for [null]. *)
Definition getInitialStep (stepFromUrl : option jsstring) : jsstring :=
  match stepFromUrl with
  | Some step =>
      if includes validSteps step then step else lit "modelSettings"
  | None => lit "modelSettings"
  end.

(** ** The build process *)

Inductive Status : Type := pending | inProgress | completed.

Record ProgressStep := { step_name : jsstring; status : Status }.

(** The data of a message of the worker; [None] is an absent member. *)
Record WorkerMessage := {
  type : jsstring;
  task : option jsstring;
  inpFile : option jsstring;
  message : option jsstring
}.

Record BuildState := {
  isBuilding : bool;
  progressSteps : list ProgressStep;
  inpContent : jsstring;
  buildError : jsstring
}.

(** An absent or empty string is falsy. *)
Definition truthy (s : option jsstring) : bool :=
  match s with
  | Some (_ :: _) => true
  | _ => false
  end.

(** [s || d] *)
Definition or_else (s : option jsstring) (d : jsstring) : jsstring :=
  match s with
  | Some (c :: t) => c :: t
  | _ => d
  end.

(** The callback of [prev.map] for a progress message. *)
Definition mark_progress (task : jsstring) (step : ProgressStep)
  : ProgressStep :=
  if str_eqb (step_name step) task
  then {| step_name := step_name step; status := inProgress |}
  else match status step with
       | inProgress => {| step_name := step_name step; status := completed |}
       | _ => step
       end.

(** The callback of [prev.map] for the final message. *)
Definition mark_complete (step : ProgressStep) : ProgressStep :=
  match status step with
  | inProgress => {| step_name := step_name step; status := completed |}
  | _ => step
  end.

(** [workerRef.current.onmessage] *)
Definition onmessage (data : WorkerMessage) (st : BuildState) : BuildState :=
  if str_eqb (type data) (lit "progress") && truthy (task data) then
    {| isBuilding := isBuilding st;
       progressSteps :=
         List.map (mark_progress (or_else (task data) []))
           (progressSteps st);
       inpContent := inpContent st;
       buildError := buildError st |}
  else if str_eqb (type data) (lit "complete") && truthy (inpFile data) then
    {| isBuilding := false;
       progressSteps := List.map mark_complete (progressSteps st);
       inpContent := or_else (inpFile data) [];
       buildError := buildError st |}
  else if str_eqb (type data) (lit "error") then
    {| isBuilding := false;
       progressSteps := progressSteps st;
       inpContent := inpContent st;
       buildError := or_else (message data) (lit "Unknown error") |}
  else st.

Definition tasks : list jsstring :=
  [ lit "Reading Build Config";
    lit "Validating Data";
    lit "Converting MultiString Geometry";
    lit "Simplifying Crossings";
    lit "Building Network Graph";
    lit "Calculating Connectivity";
    lit "Assigning Elevations";
    lit "Generating INP File";
    lit "Finished Build" ].

(** [xs.map((x, idx) => f(x, idx))], from index [idx]. *)
Fixpoint map_index (A B : Type) (f : A -> nat -> B) (xs : list A)
    (idx : nat) : list B :=
  match xs with
  | [] => []
  | x :: xs' => f x idx :: map_index f xs' (S idx)
  end.

(** The state that [handleBuildModel] sets before it starts the worker. *)
Definition handleBuildModel (st : BuildState) : BuildState :=
  {| isBuilding := true;
     progressSteps :=
       map_index
         (fun name idx =>
            {| step_name := name;
               status := if Nat.eqb idx 0 then inProgress else pending |})
         tasks 0;
     inpContent := [];
     buildError := [] |}.

(** [workerRef.current.onerror], with the message of the error event. *)
Definition onerror (message : jsstring) (st : BuildState) : BuildState :=
  {| isBuilding := false;
     progressSteps := progressSteps st;
     inpContent := inpContent st;
     buildError := message |}.

(** The [onClose] callback of the progress dialog. *)
Definition onClose (st : BuildState) : BuildState :=
  if negb (isBuilding st) then
    {| isBuilding := isBuilding st;
       progressSteps := [];
       inpContent := [];
       buildError := [] |}
  else st.

(** The [open] property of the progress dialog. *)
Definition dialog_open (st : BuildState) : bool :=
  isBuilding st
  || negb (Nat.eqb (length (buildError st)) 0)
  || negb (Nat.eqb (length (inpContent st)) 0).

(** The build state of the first render. *)
Definition initial_build : BuildState :=
  {| isBuilding := false;
     progressSteps := [];
     inpContent := [];
     buildError := [] |}.

(** What happens to the build state. *)
Inductive BuildEvent : Type :=
| Started
| Received (data : WorkerMessage)
| Failed (message : jsstring)
| Closed.

Definition handle (event : BuildEvent) (st : BuildState) : BuildState :=
  match event with
  | Started => handleBuildModel st
  | Received data => onmessage data st
  | Failed message => onerror message st
  | Closed => onClose st
  end.

(** The state after a run of events. *)
Definition run (events : list BuildEvent) (st : BuildState) : BuildState :=
  fold_left (fun st event => handle event st) events st.

(** The steps that are in progress. *)
Definition in_progress (steps : list ProgressStep) : list ProgressStep :=
  filter (fun step => match status step with
                      | inProgress => true
                      | _ => false
                      end) steps.

(** The state after a run of messages. *)
Definition after (msgs : list WorkerMessage) (st : BuildState) : BuildState :=
  fold_left (fun st data => onmessage data st) msgs st.

(** ** Objects rebuilt by spreading *)

Section Spread.
Variable V : Type.

(** [{ ...prev, [k]: v }]: the copy holds the properties of [prev] in the
    order of their enumeration. *)
Definition spread_set (prev : record V) (k : jsstring) (v : V) : record V :=
  set (entries prev) k v.

(** [delete o[k]] *)
Definition delete (o : record V) (k : jsstring) : record V :=
  filter (fun kv => negb (str_eqb (fst kv) k)) o.

(** [const o = { ...prev }; delete o[k]; return o] *)
Definition spread_delete (prev : record V) (k : jsstring) : record V :=
  delete (entries prev) k.

End Spread.

(** ** The data of the wizard *)

(** Each handler is a function of the state of the render in which it
    runs. *)

Inductive Toast : Type := NoFilesAssigned | ProjectionRequired.

Section Page.

(** A GeoJSON value, and the test of the projection check module, which is
    not among the sources. *)
Variable G : Type.
Variable isLikelyLatLng : G -> bool.

(** An uploaded file with the two members that the handlers read; the
    [geoJSON] member is [None] when it is falsy. *)
Variable UploadedFile : Type.
Variable id : UploadedFile -> jsstring.
Variable geoJSON : UploadedFile -> option G.

Variable Projection : Type.

(** The placeholder file that [handleFileUnassignment] builds from the
    element type and the assigned data when it finds no original file; it
    reads the clock, and reading the features of the data may throw
    ([None]). *)
Variable placeholder : jsstring -> G -> option UploadedFile.

Record PageState := {
  currentStep : jsstring;
  uploadedFiles : list UploadedFile;
  assignedGisData : record (option G);
  assignedFileInfo : record UploadedFile;
  attributeMapping : record (record (option jsstring));
  selectedProjection : option Projection;
  originalProjection : option Projection
}.

(** The state of the first render, with the step of the URL. *)
Definition initial (stepFromUrl : option jsstring) : PageState :=
  {| currentStep := getInitialStep stepFromUrl;
     uploadedFiles := [];
     assignedGisData := [];
     assignedFileInfo := [];
     attributeMapping := [];
     selectedProjection := None;
     originalProjection := None |}.

(** [updateStepInUrl], as far as the state goes. *)
Definition updateStepInUrl (step : jsstring) (st : PageState) : PageState :=
  {| currentStep := step;
     uploadedFiles := uploadedFiles st;
     assignedGisData := assignedGisData st;
     assignedFileInfo := assignedFileInfo st;
     attributeMapping := attributeMapping st;
     selectedProjection := selectedProjection st;
     originalProjection := originalProjection st |}.

(** The listener of browser navigation. *)
Definition handlePopState (stepFromUrl : option jsstring) (st : PageState)
  : PageState :=
  updateStepInUrl (getInitialStep stepFromUrl) st.

Definition allGeoJSON (st : PageState) : list (option G) :=
  List.map snd (entries (assignedGisData st))
  ++ List.map geoJSON (uploadedFiles st).

Definition checkDataNeedsReprojection (st : PageState) : bool :=
  existsb (fun geoJSON => match geoJSON with
                          | Some g => negb (isLikelyLatLng g)
                          | None => false
                          end) (allGeoJSON st).

Definition isDataLatLng (st : PageState) : bool :=
  forallb (fun geoJSON => match geoJSON with
                          | Some g => isLikelyLatLng g
                          | None => false
                          end) (allGeoJSON st).

Definition handleFilesUploaded (files : list UploadedFile) (st : PageState)
  : PageState :=
  {| currentStep := currentStep st;
     uploadedFiles := files;
     assignedGisData := assignedGisData st;
     assignedFileInfo := assignedFileInfo st;
     attributeMapping := attributeMapping st;
     selectedProjection := selectedProjection st;
     originalProjection := originalProjection st |}.

Definition handleProjectionSelect (projection : option Projection)
    (st : PageState) : PageState :=
  {| currentStep := currentStep st;
     uploadedFiles := uploadedFiles st;
     assignedGisData := assignedGisData st;
     assignedFileInfo := assignedFileInfo st;
     attributeMapping := attributeMapping st;
     selectedProjection := projection;
     originalProjection :=
       match projection, originalProjection st with
       | Some p, None => Some p
       | _, original => original
       end |}.

(** The reduction over the attributes of an element. *)
Definition initialMapping (element : EpanetElementDefinition)
  : record (option jsstring) :=
  fold_left (fun acc attr => set acc attr None)
    (requiredAttributes element ++ optionalAttributes element) [].

(** [handleFileAssignment], without its toast. *)
Definition handleFileAssignment (file : UploadedFile) (elementType : jsstring)
    (st : PageState) : PageState :=
  {| currentStep := currentStep st;
     uploadedFiles :=
       filter (fun f => negb (str_eqb (id f) (id file))) (uploadedFiles st);
     assignedGisData :=
       spread_set (assignedGisData st) elementType (geoJSON file);
     assignedFileInfo := spread_set (assignedFileInfo st) elementType file;
     attributeMapping :=
       match find (fun e => str_eqb (key e) elementType) EPANET_ELEMENTS with
       | Some element =>
           spread_set (attributeMapping st) elementType
             (initialMapping element)
       | None => attributeMapping st
       end;
     selectedProjection := selectedProjection st;
     originalProjection := originalProjection st |}.

(** The state after an unassignment that returns [file] to the list. *)
Definition unassigned (elementType : jsstring) (file : UploadedFile)
    (st : PageState) : PageState :=
  {| currentStep := currentStep st;
     uploadedFiles := uploadedFiles st ++ [file];
     assignedGisData := spread_delete (assignedGisData st) elementType;
     assignedFileInfo := spread_delete (assignedFileInfo st) elementType;
     attributeMapping := spread_delete (attributeMapping st) elementType;
     selectedProjection := selectedProjection st;
     originalProjection := originalProjection st |}.

(** [handleFileUnassignment], without its toast; [None] when building the
    placeholder throws. *)
Definition handleFileUnassignment (elementType : jsstring) (st : PageState)
  : option PageState :=
  match get (assignedGisData st) elementType with
  | Some (Some assignedFile) =>
      match get (assignedFileInfo st) elementType with
      | Some originalFile => Some (unassigned elementType originalFile st)
      | None =>
          match placeholder elementType assignedFile with
          | Some newFile => Some (unassigned elementType newFile st)
          | None => None
          end
      end
  | _ => Some st
  end.

(** [prev[elementType]], spread: nothing for [undefined]. *)
Definition mapping_of (prev : record (record (option jsstring)))
    (elementType : jsstring) : record (option jsstring) :=
  match get prev elementType with
  | Some m => m
  | None => []
  end.

Definition handleAttributeMappingChange (elementType attribute : jsstring)
    (propertyName : option jsstring) (st : PageState) : PageState :=
  {| currentStep := currentStep st;
     uploadedFiles := uploadedFiles st;
     assignedGisData := assignedGisData st;
     assignedFileInfo := assignedFileInfo st;
     attributeMapping :=
       spread_set (attributeMapping st) elementType
         (spread_set (mapping_of (attributeMapping st) elementType)
            attribute propertyName);
     selectedProjection := selectedProjection st;
     originalProjection := originalProjection st |}.

(** [handleNextStep], with the toast it shows. *)
Definition handleNextStep (st : PageState) : PageState * option Toast :=
  if str_eqb (currentStep st) (lit "modelSettings") then
    (updateStepInUrl (lit "dataAssignment") st, None)
  else if str_eqb (currentStep st) (lit "dataAssignment") then
    if negb (0 <? length (keys (assignedGisData st)))%nat then
      (st, Some NoFilesAssigned)
    else if checkDataNeedsReprojection st && negb (isDataLatLng st)
            && match selectedProjection st with
               | Some _ => false
               | None => true
               end
    then (st, Some ProjectionRequired)
    else (updateStepInUrl (lit "attributeMapping") st, None)
  else (st, None).

Definition handlePreviousStep (st : PageState) : PageState :=
  if str_eqb (currentStep st) (lit "attributeMapping") then
    updateStepInUrl (lit "dataAssignment") st
  else if str_eqb (currentStep st) (lit "dataAssignment") then
    updateStepInUrl (lit "modelSettings") st
  else st.

(** ** Specification-level notions *)

(** The states that the handlers produce from the first render. *)
Inductive reachable : PageState -> Prop :=
| reach_initial stepFromUrl : reachable (initial stepFromUrl)
| reach_pop stepFromUrl st :
    reachable st -> reachable (handlePopState stepFromUrl st)
| reach_uploaded files st :
    reachable st -> reachable (handleFilesUploaded files st)
| reach_projection projection st :
    reachable st -> reachable (handleProjectionSelect projection st)
| reach_assigned file elementType st :
    reachable st -> reachable (handleFileAssignment file elementType st)
| reach_unassigned elementType st st' :
    reachable st -> handleFileUnassignment elementType st = Some st' ->
    reachable st'
| reach_mapping elementType attribute propertyName st :
    reachable st ->
    reachable
      (handleAttributeMappingChange elementType attribute propertyName st)
| reach_next st : reachable st -> reachable (fst (handleNextStep st))
| reach_previous st : reachable st -> reachable (handlePreviousStep st).

(** The property name mapped to an attribute of an element type:
    [None] when the type or the attribute has no entry, [Some None] for
    [null]. *)
Definition mapped (st : PageState) (elementType attribute : jsstring)
  : option (option jsstring) :=
  match get (attributeMapping st) elementType with
  | Some m => get m attribute
  | None => None
  end.

(** The objects of the state hold no key twice. *)
Definition objects_well_formed (st : PageState) : Prop :=
  wf (assignedGisData st) /\ wf (assignedFileInfo st)
  /\ wf (attributeMapping st)
  /\ forall elementType m,
       get (attributeMapping st) elementType = Some m -> wf m.

(** Every element type with data has the file of that data on record. *)
Definition files_recorded (st : PageState) : Prop :=
  forall elementType,
    get (assignedGisData st) elementType
    = match get (assignedFileInfo st) elementType with
      | Some file => Some (geoJSON file)
      | None => None
      end.

(** A run of selections in the projection box. *)
Definition select_all (projections : list (option Projection))
    (st : PageState) : PageState :=
  fold_left (fun st projection => handleProjectionSelect projection st)
    projections st.

(** The first projection of a run of selections that is not [null]. *)
Fixpoint first_selected (projections : list (option Projection))
  : option Projection :=
  match projections with
  | [] => None
  | Some p :: _ => Some p
  | None :: rest => first_selected rest
  end.

End Page.

(** ** Samples *)

(** Files are a name with a flag that says whether the data looks like
    longitude and latitude. *)
Definition sample_file : Type := (jsstring * bool)%type.

Definition sample_id (f : sample_file) : jsstring := fst f.

Definition sample_geoJSON (f : sample_file) : option bool := Some (snd f).

Definition sample_isLikelyLatLng (g : bool) : bool := g.

Definition sample_placeholder (elementType : jsstring) (g : bool)
  : option sample_file := None.

Definition sample_state : PageState bool sample_file unit :=
  initial bool sample_file unit (Some (lit "dataAssignment")).

(** A layer in a projected system, assigned to the pipes. *)
Definition sample_pipes : sample_file := (lit "pipes.geojson", false).

Definition sample_assigned : PageState bool sample_file unit :=
  handleFileAssignment sample_id sample_geoJSON sample_pipes (lit "pipes")
    sample_state.

End ModelBuilderPage.

(* ================================================================== *)
(** * Properties *)
(* ================================================================== *)

(** A literal list of keys has no duplicates. *)
Ltac distinct_keys :=
  simpl; repeat (constructor; [simpl; intuition discriminate|]); constructor.

(** A literal precision lies within 0..100. *)
Ltac literal_in_range := unfold InpSpec.in_range; simpl; lia.

Module JsStringFacts.

Lemma str_eqb_eq (a b : jsstring) : str_eqb a b = true <-> a = b.
Proof.
  revert b; induction a as [|x a IH]; intros [|y b]; simpl;
    try (split; (discriminate || reflexivity)).
  unfold char_eqb. rewrite andb_true_iff, N.eqb_eq, IH.
  split; [intros [-> ->]; reflexivity | intros H; injection H; auto].
Qed.

Lemma str_eqb_refl (a : jsstring) : str_eqb a a = true.
Proof. apply str_eqb_eq; reflexivity. Qed.

Lemma str_eqb_neq (a b : jsstring) : str_eqb a b = false <-> a <> b.
Proof.
  rewrite <- str_eqb_eq. destruct (str_eqb a b); split; congruence.
Qed.

Lemma str_eqb_sym (a b : jsstring) : str_eqb a b = str_eqb b a.
Proof.
  destruct (str_eqb a b) eqn:E.
  - apply str_eqb_eq in E; subst; symmetry; apply str_eqb_refl.
  - symmetry; apply str_eqb_neq; apply str_eqb_neq in E; congruence.
Qed.

Lemma str_eq_dec (a b : jsstring) : {a = b} + {a <> b}.
Proof. apply (list_eq_dec N.eq_dec). Qed.

(** ** trim *)

Lemma trimStart_head (c : char) (s : jsstring) :
  is_ws c = false -> trimStart (c :: s) = c :: s.
Proof. intros H; simpl; rewrite H; reflexivity. Qed.

Lemma trimEnd_last (s : jsstring) (c : char) :
  is_ws c = false -> trimEnd (s ++ [c]) = s ++ [c].
Proof.
  intros H; unfold trimEnd. rewrite rev_app_distr; simpl.
  rewrite H; simpl. rewrite rev_involutive; reflexivity.
Qed.

Lemma trim_plain (s : jsstring) (c d : char) (mid : jsstring) :
  s = c :: mid ++ [d] -> is_ws c = false -> is_ws d = false -> trim s = s.
Proof.
  intros -> Hc Hd; unfold trim. rewrite trimStart_head by assumption.
  change (c :: mid ++ [d]) with ((c :: mid) ++ [d]).
  apply trimEnd_last; assumption.
Qed.

(** ** split on one character *)

Lemma split_nonempty (sep : char) (s : jsstring) : split sep s <> [].
Proof.
  induction s as [|c s IH]; simpl; [discriminate|].
  destruct (char_eqb c sep); [discriminate|].
  destruct (split sep s); [congruence | discriminate].
Qed.

Lemma split_app (sep : char) (x y : jsstring) :
  split sep (x ++ sep :: y) = split sep x ++ split sep y.
Proof.
  induction x as [|c x IH]; simpl.
  - unfold char_eqb; rewrite N.eqb_refl; reflexivity.
  - destruct (char_eqb c sep); [rewrite IH; reflexivity|].
    rewrite IH. pose proof (split_nonempty sep x) as Hne.
    destruct (split sep x); [congruence | reflexivity].
Qed.

Lemma split_plain (sep : char) (s : jsstring) :
  ~ In sep s -> split sep s = [s].
Proof.
  induction s as [|c s IH]; simpl; intros H; [reflexivity|].
  destruct (char_eqb c sep) eqn:E.
  - apply N.eqb_eq in E; subst; tauto.
  - rewrite IH by tauto; reflexivity.
Qed.

Lemma split_fields_plain (sep : char) (s : jsstring) :
  Forall (fun f => ~ In sep f) (split sep s).
Proof.
  induction s as [|c s IH]; simpl; [repeat constructor; auto|].
  destruct (char_eqb c sep) eqn:E; [constructor; auto|].
  pose proof (split_nonempty sep s) as Hne.
  destruct (split sep s) as [|f fs]; [congruence|].
  inversion IH; subst. constructor; [|assumption].
  simpl; intros [->|Hin]; [|tauto].
  unfold char_eqb in E; rewrite N.eqb_refl in E; discriminate.
Qed.

Lemma split_join (sep : char) (xs : list jsstring) :
  xs <> [] ->
  split sep (join [sep] xs) = concat (List.map (split sep) xs).
Proof.
  induction xs as [|x xs IH]; [congruence|]; intros _.
  destruct xs as [|y ys].
  - simpl; rewrite app_nil_r; reflexivity.
  - change (join [sep] (x :: y :: ys)) with (x ++ sep :: join [sep] (y :: ys)).
    rewrite split_app, IH by discriminate. reflexivity.
Qed.

Lemma join_split (sep : char) (s : jsstring) :
  join [sep] (split sep s) = s.
Proof.
  induction s as [|c s IH]; [reflexivity|]. simpl split.
  pose proof (split_nonempty sep s) as Hne.
  destruct (char_eqb c sep) eqn:E.
  - apply N.eqb_eq in E; subst c.
    destruct (split sep s) as [|f fs]; [congruence|].
    change (join [sep] ([] :: f :: fs)) with (sep :: join [sep] (f :: fs)).
    rewrite IH; reflexivity.
  - destruct (split sep s) as [|f [|g fs]]; [congruence | |].
    + simpl in *. rewrite IH; reflexivity.
    + change (join [sep] ((c :: f) :: g :: fs))
        with (c :: join [sep] (f :: g :: fs)).
      rewrite IH; reflexivity.
Qed.

Lemma join_app (sep : jsstring) (xs ys : list jsstring) :
  xs <> [] -> ys <> [] ->
  join sep (xs ++ ys) = join sep xs ++ sep ++ join sep ys.
Proof.
  induction xs as [|x xs IH]; [congruence|]; intros _ Hys.
  destruct xs as [|x' xs].
  - destruct ys; [congruence | reflexivity].
  - change (join sep ((x :: x' :: xs) ++ ys))
      with (x ++ sep ++ join sep ((x' :: xs) ++ ys)).
    rewrite IH by (assumption || discriminate).
    change (join sep (x :: x' :: xs)) with (x ++ sep ++ join sep (x' :: xs)).
    rewrite <- !app_assoc; reflexivity.
Qed.

(** ** split on whitespace *)

Lemma split_ws_from_plain (b : bool) (s : jsstring) :
  no_ws s -> s <> [] -> split_ws_from b s = [s].
Proof.
  intros H; revert b; induction H as [|c s Hc Hs IH]; intros b Hne;
    [congruence|].
  simpl; rewrite Hc. destruct s as [|d s]; [reflexivity|].
  rewrite IH by discriminate; reflexivity.
Qed.

Lemma split_ws_from_field (s rest : jsstring) (w : char) :
  no_ws s -> is_ws w = true ->
  split_ws_from false (s ++ w :: rest) = s :: split_ws_from true rest.
Proof.
  intros H Hw; induction H as [|c s Hc Hs IH]; simpl.
  - rewrite Hw; reflexivity.
  - rewrite Hc, IH; reflexivity.
Qed.

Lemma split_ws_from_flag (c : char) (s : jsstring) :
  is_ws c = false ->
  split_ws_from true (c :: s) = split_ws_from false (c :: s).
Proof. intros H; simpl; rewrite H; reflexivity. Qed.

Lemma split_ws_three (a b c : jsstring) :
  no_ws a -> no_ws b -> no_ws c -> b <> [] -> c <> [] ->
  split_ws (a ++ lit " " ++ b ++ lit " " ++ c) = [a; b; c].
Proof.
  intros Ha Hb Hc Hbn Hcn. unfold split_ws; simpl app.
  rewrite split_ws_from_field by (assumption || reflexivity).
  destruct b as [|b0 b]; [congruence|].
  inversion Hb; subst.
  rewrite <- app_comm_cons, split_ws_from_flag by assumption.
  rewrite app_comm_cons, split_ws_from_field by (assumption || reflexivity).
  destruct c as [|c0 c]; [congruence|].
  inversion Hc; subst.
  rewrite split_ws_from_flag by assumption.
  rewrite split_ws_from_plain by (assumption || discriminate).
  reflexivity.
Qed.

End JsStringFacts.

Module JsNumberFacts.

Import JsStringFacts.

Local Open Scope Z_scope.

(** ** Decimal digits *)

Lemma is_digit_range (c : char) :
  is_digit c = true <-> (48 <= c <= 57)%N.
Proof.
  unfold is_digit; rewrite andb_true_iff, !N.leb_le; tauto.
Qed.

Lemma digit_not_ws (c : char) : is_digit c = true -> is_ws c = false.
Proof.
  intros H; apply is_digit_range in H. unfold is_ws.
  repeat match goal with
         | |- context [(?a <=? ?b)%N] =>
             destruct (N.leb_spec a b); try lia
         | |- context [(?a =? ?b)%N] =>
             destruct (N.eqb_spec a b); try lia
         end; reflexivity.
Qed.

Lemma digit_char_is_digit (d : Z) :
  0 <= d <= 9 -> is_digit (digit_char d) = true.
Proof.
  intros H; apply is_digit_range; unfold digit_char; lia.
Qed.

Lemma digit_val_char (d : Z) : 0 <= d <= 9 -> digit_val (digit_char d) = d.
Proof. intros H; unfold digit_val, digit_char; lia. Qed.

Lemma mod10_range (n : Z) : 0 <= n mod 10 <= 9.
Proof. pose proof (Z.mod_pos_bound n 10); lia. Qed.

Lemma digits_fuel_all (fuel : nat) (n : Z) (acc : jsstring) :
  Forall (fun c => is_digit c = true) acc ->
  Forall (fun c => is_digit c = true) (digits_fuel fuel n acc).
Proof.
  revert n acc; induction fuel as [|fuel IH]; intros n acc H; simpl; auto.
  assert (Forall (fun c => is_digit c = true) (digit_char (n mod 10) :: acc))
    by (constructor; [apply digit_char_is_digit, mod10_range | assumption]).
  destruct (n / 10 =? 0); auto.
Qed.

Lemma digits_all (n : Z) : Forall (fun c => is_digit c = true) (digits n).
Proof. apply digits_fuel_all; constructor. Qed.

Lemma digits_fuel_nonempty (fuel : nat) (n : Z) (acc : jsstring) :
  acc <> [] -> digits_fuel fuel n acc <> [].
Proof.
  revert n acc; induction fuel as [|fuel IH]; intros n acc H; simpl; auto.
  destruct (n / 10 =? 0); [discriminate | apply IH; discriminate].
Qed.

Lemma digits_nonempty (n : Z) : digits n <> [].
Proof.
  unfold digits; simpl. destruct (n / 10 =? 0); [discriminate|].
  apply digits_fuel_nonempty; discriminate.
Qed.

Lemma Z_of_digits_fuel (fuel : nat) (n : Z) (acc : jsstring) :
  0 <= n < 10 ^ Z.of_nat fuel ->
  fold_left (fun a c => a * 10 + digit_val c) (digits_fuel fuel n acc) 0
  = fold_left (fun a c => a * 10 + digit_val c) acc n.
Proof.
  revert n acc; induction fuel as [|fuel IH]; intros n acc H.
  - simpl in *. replace n with 0 by lia. reflexivity.
  - simpl digits_fuel.
    pose proof (Z.div_mod n 10 ltac:(lia)) as Hdm.
    pose proof (mod10_range n) as Hm.
    destruct (Z.eqb_spec (n / 10) 0) as [E|E].
    + simpl. rewrite digit_val_char by assumption. f_equal; lia.
    + rewrite IH.
      * simpl. rewrite digit_val_char by assumption. f_equal; lia.
      * rewrite Nat2Z.inj_succ, Z.pow_succ_r in H by lia.
        split; [apply Z.div_pos; lia|].
        apply Z.div_lt_upper_bound; lia.
Qed.

Lemma fuel_enough (n : Z) :
  0 <= n -> n < 10 ^ Z.of_nat (S (Z.to_nat (Z.log2 n))).
Proof.
  intros H. rewrite Nat2Z.inj_succ, Z2Nat.id by apply Z.log2_nonneg.
  destruct (Z.eq_dec n 0) as [->|Hn].
  - simpl; lia.
  - pose proof (Z.log2_spec n ltac:(lia)) as [_ Hlt].
    eapply Z.lt_le_trans; [exact Hlt|].
    apply Z.pow_le_mono_l. pose proof (Z.log2_nonneg n). lia.
Qed.

Lemma Z_of_digits_digits (n : Z) : 0 <= n -> Z_of_digits (digits n) = n.
Proof.
  intros H; unfold Z_of_digits, digits.
  rewrite Z_of_digits_fuel; [reflexivity|].
  split; [assumption | apply fuel_enough; assumption].
Qed.

Lemma Z_of_digits_zeros (k : nat) (s : jsstring) :
  Z_of_digits (zeros k ++ s) = Z_of_digits s.
Proof.
  unfold Z_of_digits, zeros. rewrite fold_left_app. f_equal.
  induction k as [|k IH]; simpl; auto.
Qed.

(** ** Reading a run of digits *)

Lemma span_digits_run (ds rest : jsstring) :
  Forall (fun c => is_digit c = true) ds -> stops rest ->
  span_digits (ds ++ rest) = (ds, rest).
Proof.
  intros H Hr; induction H as [|c ds Hc Hds IH]; simpl.
  - destruct rest as [|c rest]; [reflexivity|].
    simpl in Hr |- *; rewrite Hr; reflexivity.
  - rewrite Hc, IH; reflexivity.
Qed.

(** ** Shape and value of the positional text *)

Lemma scaled_round_nonneg (a s : Z) : 0 <= a -> 0 <= scaled_round a s.
Proof.
  intros H; unfold scaled_round. destruct (Z.leb_spec 0 s).
  - apply Z.mul_nonneg_nonneg; [assumption | apply Z.pow_nonneg; lia].
  - assert (0 < 10 ^ (- s)) by (apply Z.pow_pos_nonneg; lia).
    apply Z.div_pos; lia.
Qed.

(** Half-way cases go up: the result is within half a unit of the last
    place. *)
Lemma scaled_round_exact (a s : Z) :
  0 <= s -> scaled_round a s = a * 10 ^ s.
Proof.
  intros H; unfold scaled_round.
  destruct (Z.leb_spec 0 s); [reflexivity | lia].
Qed.

Lemma scaled_round_near (a s : Z) :
  s < 0 ->
  let k := 10 ^ (- s) in
  2 * scaled_round a s * k - k <= 2 * a < 2 * scaled_round a s * k + k.
Proof.
  intros H k; unfold scaled_round.
  destruct (Z.leb_spec 0 s); [lia|]. fold k.
  assert (0 < k) by (apply Z.pow_pos_nonneg; lia).
  pose proof (Z.div_mod (2 * a + k) (2 * k) ltac:(lia)) as Hdm.
  pose proof (Z.mod_pos_bound (2 * a + k) (2 * k) ltac:(lia)) as Hm.
  nia.
Qed.

Lemma zeros_all (k : nat) : Forall (fun c => is_digit c = true) (zeros k).
Proof.
  unfold zeros; induction k; simpl; constructor; auto.
Qed.

(** The text of [fixed_digits]: an integer part, and [f] fraction digits
    after a point when [f] is not zero. *)
Lemma fixed_digits_shape (n : Z) (f : nat) :
  0 <= n ->
  exists a b,
    fixed_digits n f
    = a ++ (if Nat.eqb f 0 then [] else lit "." ++ b)
    /\ Forall (fun c => is_digit c = true) a
    /\ Forall (fun c => is_digit c = true) b
    /\ a <> [] /\ length b = f /\ Z_of_digits (a ++ b) = n.
Proof.
  intros Hn. unfold fixed_digits. destruct f as [|f].
  - exists (digits n), []. rewrite !app_nil_r. simpl.
    repeat split; auto using digits_all, digits_nonempty, Z_of_digits_digits.
  - set (m := if (length (digits n) <=? S f)%nat
              then zeros (S f + 1 - length (digits n)) ++ digits n
              else digits n).
    assert (Hall : Forall (fun c => is_digit c = true) m).
    { unfold m; destruct (_ <=? _)%nat; [apply Forall_app; split|];
        auto using zeros_all, digits_all. }
    assert (Hlen : (S f < length m)%nat).
    { unfold m; destruct (Nat.leb_spec (length (digits n)) (S f)).
      - rewrite length_app; unfold zeros; rewrite repeat_length; lia.
      - assumption. }
    assert (Hval : Z_of_digits m = n).
    { unfold m; destruct (_ <=? _)%nat;
        [rewrite Z_of_digits_zeros|]; apply Z_of_digits_digits; assumption. }
    exists (firstn (length m - S f) m), (skipn (length m - S f) m).
    pose proof (firstn_skipn (length m - S f) m) as Hsplit.
    rewrite <- Hsplit in Hall; apply Forall_app in Hall as [Ha Hb].
    simpl Nat.eqb; cbv iota.
    repeat split; auto.
    + intros E. apply (f_equal (@length _)) in E.
      rewrite length_firstn in E; simpl in E; lia.
    + rewrite length_skipn; lia.
    + rewrite Hsplit; assumption.
Qed.

(** ** Reading a positional text back *)

Lemma digit_head_facts (c : char) :
  is_digit c = true ->
  is_ws c = false /\ (c =? 45)%N = false /\ (c =? 43)%N = false
  /\ (c =? 73)%N = false.
Proof.
  intros H; split; [apply digit_not_ws; assumption|].
  apply is_digit_range in H.
  repeat split; apply N.eqb_neq; lia.
Qed.

Lemma parseFloat_decimal (neg : bool) (a b : jsstring) :
  Forall (fun c => is_digit c = true) a ->
  Forall (fun c => is_digit c = true) b ->
  a <> [] ->
  parseFloat (sign_text neg
              ++ a ++ (if Nat.eqb (length b) 0 then [] else lit "." ++ b))
  = Fin (if neg then - Z_of_digits (a ++ b) else Z_of_digits (a ++ b))
        (- Z.of_nat (length b)).
Proof.
  intros Ha Hb Hne. destruct a as [|a0 a]; [congruence|].
  inversion Ha as [|? ? Ha0 Ha']; subst.
  destruct (digit_head_facts _ Ha0) as (Hws & Hm & Hp & HI).
  unfold parseFloat.
  assert (Hsign :
    take_sign (trimStart (sign_text neg
       ++ (a0 :: a) ++ (if Nat.eqb (length b) 0 then [] else lit "." ++ b)))
    = (neg, (a0 :: a)
            ++ (if Nat.eqb (length b) 0 then [] else lit "." ++ b))).
  { destruct neg; simpl; [reflexivity|]. rewrite Hws; simpl.
    rewrite Hm, Hp; reflexivity. }
  rewrite Hsign.
  assert (Hinf : startsWith ((a0 :: a)
            ++ (if Nat.eqb (length b) 0 then [] else lit "." ++ b))
            (lit "Infinity") = false).
  { simpl. unfold char_eqb. rewrite HI; reflexivity. }
  rewrite Hinf.
  rewrite span_digits_run;
    [| assumption | destruct (Nat.eqb (length b) 0); simpl; auto].
  destruct b as [|b0 b].
  - simpl. rewrite app_nil_r. reflexivity.
  - simpl Nat.eqb; cbv iota. simpl app at 1. cbv beta iota.
    change ((46 =? 46)%N) with true; cbv iota.
    rewrite <- (app_nil_r (b0 :: b)) at 1.
    rewrite span_digits_run by (simpl; auto).
    simpl. f_equal.
Qed.

Lemma reparse_moderate (m e f : Z) :
  moderate (Fin m e) = true -> 0 <= f ->
  reparse f (Fin m e)
  = Fin (if m <? 0 then - scaled_round (Z.abs m) (e + f)
         else scaled_round (Z.abs m) (e + f)) (- f).
Proof.
  intros Hmod Hf. unfold reparse, toFixed_text, toFixed_finite.
  simpl in Hmod. apply negb_true_iff in Hmod. rewrite Hmod.
  destruct (fixed_digits_shape (Z.to_nat f)
              (scaled_round_nonneg (e + f) (Z.abs_nonneg m)))
    as (a & b & Htext & Ha & Hb & Hne & Hlen & Hval).
  rewrite Htext, <- Hlen.
  rewrite (parseFloat_decimal (m <? 0) Ha Hb Hne), Hval, Hlen.
  f_equal. lia.
Qed.

Lemma fixed_format_moderate (m e f : Z) :
  moderate (Fin m e) = true -> 0 <= f ->
  fixed_format (Z.to_nat f) (toFixed_text (Fin m e) f) = true.
Proof.
  intros Hmod Hf. unfold toFixed_text, toFixed_finite.
  simpl in Hmod. apply negb_true_iff in Hmod. rewrite Hmod.
  destruct (fixed_digits_shape (Z.to_nat f)
              (scaled_round_nonneg (e + f) (Z.abs_nonneg m)))
    as (a & b & Htext & Ha & Hb & Hne & Hlen & Hval).
  rewrite Htext. destruct a as [|a0 a]; [congruence|].
  inversion Ha as [|? ? Ha0 Ha']; subst.
  destruct (digit_head_facts _ Ha0) as (_ & Hm & _).
  unfold fixed_format.
  assert (Hstrip :
    strip_minus (sign_text (m <? 0)
          ++ (a0 :: a)
          ++ (if Nat.eqb (Z.to_nat f) 0 then [] else lit "." ++ b))
    = (a0 :: a) ++ (if Nat.eqb (Z.to_nat f) 0 then [] else lit "." ++ b)).
  { destruct (m <? 0); simpl; [reflexivity | rewrite Hm; reflexivity]. }
  rewrite Hstrip.
  rewrite span_digits_run;
    [| assumption | destruct (Nat.eqb (Z.to_nat f) 0); simpl; auto].
  simpl length. simpl negb.
  destruct (Z.to_nat f) as [|k] eqn:Ek.
  - reflexivity.
  - simpl. rewrite Hlen, Nat.eqb_refl, andb_true_r.
    apply forallb_forall. apply Forall_forall. assumption.
Qed.

(** ** Every text is a single whitespace-free, non-empty token *)

Lemma no_ws_digits (s : jsstring) :
  Forall (fun c => is_digit c = true) s -> no_ws s.
Proof.
  intros H; eapply Forall_impl; [|exact H]. apply digit_not_ws.
Qed.

Lemma Forall_dropWhile (P : char -> Prop) (f : char -> bool) (s : jsstring) :
  Forall P s -> Forall P (dropWhile f s).
Proof.
  induction 1 as [|c s Hc Hs IH]; simpl; [constructor|].
  destruct (f c); [assumption | constructor; assumption].
Qed.

Lemma toString_large_token (a e : Z) :
  toString_large a e <> [] /\ no_ws (toString_large a e).
Proof.
  unfold toString_large.
  assert (H : no_ws (rev (dropWhile (N.eqb 48) (rev (digits a))))).
  { apply Forall_rev, Forall_dropWhile, Forall_rev, no_ws_digits, digits_all. }
  destruct (rev (dropWhile (N.eqb 48) (rev (digits a)))) as [|d rest].
  - split; [discriminate | repeat constructor].
  - split; [discriminate|]. inversion H; subst.
    constructor; [assumption|].
    apply Forall_app; split.
    + destruct rest; [constructor|].
      apply Forall_app; split; [repeat constructor | assumption].
    + apply Forall_app; split; [repeat constructor|].
      apply no_ws_digits, digits_all.
Qed.

Lemma toFixed_text_token (x : number) (f : Z) :
  toFixed_text x f <> [] /\ no_ws (toFixed_text x f).
Proof.
  destruct x as [|neg|m e]; simpl.
  - split; [discriminate | repeat constructor].
  - destruct neg; split; try discriminate; repeat constructor.
  - unfold toFixed_finite.
    assert (Hbody :
      forall body, body <> [] /\ no_ws body ->
      sign_text (m <? 0) ++ body <> []
      /\ no_ws (sign_text (m <? 0) ++ body)).
    { intros body [Hne Hb]; split.
      - destruct (m <? 0); [discriminate | assumption].
      - apply Forall_app; split; [|assumption].
        destruct (m <? 0); repeat constructor. }
    apply Hbody. destruct (ge_1e21 (Z.abs m) e).
    + apply toString_large_token.
    + destruct (fixed_digits_shape (Z.to_nat f)
                  (scaled_round_nonneg (e + f) (Z.abs_nonneg m)))
        as (a & b & Htext & Ha & Hb & Hne & _).
      rewrite Htext; split.
      * destruct a; [congruence | discriminate].
      * apply Forall_app; split; [apply no_ws_digits; assumption|].
        destruct (Nat.eqb (Z.to_nat f) 0); [constructor|].
        apply Forall_app; split;
          [repeat constructor | apply no_ws_digits; assumption].
Qed.

Lemma toFixed_in_range (x : number) (f : Z) :
  0 <= f <= 100 -> toFixed x f = Some (toFixed_text x f).
Proof.
  intros H; unfold toFixed.
  destruct (Z.ltb_spec f 0), (Z.ltb_spec 100 f); simpl; (reflexivity || lia).
Qed.

Lemma toFixed_out_of_range (x : number) (f : Z) :
  ~ 0 <= f <= 100 -> toFixed x f = None.
Proof.
  intros H; unfold toFixed.
  destruct (Z.ltb_spec f 0), (Z.ltb_spec 100 f); simpl; (reflexivity || lia).
Qed.

End JsNumberFacts.

Module JsRecordFacts.

Import JsStringFacts JsRecord.

Section Facts.
Variable V : Type.
Implicit Types (o : record V) (k : jsstring) (v : V).

Lemma get_set o k v k' :
  get (set o k v) k' = if str_eqb k k' then Some v else get o k'.
Proof.
  induction o as [|[k0 v0] o IH]; simpl.
  - reflexivity.
  - destruct (str_eqb k0 k) eqn:E; simpl.
    + apply str_eqb_eq in E; subst k0.
      destruct (str_eqb k k'); reflexivity.
    + rewrite IH. destruct (str_eqb k0 k') eqn:E'; [|reflexivity].
      apply str_eqb_eq in E'; subst k0. rewrite str_eqb_sym, E; reflexivity.
Qed.

Lemma get_none o k : get o k = None <-> ~ In k (List.map fst o).
Proof.
  induction o as [|[k0 v0] o IH]; simpl; [tauto|].
  destruct (str_eqb k0 k) eqn:E.
  - apply str_eqb_eq in E; split; [discriminate | tauto].
  - apply str_eqb_neq in E; rewrite IH; tauto.
Qed.

Lemma set_fresh o k v : get o k = None -> set o k v = o ++ [(k, v)].
Proof.
  induction o as [|[k0 v0] o IH]; simpl; [reflexivity|].
  destruct (str_eqb k0 k); [discriminate|].
  intros H; rewrite IH by assumption; reflexivity.
Qed.

Lemma set_last o k v v' : get o k = None ->
  set (o ++ [(k, v)]) k v' = o ++ [(k, v')].
Proof.
  induction o as [|[k0 v0] o IH]; simpl.
  - rewrite str_eqb_refl; reflexivity.
  - destruct (str_eqb k0 k); [discriminate|].
    intros H; rewrite IH by assumption; reflexivity.
Qed.

Lemma get_last o k v : get o k = None -> get (o ++ [(k, v)]) k = Some v.
Proof.
  induction o as [|[k0 v0] o IH]; simpl.
  - rewrite str_eqb_refl; reflexivity.
  - destruct (str_eqb k0 k); [discriminate | assumption].
Qed.

Lemma get_In o k v : wf o -> (get o k = Some v <-> In (k, v) o).
Proof.
  unfold wf; induction o as [|[k0 v0] o IH]; simpl; intros Hwf.
  - split; [discriminate | tauto].
  - inversion Hwf as [|? ? Hnotin Hwf']; subst.
    destruct (str_eqb k0 k) eqn:E.
    + apply str_eqb_eq in E; subst k0. split.
      * intros H; injection H as ->; auto.
      * intros [H|H]; [injection H as ->; reflexivity|].
        exfalso; apply Hnotin. apply (in_map fst) in H; exact H.
    + apply str_eqb_neq in E. rewrite IH by assumption.
      split; [auto | intros [H|H]; [congruence | assumption]].
Qed.

Lemma get_perm o o' k :
  wf o -> Permutation o o' -> get o k = get o' k.
Proof.
  intros Hwf Hp.
  assert (Hwf' : wf o').
  { unfold wf in *. eapply Permutation_NoDup; [|exact Hwf].
    apply Permutation_map; assumption. }
  destruct (get o k) as [v|] eqn:E.
  - apply get_In in E; [|assumption]. symmetry; apply get_In; [assumption|].
    eapply Permutation_in; eassumption.
  - destruct (get o' k) as [v|] eqn:E'; [|reflexivity].
    apply get_In in E'; [|assumption].
    apply Permutation_sym in Hp.
    apply (Permutation_in _ Hp), get_In in E'; [congruence | assumption].
Qed.

Lemma get_map (W : Type) (f : V -> W) o k :
  get (List.map (fun kv => (fst kv, f (snd kv))) o) k
  = option_map f (get o k).
Proof.
  induction o as [|[k0 v0] o IH]; simpl; [reflexivity|].
  destruct (str_eqb k0 k); [reflexivity | assumption].
Qed.

(** ** Object.entries *)

Lemma insert_by_index_perm (i : Z) (kv : jsstring * V) l :
  Permutation (insert_by_index i kv l) ((i, kv) :: l).
Proof.
  induction l as [|[j kv'] l IH]; simpl; [reflexivity|].
  destruct (i <? j)%Z; [reflexivity|].
  rewrite IH. apply perm_swap.
Qed.

Lemma sort_indexed_perm o :
  Permutation (List.map snd (sort_indexed o)) (filter (@is_index V) o).
Proof.
  induction o as [|kv o IH]; simpl; [reflexivity|].
  unfold is_index at 1. destruct (array_index (fst kv)) as [i|].
  - rewrite insert_by_index_perm. simpl. apply perm_skip; exact IH.
  - exact IH.
Qed.

Lemma filter_partition_perm (A : Type) (f : A -> bool) (l : list A) :
  Permutation (filter f l ++ filter (fun x => negb (f x)) l) l.
Proof.
  induction l as [|x l IH]; simpl; [reflexivity|].
  destruct (f x); simpl.
  - apply perm_skip; exact IH.
  - rewrite <- Permutation_middle. apply perm_skip; exact IH.
Qed.

Lemma entries_perm o : Permutation (entries o) o.
Proof.
  unfold entries. rewrite sort_indexed_perm. apply filter_partition_perm.
Qed.

Lemma wf_entries o : wf o -> wf (entries o).
Proof.
  unfold wf; intros H. eapply Permutation_NoDup; [|exact H].
  apply Permutation_map, Permutation_sym, entries_perm.
Qed.

Lemma get_entries o k : wf o -> get (entries o) k = get o k.
Proof.
  intros H. apply get_perm; [apply wf_entries; assumption|].
  apply entries_perm.
Qed.

Lemma entries_nil : entries (@nil (jsstring * V)) = [].
Proof. reflexivity. Qed.

Lemma entries_length o : length (entries o) = length o.
Proof. apply Permutation_length, entries_perm. Qed.

Lemma keys_length o : length (keys o) = length o.
Proof. unfold keys; rewrite length_map; apply entries_length. Qed.

Lemma in_keys o k : In k (keys o) <-> In k (List.map fst o).
Proof.
  unfold keys; split; apply Permutation_in, Permutation_map;
    [|apply Permutation_sym]; apply entries_perm.
Qed.

End Facts.

End JsRecordFacts.

Module NetworkUtilsFacts.

Import JsStringFacts JsNumberFacts JsRecordFacts JsRecord NetworkUtils InpSpec.

(** ** The loop that drops the old geometry *)

Lemma update_loop (lines : list jsstring) (st : update_state) :
  updatedLines (fold_left update_step lines st)
  = updatedLines st ++ kept (skipping st) lines.
Proof.
  revert st; induction lines as [|l lines IH]; intros st.
  - unfold kept; simpl. destruct (skipping st); rewrite app_nil_r; reflexivity.
  - simpl fold_left. rewrite IH. unfold kept, update_step; simpl.
    unfold is_section_header, is_end_marker.
    destruct (split_sections lines) as [b ss].
    destruct (str_eqb (trim l) END) eqn:Eend.
    + rewrite andb_false_r. simpl. unfold is_end_marker; rewrite Eend.
      reflexivity.
    + destruct (startsWith (trim l) (lit "[")) eqn:Ehdr; simpl.
      * unfold skipping at 1; simpl. rewrite <- app_assoc.
        unfold is_geometry_header. destruct (skipping st); reflexivity.
      * unfold skipping.
        destruct (insideCoordinates st || insideVertices st) eqn:Esk;
          simpl; rewrite Esk; [reflexivity|].
        unfold is_end_marker; rewrite Eend; simpl.
        rewrite <- app_assoc; reflexivity.
Qed.

Lemma kept_cons (skip : bool) (l : jsstring) (lines : list jsstring) :
  kept skip (l :: lines)
  = if is_end_marker l then kept skip lines
    else if startsWith (trim l) (lit "[")
         then l :: kept (is_geometry_header l) lines
         else if skip then kept skip lines else l :: kept skip lines.
Proof.
  unfold kept; simpl. unfold is_section_header.
  destruct (split_sections lines) as [b ss].
  destruct (is_end_marker l) eqn:Eend.
  - rewrite andb_false_r. simpl. rewrite Eend. reflexivity.
  - rewrite andb_true_r.
    destruct (startsWith (trim l) (lit "[")); simpl.
    + destruct skip; reflexivity.
    + destruct skip; simpl; [reflexivity|]. rewrite Eend; reflexivity.
Qed.

Lemma kept_nil (skip : bool) : kept skip [] = [].
Proof. destruct skip; reflexivity. Qed.

Lemma kept_Forall (P : jsstring -> Prop) (lines : list jsstring) :
  Forall P lines -> forall skip, Forall P (kept skip lines).
Proof.
  induction 1 as [|l lines Hl Hlines IH]; intros skip.
  - rewrite kept_nil; constructor.
  - rewrite kept_cons.
    destruct (is_end_marker l); [apply IH|].
    destruct (startsWith (trim l) (lit "[")); [constructor; auto|].
    destruct skip; [apply IH | constructor; auto].
Qed.

Lemma update_loop_init (lines : list jsstring) :
  updatedLines (fold_left update_step lines update_init) = preserved lines.
Proof. rewrite update_loop; reflexivity. Qed.

(** ** The regenerated sections *)

Lemma format_line_in_range (id : jsstring) (pt : point) (p : Z) :
  in_range p -> format_line id pt p = Some (data_line p id pt).
Proof.
  intros H; unfold format_line.
  rewrite !toFixed_in_range by assumption. reflexivity.
Qed.

Lemma format_line_out_of_range (id : jsstring) (pt : point) (p : Z) :
  ~ in_range p -> format_line id pt p = None.
Proof.
  intros H; unfold format_line.
  rewrite toFixed_out_of_range by assumption. reflexivity.
Qed.

Section Pushing.
Variables (A : Type) (g : A -> option jsstring).

Lemma foldM_push_shift (xs : list A) (l0 l1 : list jsstring) :
  Throw.foldM (push_one g) xs (l0 ++ l1)
  = option_map (app l0) (Throw.foldM (push_one g) xs l1).
Proof.
  revert l1; induction xs as [|x xs IH]; intros l1; simpl; [reflexivity|].
  unfold push_one at 1 3. destruct (g x) as [l|]; simpl; [|reflexivity].
  rewrite <- app_assoc. apply IH.
Qed.

Lemma foldM_push_total (g' : A -> jsstring) (xs : list A)
    (l0 : list jsstring) :
  (forall x, In x xs -> g x = Some (g' x)) ->
  Throw.foldM (push_one g) xs l0 = Some (l0 ++ List.map g' xs).
Proof.
  revert l0; induction xs as [|x xs IH]; intros l0 H; simpl.
  - rewrite app_nil_r; reflexivity.
  - unfold push_one at 1. rewrite (H x) by (left; reflexivity). simpl.
    rewrite IH by (intros; apply H; right; assumption).
    rewrite <- app_assoc; reflexivity.
Qed.

End Pushing.

Lemma foldM_link_shift (p : Z) (es : list (jsstring * list point))
    (l0 l1 : list jsstring) :
  Throw.foldM (push_link p) es (l0 ++ l1)
  = option_map (app l0) (Throw.foldM (push_link p) es l1).
Proof.
  revert l1; induction es as [|kv es IH]; intros l1; simpl; [reflexivity|].
  unfold push_link at 1 3. rewrite foldM_push_shift.
  destruct (Throw.foldM _ (snd kv) l1) as [l|]; simpl; [apply IH | reflexivity].
Qed.

Lemma foldM_link_total (p : Z) (es : list (jsstring * list point))
    (l0 : list jsstring) :
  in_range p ->
  Throw.foldM (push_link p) es l0
  = Some (l0 ++ flat_map (fun kv => List.map (data_line p (fst kv)) (snd kv))
                  es).
Proof.
  intros Hp; revert l0; induction es as [|kv es IH]; intros l0; simpl.
  - rewrite app_nil_r; reflexivity.
  - unfold push_link at 1.
    rewrite (foldM_push_total _ (data_line p (fst kv)))
      by (intros; apply format_line_in_range; assumption).
    simpl. rewrite IH, <- app_assoc; reflexivity.
Qed.

Lemma nonempty_keys (V : Type) (o : record V) :
  (0 <? length (keys o))%nat = match o with [] => false | _ => true end.
Proof. rewrite keys_length. destruct o; reflexivity. Qed.

Lemma push_coordinates_shift (p : Z) (coords : record point)
    (lines : list jsstring) :
  push_coordinates p coords lines
  = option_map (app lines) (push_coordinates p coords []).
Proof.
  unfold push_coordinates. rewrite nonempty_keys.
  destruct coords as [|kv coords]; simpl; [rewrite app_nil_r; reflexivity|].
  apply (foldM_push_shift (fun kv => format_line (fst kv) (snd kv) p)).
Qed.

Lemma push_vertices_shift (p : Z) (verts : record (list point))
    (lines : list jsstring) :
  push_vertices p verts lines
  = option_map (app lines) (push_vertices p verts []).
Proof.
  unfold push_vertices. rewrite nonempty_keys.
  destruct verts as [|kv verts]; simpl; [rewrite app_nil_r; reflexivity|].
  apply (foldM_link_shift p).
Qed.

Lemma push_coordinates_in_range (p : Z) (coords : record point)
    (lines : list jsstring) :
  in_range p ->
  push_coordinates p coords lines = Some (lines ++ coordinate_section p coords).
Proof.
  intros Hp; unfold push_coordinates, coordinate_section.
  rewrite nonempty_keys.
  destruct coords as [|kv coords]; [rewrite app_nil_r; reflexivity|].
  rewrite (foldM_push_total (fun kv => format_line (fst kv) (snd kv) p)
             (fun kv => data_line p (fst kv) (snd kv)))
    by (intros; apply format_line_in_range; assumption).
  rewrite <- app_assoc; reflexivity.
Qed.

Lemma push_vertices_in_range (p : Z) (verts : record (list point))
    (lines : list jsstring) :
  in_range p ->
  push_vertices p verts lines = Some (lines ++ vertex_section p verts).
Proof.
  intros Hp; unfold push_vertices, vertex_section.
  rewrite nonempty_keys.
  destruct verts as [|kv verts]; [rewrite app_nil_r; reflexivity|].
  change (Throw.foldM (push_link p) (entries (kv :: verts))
            (lines ++ [LF :: VERTICES]) = Some (lines ++ (LF :: VERTICES)
              :: flat_map (fun kv0 => List.map (data_line p (fst kv0)) (snd kv0))
                   (entries (kv :: verts)))).
  rewrite foldM_link_total by assumption.
  rewrite <- app_assoc; reflexivity.
Qed.

Lemma regenerated_in_range (p : Z) (nd : NetworkData) :
  in_range p ->
  regenerated p nd
  = Some (coordinate_section p (coordinates nd)
          ++ vertex_section p (vertices nd) ++ [LF :: END]).
Proof.
  intros Hp; unfold regenerated.
  rewrite push_coordinates_in_range by assumption; simpl.
  rewrite push_vertices_in_range by assumption; simpl.
  rewrite <- app_assoc; reflexivity.
Qed.

Lemma update_by_parts (base : jsstring) (nd : NetworkData)
    (dp : option Z) :
  updateINPWithReprojectedData base nd dp
  = (tail <- regenerated (precision dp) nd ;;
     Some (join [LF] (preserved (split LF base) ++ tail))).
Proof.
  unfold updateINPWithReprojectedData, regenerated.
  fold (precision dp). rewrite update_loop_init.
  rewrite push_coordinates_shift.
  destruct (push_coordinates (precision dp) (coordinates nd) []) as [l1|];
    simpl; [|reflexivity].
  rewrite push_vertices_shift.
  rewrite (push_vertices_shift _ _ l1).
  destruct (push_vertices (precision dp) (vertices nd) []) as [l2|];
    simpl; [|reflexivity].
  rewrite <- !app_assoc; reflexivity.
Qed.

Lemma update_in_range (base : jsstring) (nd : NetworkData) (dp : option Z) :
  in_range (precision dp) ->
  updateINPWithReprojectedData base nd dp
  = Some (join [LF]
            (preserved (split LF base)
             ++ coordinate_section (precision dp) (coordinates nd)
             ++ vertex_section (precision dp) (vertices nd)
             ++ [LF :: END])).
Proof.
  intros Hp. rewrite update_by_parts, regenerated_in_range by assumption.
  reflexivity.
Qed.

(** ** One step of the extractor *)

Lemma extract_step_ignorable (st : extract_state) (l : jsstring) :
  ignorable l = true -> extract_step st l = st.
Proof.
  unfold ignorable, extract_step; intros H; rewrite H; reflexivity.
Qed.

Lemma extract_step_header (st : extract_state) (l : jsstring) :
  is_header l = true ->
  extract_step st l
  = {| ex_section := Some (trim l);
       ex_coordinates := ex_coordinates st;
       ex_vertices := ex_vertices st |}.
Proof.
  unfold is_header, ignorable, extract_step; intros H.
  apply andb_true_iff in H as [Hi Hh]. apply negb_true_iff in Hi.
  rewrite Hi, Hh; reflexivity.
Qed.

Lemma extract_step_data (st : extract_state) (l : jsstring) :
  ignorable l = false -> is_header l = false ->
  ex_section (extract_step st l) = ex_section st
  /\ geometry_of (extract_step st l)
     = apply_record (geometry_of st) (ex_section st, fields l).
Proof.
  unfold is_header, ignorable, extract_step, apply_record, qualifies, fields,
    geometry_of, record_id, record_point.
  intros Hi Hh; rewrite Hi in *; simpl negb in Hh; simpl andb in Hh.
  cbv beta iota zeta. rewrite Hh. cbn [fst snd].
  destruct (section_is (ex_section st) COORDINATES
            && (3 <=? length (split_ws (trim l)))%nat); [split; reflexivity|].
  destruct (section_is (ex_section st) VERTICES
            && (3 <=? length (split_ws (trim l)))%nat); split; reflexivity.
Qed.

Lemma header_not_ignorable (t : jsstring) :
  startsWith t (lit "[") = true ->
  startsWith t (lit ";") || str_eqb t [] = false.
Proof.
  destruct t as [|c t]; simpl; [discriminate|].
  unfold char_eqb. destruct (N.eqb_spec c 91); [subst; reflexivity|].
  discriminate.
Qed.

(** The extractor is a fold of [apply_record] over the data records. *)
Lemma extract_fold (lines : list jsstring) (st : extract_state) :
  geometry_of (fold_left extract_step lines st)
  = fold_left apply_record (data_records (ex_section st) lines)
      (geometry_of st).
Proof.
  revert st; induction lines as [|l lines IH]; intros st; [reflexivity|].
  simpl. rewrite IH.
  destruct (ignorable l) eqn:Hi.
  - rewrite extract_step_ignorable by assumption; reflexivity.
  - destruct (is_header l) eqn:Hh.
    + rewrite extract_step_header by assumption; reflexivity.
    + destruct (extract_step_data st l Hi Hh) as [Hs Hg].
      rewrite Hs, Hg; reflexivity.
Qed.

(** ** What a fold of data records leaves in the two mappings *)

Lemma get_push_vertex (vs : record (list point)) (k k' : jsstring)
    (pt : point) :
  get (push_vertex vs k pt) k'
  = if str_eqb k k'
    then Some (match get vs k with Some pts => pts | None => [] end ++ [pt])
    else get vs k'.
Proof.
  unfold push_vertex. destruct (get vs k) as [pts|] eqn:E.
  - rewrite E, get_set; reflexivity.
  - rewrite get_set, str_eqb_refl, !get_set.
    destruct (str_eqb k k'); reflexivity.
Qed.

Lemma qualifies_exclusive (r : option jsstring * list jsstring) :
  qualifies COORDINATES r = true -> qualifies VERTICES r = false.
Proof.
  unfold qualifies, section_is. destruct (fst r) as [s|]; [|discriminate].
  intros H; apply andb_true_iff in H as [H _]. apply str_eqb_eq in H; subst.
  reflexivity.
Qed.

Lemma fold_records_coordinates (recs : list (option jsstring * list jsstring))
    (cv : record point * record (list point)) (id : jsstring) :
  get (fst (fold_left apply_record recs cv)) id
  = match rev (matching COORDINATES id recs) with
    | r :: _ => Some (record_point r)
    | [] => get (fst cv) id
    end.
Proof.
  revert cv; induction recs as [|r recs IH]; intros cv; [reflexivity|].
  simpl fold_left. rewrite IH. unfold apply_record, matching.
  simpl filter. fold (matching COORDINATES id recs).
  destruct (qualifies COORDINATES r) eqn:Eq; simpl.
  - rewrite get_set. destruct (str_eqb (record_id r) id); simpl.
    + destruct (rev (matching COORDINATES id recs)); reflexivity.
    + reflexivity.
  - destruct (qualifies VERTICES r); reflexivity.
Qed.

Lemma fold_records_vertices (recs : list (option jsstring * list jsstring))
    (cv : record point * record (list point)) (link : jsstring) :
  get (snd (fold_left apply_record recs cv)) link
  = match List.map record_point (matching VERTICES link recs) with
    | [] => get (snd cv) link
    | pts => Some (match get (snd cv) link with
                   | Some old => old
                   | None => []
                   end ++ pts)
    end.
Proof.
  revert cv; induction recs as [|r recs IH]; intros cv; [reflexivity|].
  simpl fold_left. rewrite IH. unfold apply_record, matching.
  simpl filter. fold (matching VERTICES link recs).
  destruct (qualifies COORDINATES r) eqn:Ec; simpl.
  - rewrite (qualifies_exclusive _ Ec); reflexivity.
  - destruct (qualifies VERTICES r) eqn:Ev; simpl; [|reflexivity].
    rewrite get_push_vertex.
    destruct (str_eqb (record_id r) link) eqn:Eid; simpl; [|reflexivity].
    apply str_eqb_eq in Eid; subst link.
    destruct (List.map record_point (matching VERTICES (record_id r) recs));
      [reflexivity|].
    rewrite <- app_assoc; reflexivity.
Qed.

(** ** Lines the extractor passes over *)

Lemma extract_step_short (st : extract_state) (l : jsstring) :
  is_header l = false -> (length (fields l) < 3)%nat ->
  extract_step st l = st.
Proof.
  intros Hh Hlen. destruct (ignorable l) eqn:Hi;
    [apply extract_step_ignorable; assumption|].
  unfold is_header in Hh; rewrite Hi in Hh; simpl in Hh.
  unfold ignorable in Hi. unfold extract_step, fields in *.
  rewrite Hi, Hh. cbv beta iota zeta.
  destruct (Nat.leb_spec 3 (length (split_ws (trim l)))); [lia|].
  rewrite !andb_false_r. reflexivity.
Qed.

Lemma extract_step_outside (st : extract_state) (l : jsstring) :
  is_header l = false -> in_geometry (ex_section st) = false ->
  extract_step st l = st.
Proof.
  intros Hh Hg. destruct (ignorable l) eqn:Hi;
    [apply extract_step_ignorable; assumption|].
  unfold is_header in Hh; rewrite Hi in Hh; simpl in Hh.
  unfold ignorable in Hi. unfold extract_step.
  rewrite Hi, Hh. cbv beta iota zeta.
  apply orb_false_iff in Hg as [Hc Hv]. rewrite Hc, Hv. reflexivity.
Qed.

Lemma extract_before_headers (pre : list jsstring) (st : extract_state) :
  (forall l, In l pre -> is_header l = false) ->
  in_geometry (ex_section st) = false ->
  fold_left extract_step pre st = st.
Proof.
  induction pre as [|l pre IH]; intros Hpre Hg; [reflexivity|].
  simpl. rewrite extract_step_outside by (auto using in_eq).
  apply IH; [intros; apply Hpre; right|]; assumption.
Qed.



(** ** Reading a regenerated data line *)

Lemma no_ws_no_LF (s : jsstring) : no_ws s -> ~ In LF s.
Proof.
  intros H Hin. unfold no_ws in H; rewrite Forall_forall in H.
  apply H in Hin. discriminate.
Qed.

Lemma startsWith_nil (s : jsstring) : startsWith s [] = true.
Proof. destruct s; reflexivity. Qed.

Lemma startsWith_one_app (s rest pre : jsstring) :
  s <> [] -> length pre = 1%nat ->
  startsWith (s ++ rest) pre = startsWith s pre.
Proof.
  destruct s; [congruence|]. destruct pre as [|x [|y pre]]; try discriminate.
  intros _ _. simpl. rewrite !startsWith_nil. reflexivity.
Qed.

Section DataLine.
Variables (p : Z) (id : jsstring) (pt : point).
Hypothesis Hid : plain_id id.

Lemma data_line_no_ws_parts :
  no_ws id /\ no_ws (toFixed_text (fst pt) p)
  /\ no_ws (toFixed_text (snd pt) p).
Proof.
  destruct Hid as (_ & Hws & _).
  repeat split; [assumption | apply toFixed_text_token ..].
Qed.

Lemma data_line_no_LF : ~ In LF (data_line p id pt).
Proof.
  destruct data_line_no_ws_parts as (Hi & Hx & Hy).
  unfold data_line. rewrite !in_app_iff.
  intros [H|[H|[H|[H|H]]]].
  - exact (no_ws_no_LF Hi H).
  - simpl in H; destruct H as [H|[]]; discriminate.
  - exact (no_ws_no_LF Hx H).
  - simpl in H; destruct H as [H|[]]; discriminate.
  - exact (no_ws_no_LF Hy H).
Qed.

Lemma data_line_trim : trim (data_line p id pt) = data_line p id pt.
Proof.
  destruct Hid as (Hne & Hws & _).
  destruct (toFixed_text_token (snd pt) p) as [Hyne Hy].
  set (tx := toFixed_text (fst pt) p).
  set (ty := toFixed_text (snd pt) p) in *.
  destruct id as [|c id']; [congruence|].
  destruct (exists_last Hyne) as (ty' & d & Ety).
  inversion Hws; subst.
  assert (Hd : is_ws d = false).
  { unfold no_ws in Hy; rewrite Forall_forall in Hy. apply Hy.
    rewrite Ety, in_app_iff; right; left; reflexivity. }
  apply (@trim_plain _ c d (id' ++ lit " " ++ tx ++ lit " " ++ ty'));
    [|assumption|assumption].
  unfold data_line; fold tx ty. rewrite Ety.
  simpl. repeat (rewrite <- app_assoc; simpl). reflexivity.
Qed.

Lemma data_line_not_ignorable : ignorable (data_line p id pt) = false.
Proof.
  unfold ignorable. rewrite data_line_trim.
  destruct Hid as (Hne & _ & Hsemi & _).
  unfold data_line.
  rewrite startsWith_one_app by (assumption || reflexivity). rewrite Hsemi.
  destruct id; [congruence | reflexivity].
Qed.

Lemma data_line_not_header : is_header (data_line p id pt) = false.
Proof.
  unfold is_header. rewrite data_line_not_ignorable, data_line_trim.
  destruct Hid as (Hne & _ & _ & Hbr).
  unfold data_line.
  rewrite startsWith_one_app by (assumption || reflexivity). rewrite Hbr.
  reflexivity.
Qed.

Lemma data_line_fields :
  fields (data_line p id pt)
  = [id; toFixed_text (fst pt) p; toFixed_text (snd pt) p].
Proof.
  unfold fields. rewrite data_line_trim.
  destruct data_line_no_ws_parts as (Hi & Hx & Hy).
  apply split_ws_three; try assumption; apply toFixed_text_token.
Qed.

Lemma extract_step_data_line (st : extract_state) :
  ex_section (extract_step st (data_line p id pt)) = ex_section st
  /\ geometry_of (extract_step st (data_line p id pt))
     = if section_is (ex_section st) COORDINATES
       then (set (ex_coordinates st) id (reparse_point p pt), ex_vertices st)
       else if section_is (ex_section st) VERTICES
       then (ex_coordinates st,
             push_vertex (ex_vertices st) id (reparse_point p pt))
       else geometry_of st.
Proof.
  destruct (extract_step_data st _ data_line_not_ignorable
              data_line_not_header) as [Hs Hg].
  split; [assumption|]. rewrite Hg, data_line_fields.
  unfold apply_record, qualifies. cbn [fst snd length Nat.leb].
  rewrite !andb_true_r. reflexivity.
Qed.

End DataLine.

(** ** Reading the written text back *)

Lemma extract_kept (lines : list jsstring) (st : extract_state) :
  geometry_of (fold_left extract_step
                 (kept (in_geometry (ex_section st)) lines) st)
  = geometry_of st.
Proof.
  revert st; induction lines as [|l lines IH]; intros st.
  - rewrite kept_nil; reflexivity.
  - rewrite kept_cons. destruct (is_end_marker l) eqn:Eend; [apply IH|].
    destruct (startsWith (trim l) (lit "[")) eqn:Ehdr.
    + simpl fold_left. rewrite extract_step_header.
      * apply (IH {| ex_section := Some (trim l);
                     ex_coordinates := ex_coordinates st;
                     ex_vertices := ex_vertices st |}).
      * unfold is_header, ignorable.
        rewrite header_not_ignorable, Ehdr by assumption. reflexivity.
    + destruct (in_geometry (ex_section st)) eqn:Eg.
      * rewrite <- Eg. apply IH.
      * simpl fold_left. rewrite extract_step_outside.
        -- rewrite <- Eg. apply IH.
        -- unfold is_header. rewrite Ehdr, andb_false_r. reflexivity.
        -- assumption.
Qed.

Lemma extract_coordinate_data (p : Z) (es : list (jsstring * point))
    (st : extract_state) :
  (forall kv, In kv es -> plain_id (fst kv)) ->
  section_is (ex_section st) COORDINATES = true ->
  geometry_of (fold_left extract_step
                 (List.map (fun kv => data_line p (fst kv) (snd kv)) es) st)
  = (fold_left (set_point p) es (ex_coordinates st), ex_vertices st).
Proof.
  revert st; induction es as [|kv es IH]; intros st Hes Hsec; [reflexivity|].
  simpl. destruct (extract_step_data_line p (snd kv) (Hes kv (in_eq _ _)) st)
    as [Hs Hg].
  rewrite Hsec in Hg. unfold geometry_of in Hg. injection Hg as Hc Hv.
  rewrite IH; [|intros; apply Hes; right; assumption|rewrite Hs; assumption].
  rewrite Hc, Hv. reflexivity.
Qed.

Lemma extract_link_data (p : Z) (k : jsstring) (pts : list point)
    (st : extract_state) :
  plain_id k ->
  section_is (ex_section st) VERTICES = true ->
  let st' := fold_left extract_step (List.map (data_line p k) pts) st in
  ex_section st' = ex_section st
  /\ geometry_of st'
     = (ex_coordinates st, push_points p (ex_vertices st) (k, pts)).
Proof.
  intros Hk. revert st; induction pts as [|pt pts IH]; intros st Hsec;
    [split; reflexivity|].
  simpl. destruct (extract_step_data_line p pt Hk st) as [Hs Hg].
  assert (Hc : section_is (ex_section st) COORDINATES = false).
  { unfold section_is in *. destruct (ex_section st) as [h|]; [|discriminate].
    apply str_eqb_eq in Hsec; subst h. reflexivity. }
  rewrite Hc, Hsec in Hg. unfold geometry_of in Hg. injection Hg as Hc' Hv'.
  destruct (IH (extract_step st (data_line p k pt))) as [Hs2 Hg2];
    [rewrite Hs; assumption|].
  split; [rewrite Hs2; assumption|].
  rewrite Hg2, Hc'. unfold push_points; simpl. rewrite Hv'. reflexivity.
Qed.

Lemma extract_vertex_data (p : Z) (es : list (jsstring * list point))
    (st : extract_state) :
  (forall kv, In kv es -> plain_id (fst kv)) ->
  section_is (ex_section st) VERTICES = true ->
  geometry_of (fold_left extract_step
                 (flat_map (fun kv => List.map (data_line p (fst kv)) (snd kv))
                    es) st)
  = (ex_coordinates st, fold_left (push_points p) es (ex_vertices st)).
Proof.
  revert st; induction es as [|[k pts] es IH]; intros st Hes Hsec;
    [reflexivity|].
  simpl flat_map. rewrite fold_left_app.
  destruct (@extract_link_data p k pts st (Hes _ (in_eq _ _)) Hsec)
    as [Hs Hg].
  unfold geometry_of in Hg. injection Hg as Hc Hv.
  rewrite IH; [|intros; apply Hes; right; assumption|rewrite Hs; assumption].
  simpl in *. rewrite Hc, Hv. reflexivity.
Qed.

Lemma extract_coordinate_lines (p : Z) (coords : record point)
    (st : extract_state) :
  (forall kv, In kv coords -> plain_id (fst kv)) ->
  geometry_of (fold_left extract_step (coordinate_lines p coords) st)
  = (fold_left (set_point p) (entries coords) (ex_coordinates st),
     ex_vertices st).
Proof.
  intros Hids. unfold coordinate_lines.
  destruct coords as [|kv coords]; [reflexivity|].
  set (es := entries (kv :: coords)).
  simpl fold_left.
  rewrite (@extract_step_ignorable st []) by reflexivity.
  rewrite extract_step_header by reflexivity.
  rewrite extract_coordinate_data; [reflexivity | | reflexivity].
  intros kv' Hin. apply Hids.
  eapply Permutation_in; [apply entries_perm | exact Hin].
Qed.

Lemma extract_vertex_lines (p : Z) (verts : record (list point))
    (st : extract_state) :
  (forall kv, In kv verts -> plain_id (fst kv)) ->
  geometry_of (fold_left extract_step (vertex_lines p verts) st)
  = (ex_coordinates st,
     fold_left (push_points p) (entries verts) (ex_vertices st)).
Proof.
  intros Hids. unfold vertex_lines.
  destruct verts as [|kv verts]; [reflexivity|].
  set (es := entries (kv :: verts)).
  simpl fold_left.
  rewrite (@extract_step_ignorable st []) by reflexivity.
  rewrite extract_step_header by reflexivity.
  rewrite extract_vertex_data; [reflexivity | | reflexivity].
  intros kv' Hin. apply Hids.
  eapply Permutation_in; [apply entries_perm | exact Hin].
Qed.

Lemma extract_end_lines (st : extract_state) :
  geometry_of (fold_left extract_step [[]; END] st) = geometry_of st.
Proof.
  simpl fold_left.
  rewrite (@extract_step_ignorable st []) by reflexivity.
  rewrite extract_step_header by reflexivity. reflexivity.
Qed.

Lemma fold_set_point (p : Z) (es : list (jsstring * point))
    (c0 : record point) :
  NoDup (List.map fst (c0 ++ es)) ->
  fold_left (set_point p) es c0
  = c0 ++ List.map (fun kv => (fst kv, reparse_point p (snd kv))) es.
Proof.
  revert c0; induction es as [|[k v] es IH]; intros c0 Hnd; simpl.
  - rewrite app_nil_r; reflexivity.
  - assert (Hfresh : get c0 k = None).
    { apply get_none. rewrite map_app in Hnd; simpl in Hnd.
      apply NoDup_remove_2 in Hnd. rewrite in_app_iff in Hnd. tauto. }
    unfold set_point at 2; simpl. rewrite set_fresh by assumption.
    rewrite IH.
    + rewrite <- app_assoc; reflexivity.
    + rewrite <- app_assoc. rewrite !map_app in *. exact Hnd.
Qed.

Lemma push_run (f : point -> point) (k : jsstring) (pts acc : list point)
    (v : record (list point)) :
  get v k = None ->
  fold_left (fun v pt => push_vertex v k (f pt)) pts (v ++ [(k, acc)])
  = v ++ [(k, acc ++ List.map f pts)].
Proof.
  intros Hfresh; revert acc; induction pts as [|pt pts IH]; intros acc; simpl.
  - rewrite app_nil_r; reflexivity.
  - unfold push_vertex at 2. rewrite get_last by assumption.
    rewrite get_last, set_last by assumption.
    rewrite IH, <- app_assoc. reflexivity.
Qed.

Lemma push_first (f : point -> point) (k : jsstring) (pt : point)
    (v : record (list point)) :
  get v k = None -> push_vertex v k (f pt) = v ++ [(k, [f pt])].
Proof.
  intros Hfresh. unfold push_vertex. rewrite Hfresh.
  rewrite set_fresh, get_last, set_last by assumption. reflexivity.
Qed.

Lemma fold_push_points (p : Z) (es : list (jsstring * list point))
    (v0 : record (list point)) :
  NoDup (List.map fst (v0 ++ es)) ->
  (forall kv, In kv es -> snd kv <> []) ->
  fold_left (push_points p) es v0
  = v0 ++ List.map (fun kv => (fst kv, List.map (reparse_point p) (snd kv))) es.
Proof.
  revert v0; induction es as [|[k pts] es IH]; intros v0 Hnd Hne; simpl.
  - rewrite app_nil_r; reflexivity.
  - assert (Hfresh : get v0 k = None).
    { apply get_none. rewrite map_app in Hnd; simpl in Hnd.
      apply NoDup_remove_2 in Hnd. rewrite in_app_iff in Hnd. tauto. }
    destruct pts as [|pt pts]; [exfalso; apply (Hne _ (in_eq _ _)); reflexivity|].
    unfold push_points at 2; simpl.
    rewrite (push_first (reparse_point p)) by assumption.
    rewrite (push_run (reparse_point p)) by assumption.
    rewrite IH.
    + rewrite <- app_assoc; reflexivity.
    + rewrite <- app_assoc. rewrite !map_app in *. exact Hnd.
    + intros; apply Hne; right; assumption.
Qed.

(** ** The lines of the written text *)

Lemma concat_split_plain (ls : list jsstring) :
  Forall (fun l => ~ In LF l) ls -> concat (List.map (split LF) ls) = ls.
Proof.
  induction 1 as [|l ls Hl Hls IH]; simpl; [reflexivity|].
  rewrite split_plain, IH by assumption. reflexivity.
Qed.

Lemma preserved_no_LF (base : jsstring) :
  Forall (fun l => ~ In LF l) (preserved (split LF base)).
Proof.
  change (preserved (split LF base)) with (kept false (split LF base)).
  apply kept_Forall, split_fields_plain.
Qed.

Lemma coordinate_section_lines (p : Z) (coords : record point) :
  (forall kv, In kv coords -> plain_id (fst kv)) ->
  concat (List.map (split LF) (coordinate_section p coords))
  = coordinate_lines p coords.
Proof.
  intros Hids. unfold coordinate_section, coordinate_lines.
  destruct coords as [|kv coords]; [reflexivity|].
  set (es := entries (kv :: coords)).
  assert (Hes : forall kv', In kv' es -> plain_id (fst kv')).
  { intros kv' Hin. apply Hids.
    eapply Permutation_in; [apply entries_perm | exact Hin]. }
  clearbody es. simpl. f_equal. f_equal.
  apply concat_split_plain, Forall_forall.
  intros l Hl. apply in_map_iff in Hl as (kv' & <- & Hin).
  apply data_line_no_LF, Hes, Hin.
Qed.

Lemma vertex_section_lines (p : Z) (verts : record (list point)) :
  (forall kv, In kv verts -> plain_id (fst kv)) ->
  concat (List.map (split LF) (vertex_section p verts))
  = vertex_lines p verts.
Proof.
  intros Hids. unfold vertex_section, vertex_lines.
  destruct verts as [|kv verts]; [reflexivity|].
  set (es := entries (kv :: verts)).
  assert (Hes : forall kv', In kv' es -> plain_id (fst kv')).
  { intros kv' Hin. apply Hids.
    eapply Permutation_in; [apply entries_perm | exact Hin]. }
  clearbody es. simpl. f_equal. f_equal.
  apply concat_split_plain, Forall_forall.
  intros l Hl. apply in_flat_map in Hl as (kv' & Hin & Hl).
  apply in_map_iff in Hl as (pt & <- & _).
  apply data_line_no_LF, Hes, Hin.
Qed.

Lemma written_lines (p : Z) (base : jsstring) (nd : NetworkData) :
  (forall kv, In kv (coordinates nd) -> plain_id (fst kv)) ->
  (forall kv, In kv (vertices nd) -> plain_id (fst kv)) ->
  split LF (join [LF]
              (preserved (split LF base)
               ++ coordinate_section p (coordinates nd)
               ++ vertex_section p (vertices nd) ++ [LF :: END]))
  = preserved (split LF base)
    ++ coordinate_lines p (coordinates nd)
    ++ vertex_lines p (vertices nd) ++ [[]; END].
Proof.
  intros Hc Hv. rewrite split_join.
  - rewrite !map_app, !concat_app.
    rewrite concat_split_plain by apply preserved_no_LF.
    rewrite coordinate_section_lines, vertex_section_lines by assumption.
    reflexivity.
  - intros E. apply (f_equal (@length _)) in E.
    rewrite !length_app in E. simpl in E. lia.
Qed.

Lemma extract_written (p : Z) (base : jsstring) (nd : NetworkData) :
  (forall kv, In kv (coordinates nd) -> plain_id (fst kv)) ->
  (forall kv, In kv (vertices nd) -> plain_id (fst kv)) ->
  geometry_of
    (extract_lines
       (preserved (split LF base)
        ++ coordinate_lines p (coordinates nd)
        ++ vertex_lines p (vertices nd) ++ [[]; END]))
  = (fold_left (set_point p) (entries (coordinates nd)) [],
     fold_left (push_points p) (entries (vertices nd)) []).
Proof.
  intros Hc Hv. unfold extract_lines. rewrite !fold_left_app.
  rewrite extract_end_lines.
  pose proof (extract_kept (split LF base) extract_init) as H0.
  change (kept (in_geometry (ex_section extract_init)) (split LF base))
    with (preserved (split LF base)) in H0.
  set (s0 := fold_left extract_step (preserved (split LF base)) extract_init)
    in *.
  pose proof (@extract_coordinate_lines p _ s0 Hc) as H1.
  set (s1 := fold_left extract_step (coordinate_lines p (coordinates nd)) s0)
    in *.
  rewrite (@extract_vertex_lines p _ s1 Hv).
  unfold geometry_of in H0, H1.
  injection H0 as Hc0 Hv0. injection H1 as Hc1 Hv1.
  rewrite Hc1, Hv1, Hc0, Hv0. reflexivity.
Qed.

(** ** Round trip *)

Lemma entries_keys_nodup (V : Type) (o : record V) :
  wf o -> NoDup (List.map fst ([] ++ entries o)).
Proof. intros H; apply wf_entries; assumption. Qed.




(** An identifier in brackets is read back as a section header. *)
Lemma roundtrip_loses_bracket_node :
  ids_without_whitespace bracket_node
  /\ ~ roundtrip_holds [] bracket_node None.
Proof.
  split.
  - split; simpl; [|tauto]. intros k [<-|[]]. repeat constructor.
  - intros (out & Hout & Hc & _).
    vm_compute in Hout. injection Hout as <-.
    specialize (Hc (lit "[J1]")). vm_compute in Hc. discriminate.
Qed.

(** With an empty identifier the written line has two fields only. *)
Lemma roundtrip_loses_unnamed_node :
  ids_without_whitespace unnamed_node
  /\ ~ roundtrip_holds [] unnamed_node None.
Proof.
  split.
  - split; simpl; [|tauto]. intros k [<-|[]]. constructor.
  - intros (out & Hout & Hc & _).
    vm_compute in Hout. injection Hout as <-.
    specialize (Hc []). vm_compute in Hc. discriminate.
Qed.

(** A precision above 100 makes [toFixed] throw. *)
Lemma roundtrip_throws_out_of_range :
  ids_without_whitespace small_network
  /\ ~ roundtrip_holds small_base small_network (Some 101%Z).
Proof.
  split.
  - split; simpl.
    + intros k [<-|[<-|[]]]; repeat constructor.
    + intros k [<-|[]]; repeat constructor.
  - intros (out & Hout & _). vm_compute in Hout. discriminate.
Qed.

(** A link without vertices leaves no line behind, so its key is gone. *)
Lemma roundtrip_loses_bare_link :
  ids_without_whitespace bare_link /\ ~ roundtrip_holds [] bare_link None.
Proof.
  split.
  - split; simpl; [tauto|]. intros k [<-|[]]. repeat constructor.
  - intros (out & Hout & _ & Hv).
    vm_compute in Hout. injection Hout as <-.
    specialize (Hv (lit "P1")). vm_compute in Hv. discriminate.
Qed.

(** ** The frame: sections other than the geometry *)

Lemma split_sections_partition (lines : list jsstring) :
  lines = fst (split_sections lines)
          ++ flat_map section_lines (snd (split_sections lines)).
Proof.
  induction lines as [|l lines IH]; [reflexivity|].
  simpl. destruct (split_sections lines) as [b ss]. simpl in IH.
  destruct (is_section_header l); simpl; rewrite IH at 1; reflexivity.
Qed.

Lemma split_sections_headers (lines : list jsstring) :
  Forall (fun l => is_section_header l = false) (fst (split_sections lines))
  /\ Forall (fun s => is_section_header (fst s) = true
                      /\ Forall (fun l => is_section_header l = false) (snd s))
       (snd (split_sections lines)).
Proof.
  induction lines as [|l lines IH]; [split; constructor|].
  simpl. destruct (split_sections lines) as [b ss]. simpl in IH.
  destruct IH as [Hb Hss].
  destruct (is_section_header l) eqn:E; simpl; split; auto.
Qed.

Lemma in_range_dec (p : Z) : {in_range p} + {~ in_range p}.
Proof.
  unfold in_range.
  destruct (Z_le_dec 0 p), (Z_le_dec p 100); (left; lia) || (right; lia).
Qed.



(** ** Fixed precision *)

Lemma foldM_push_none (A : Type) (g : A -> option jsstring) (xs : list A)
    (l0 : list jsstring) :
  (forall x, g x = None) -> xs <> [] ->
  Throw.foldM (push_one g) xs l0 = None.
Proof.
  intros Hg Hne. destruct xs as [|x xs]; [congruence|].
  simpl. unfold push_one at 1. rewrite Hg. reflexivity.
Qed.

Lemma foldM_link_none (p : Z) (es : list (jsstring * list point))
    (l0 l : list jsstring) :
  ~ in_range p ->
  Throw.foldM (push_link p) es l0 = Some l ->
  l = l0 ++ flat_map (fun kv => List.map (data_line p (fst kv)) (snd kv)) es.
Proof.
  intros Hp; revert l0; induction es as [|[k pts] es IH]; intros l0 H.
  - simpl in *. injection H as <-. rewrite app_nil_r; reflexivity.
  - simpl in H. unfold push_link at 1 in H. simpl in H.
    destruct pts as [|pt pts].
    + simpl in H. apply IH in H. exact H.
    + rewrite foldM_push_none in H; [discriminate | | discriminate].
      intros x. apply format_line_out_of_range; assumption.
Qed.

Lemma push_coordinates_some (p : Z) (coords : record point)
    (l0 l : list jsstring) :
  push_coordinates p coords l0 = Some l ->
  l = l0 ++ coordinate_section p coords.
Proof.
  destruct (in_range_dec p) as [Hp|Hp].
  - rewrite push_coordinates_in_range by assumption. intros H; injection H; auto.
  - unfold push_coordinates. rewrite nonempty_keys.
    destruct coords as [|kv coords].
    + intros H; injection H as <-. rewrite app_nil_r; reflexivity.
    + rewrite (foldM_push_none (fun kv0 => format_line (fst kv0) (snd kv0) p)).
      * discriminate.
      * intros x. apply format_line_out_of_range; assumption.
      * intros E. apply (f_equal (@length _)) in E.
        rewrite entries_length in E. discriminate.
Qed.

Lemma push_vertices_some (p : Z) (verts : record (list point))
    (l0 l : list jsstring) :
  push_vertices p verts l0 = Some l ->
  l = l0 ++ vertex_section p verts.
Proof.
  destruct (in_range_dec p) as [Hp|Hp].
  - rewrite push_vertices_in_range by assumption. intros H; injection H; auto.
  - unfold push_vertices, vertex_section. rewrite nonempty_keys.
    destruct verts as [|kv verts].
    + intros H; injection H as <-. rewrite app_nil_r; reflexivity.
    + intros H.
      apply (@foldM_link_none p (entries (kv :: verts))) in H; [|assumption].
      rewrite H, <- app_assoc. reflexivity.
Qed.

Lemma regenerated_some (p : Z) (nd : NetworkData) (tail : list jsstring) :
  regenerated p nd = Some tail ->
  tail = coordinate_section p (coordinates nd)
         ++ vertex_section p (vertices nd) ++ [LF :: END].
Proof.
  unfold regenerated.
  destruct (push_coordinates p (coordinates nd) []) as [l1|] eqn:E1;
    [|discriminate].
  apply push_coordinates_some in E1. simpl.
  destruct (push_vertices p (vertices nd) l1) as [l2|] eqn:E2;
    [|discriminate].
  apply push_vertices_some in E2. simpl.
  intros H; injection H as <-. subst. rewrite <- app_assoc. reflexivity.
Qed.

(** C8 (amended): the precision is 4 when none is given; whenever the call
    returns, every coordinate and vertex value is written as the text of
    [toFixed] at that precision, and this text has exactly that many digits
    after the decimal point when the value is finite and below [10^21] in
    magnitude; the call returns for every precision within 0..100. *)
Theorem values_written_with_fixed_precision (base : jsstring)
    (nd : NetworkData) (dp : option Z) :
  updateINPWithReprojectedData base nd None
  = updateINPWithReprojectedData base nd (Some 4%Z)
  /\ (forall out,
        updateINPWithReprojectedData base nd dp = Some out ->
        out = join [LF]
                (preserved (split LF base)
                 ++ coordinate_section (precision dp) (coordinates nd)
                 ++ vertex_section (precision dp) (vertices nd)
                 ++ [LF :: END]))
  /\ (forall id pt,
        data_line (precision dp) id pt
        = id ++ lit " " ++ toFixed_text (fst pt) (precision dp)
             ++ lit " " ++ toFixed_text (snd pt) (precision dp))
  /\ (forall x, moderate x = true -> in_range (precision dp) ->
        toFixed x (precision dp) = Some (toFixed_text x (precision dp))
        /\ fixed_format (Z.to_nat (precision dp))
             (toFixed_text x (precision dp)) = true)
  /\ (in_range (precision dp) ->
      exists out, updateINPWithReprojectedData base nd dp = Some out).
Proof.
  split; [reflexivity|].
  split.
  { intros out H. rewrite update_by_parts in H.
    destruct (regenerated (precision dp) nd) as [tail|] eqn:E; [|discriminate].
    apply regenerated_some in E. simpl in H. injection H as <-.
    rewrite E. reflexivity. }
  split; [reflexivity|].
  split.
  { intros x Hx Hp. split; [apply toFixed_in_range; assumption|].
    destruct x as [| |m e]; try discriminate.
    apply fixed_format_moderate; [assumption | apply Hp]. }
  intros Hp. eexists. apply update_in_range; assumption.
Qed.

(** C8, witness: the values of the small network at the default
    precision. *)
Lemma values_written_with_fixed_precision_witness :
  fixed_format 4 (toFixed_text (Fin (-123456) (-5)) 4) = true
  /\ exists out,
       updateINPWithReprojectedData small_base small_network None = Some out.
Proof.
  destruct (@values_written_with_fixed_precision small_base small_network None)
    as (_ & _ & _ & Hfix & Hret).
  split.
  - apply (Hfix (Fin (-123456) (-5))); [reflexivity|].
    literal_in_range.
  - apply Hret. literal_in_range.
Defined.

(** C8, counterexample: a coordinate of [10^21] is written in exponent
    notation, without a decimal point. *)
Lemma far_node_not_fixed :
  updateINPWithReprojectedData [] far_node None
  = Some ([LF; LF] ++ lit "[COORDINATES]" ++ [LF] ++ lit "J1 1e+21 0.0000"
          ++ [LF; LF] ++ lit "[END]")
  /\ ~ written_fixed far_node None.
Proof.
  split; [reflexivity|].
  intros H. specialize (H (lit "1e+21")).
  assert (Hin : In (lit "1e+21") (written_values (precision None) far_node))
    by (left; reflexivity).
  apply H in Hin. vm_compute in Hin. discriminate.
Qed.

(** A value that is not a number is written as [NaN]. *)
Lemma nan_node_not_fixed :
  updateINPWithReprojectedData [] nan_node None
  = Some ([LF; LF] ++ lit "[COORDINATES]" ++ [LF] ++ lit "J1 NaN NaN"
          ++ [LF; LF] ++ lit "[END]")
  /\ ~ written_fixed nan_node None.
Proof.
  split; [reflexivity|].
  intros H. specialize (H (lit "NaN")).
  assert (Hin : In (lit "NaN") (written_values (precision None) nan_node))
    by (left; reflexivity).
  apply H in Hin. vm_compute in Hin. discriminate.
Qed.

End NetworkUtilsFacts.

Module ProjectionFacts.

Import JsStringFacts JsRecordFacts JsRecord NetworkUtils InpSpec GeoSpec.

Section Facts.
Variable proj4 : jsstring -> jsstring -> point -> point.

(** ** convertCoordinates *)

Lemma fold_set_fresh (V W : Type) (f : V -> W) (es : list (jsstring * V))
    (c0 : record W) :
  NoDup (List.map fst c0 ++ List.map fst es) ->
  fold_left (fun acc kv => set acc (fst kv) (f (snd kv))) es c0
  = c0 ++ List.map (fun kv => (fst kv, f (snd kv))) es.
Proof.
  revert c0; induction es as [|[k v] es IH]; intros c0 Hnd; simpl.
  - rewrite app_nil_r; reflexivity.
  - assert (Hfresh : get c0 k = None).
    { apply get_none. apply NoDup_remove_2 in Hnd.
      rewrite in_app_iff in Hnd. tauto. }
    rewrite set_fresh by assumption. rewrite IH.
    + rewrite <- app_assoc; reflexivity.
    + rewrite map_app, <- app_assoc. exact Hnd.
Qed.

Lemma fold_left_ext (A B : Type) (f g : A -> B -> A) (l : list B) (a : A) :
  (forall a b, f a b = g a b) -> fold_left f l a = fold_left g l a.
Proof.
  intros H; revert a; induction l as [|b l IH]; intros a; simpl;
    [reflexivity | rewrite H; apply IH].
Qed.

Lemma converted_coordinates (nd : NetworkData) (src tgt : jsstring) :
  wf (coordinates nd) ->
  coordinates (convertCoordinates proj4 nd src tgt)
  = List.map (fun kv => (fst kv, proj4 src tgt (snd kv)))
      (entries (coordinates nd)).
Proof.
  intros Hwf. unfold convertCoordinates; simpl.
  rewrite (@fold_left_ext _ _ _
             (fun acc kv => set acc (fst kv) (proj4 src tgt (snd kv)))).
  - rewrite fold_set_fresh; [reflexivity|]. apply wf_entries; assumption.
  - intros a b. destruct (proj4 src tgt (snd b)); reflexivity.
Qed.

Lemma converted_vertices (nd : NetworkData) (src tgt : jsstring) :
  wf (vertices nd) ->
  vertices (convertCoordinates proj4 nd src tgt)
  = List.map (fun kv => (fst kv, List.map (proj4 src tgt) (snd kv)))
      (entries (vertices nd)).
Proof.
  intros Hwf. unfold convertCoordinates; simpl.
  rewrite (fold_set_fresh (List.map (proj4 src tgt)));
    [reflexivity|]. apply wf_entries; assumption.
Qed.

Lemma map_keys (V W : Type) (f : V -> W) (o : record V) :
  List.map fst (List.map (fun kv => (fst kv, f (snd kv))) o) = List.map fst o.
Proof. rewrite map_map. reflexivity. Qed.


(** ** convertGeometry *)

Variable members : Type.

Lemma Geometry_induction (P : Geometry members -> Prop) :
  (forall r c, P (Point r c)) ->
  (forall r cs, P (LineString r cs)) ->
  (forall r rings, P (Polygon r rings)) ->
  (forall r cs, P (MultiPoint r cs)) ->
  (forall r ls, P (MultiLineString r ls)) ->
  (forall r ps, P (MultiPolygon r ps)) ->
  (forall r gs, Forall P gs -> P (GeometryCollection r gs)) ->
  (forall t r, P (OtherGeometry t r)) ->
  forall g, P g.
Proof.
  intros HP HL HPo HMP HML HMPo HG HO.
  fix IH 1.
  intros [r c|r cs|r rings|r cs|r ls|r ps|r gs|t r];
    [apply HP | apply HL | apply HPo | apply HMP | apply HML | apply HMPo
    | | apply HO].
  apply HG. induction gs as [|g gs IHgs]; constructor; [apply IH | exact IHgs].
Qed.

Lemma convertGeometry_map_positions (src : jsstring) (g : Geometry members) :
  convertGeometry proj4 g src = map_positions (proj4 src WGS84) g.
Proof.
  induction g using Geometry_induction; simpl; try reflexivity.
  f_equal. apply map_ext_in. intros g Hg.
  rewrite Forall_forall in H. apply H; assumption.
Qed.

Lemma positions_map_positions (f : point -> point) (g : Geometry members) :
  positions (map_positions f g) = List.map f (positions g).
Proof.
  induction g using Geometry_induction; simpl; try reflexivity.
  - rewrite concat_map. reflexivity.
  - rewrite concat_map. reflexivity.
  - rewrite concat_map, !map_map. f_equal. apply map_ext.
    intros a. rewrite concat_map. reflexivity.
  - induction H as [|g gs Hg Hgs IH]; simpl; [reflexivity|].
    rewrite map_app, Hg, IH. reflexivity.
Qed.

Lemma shape_map_positions (f : point -> point) (g : Geometry members) :
  shape (map_positions f g) = shape g.
Proof.
  unfold shape.
  induction g using Geometry_induction; simpl; try reflexivity;
    try (rewrite !map_map; reflexivity).
  - f_equal. rewrite map_map. apply map_ext. intros a.
    rewrite map_map. reflexivity.
  - f_equal. rewrite map_map. apply map_ext. intros a.
    rewrite map_map. reflexivity.
  - f_equal. rewrite map_map. apply map_ext. intros a.
    rewrite map_map. apply map_ext. intros b. rewrite map_map. reflexivity.
  - f_equal. rewrite map_map. apply map_ext_in. intros g Hg.
    rewrite Forall_forall in H. apply H; assumption.
Qed.

(** C6: for each of the seven GeoJSON geometry types the conversion
    applies [proj4] from the given source projection to EPSG:4326 to every
    position at the depth of that type, converts the members of a
    collection with the same source projection, and returns a geometry of
    any other type unchanged; the features of a collection are converted
    in place and a feature without geometry is returned as it is. *)
Theorem convertGeometry_transforms_every_position (src : jsstring) :
  let tr := proj4 src (lit "EPSG:4326") in
  (forall (r : members) c, convertGeometry proj4 (Point r c) src = Point r (tr c))
  /\ (forall (r : members) cs, convertGeometry proj4 (LineString r cs) src
                   = LineString r (List.map tr cs))
  /\ (forall (r : members) rings, convertGeometry proj4 (Polygon r rings) src
                      = Polygon r (List.map (List.map tr) rings))
  /\ (forall (r : members) cs, convertGeometry proj4 (MultiPoint r cs) src
                   = MultiPoint r (List.map tr cs))
  /\ (forall (r : members) ls, convertGeometry proj4 (MultiLineString r ls) src
                   = MultiLineString r (List.map (List.map tr) ls))
  /\ (forall (r : members) ps, convertGeometry proj4 (MultiPolygon r ps) src
                   = MultiPolygon r (List.map (List.map (List.map tr)) ps))
  /\ (forall (r : members) gs, convertGeometry proj4 (GeometryCollection r gs) src
                   = GeometryCollection r
                       (List.map (fun g => convertGeometry proj4 g src) gs))
  /\ (forall t (r : members), convertGeometry proj4 (OtherGeometry t r) src
                  = OtherGeometry t r)
  /\ (forall g : Geometry members,
        positions (convertGeometry proj4 g src) = List.map tr (positions g)
        /\ shape (convertGeometry proj4 g src) = shape g)
  /\ (forall fc : FeatureCollection members,
        collection_rest (convertGeoJsonToWGS84Generic proj4 fc src)
        = collection_rest fc
        /\ List.map (@feature_rest members)
             (features (convertGeoJsonToWGS84Generic proj4 fc src))
           = List.map (@feature_rest members) (features fc)
        /\ List.map (@geometry members)
             (features (convertGeoJsonToWGS84Generic proj4 fc src))
           = List.map
               (fun f => option_map (fun g => convertGeometry proj4 g src)
                           (geometry f))
               (features fc)).
Proof.
  intros tr. repeat (split; [reflexivity|]).
  split.
  - intros g. rewrite convertGeometry_map_positions. split.
    + apply positions_map_positions.
    + apply shape_map_positions.
  - intros fc. split; [reflexivity|]. simpl. rewrite !map_map. split.
    + apply map_ext. intros f. destruct (geometry f); reflexivity.
    + apply map_ext. intros f. destruct f as [[g|] r]; reflexivity.
Qed.

End Facts.

Lemma small_network_well_formed : well_formed small_network.
Proof.
  split; unfold wf; distinct_keys.
Qed.


End ProjectionFacts.

Module ModelBuilderConstantsFacts.

Import JsStringFacts JsRecordFacts JsRecord ModelBuilderConstants.

Lemma includes_In (xs : list jsstring) (x : jsstring) :
  includes xs x = true <-> In x xs.
Proof.
  unfold includes. rewrite existsb_exists. split.
  - intros (y & Hin & E). apply str_eqb_eq in E; subst; assumption.
  - intros Hin. exists x. split; [assumption | apply str_eqb_refl].
Qed.

Lemma has_default_In (e : EpanetElementDefinition) (a : jsstring) :
  has_default e a = true <-> In a (List.map fst (defaultValues e)).
Proof.
  unfold has_default. pose proof (get_none (defaultValues e) a) as H.
  destruct (get (defaultValues e) a).
  - split; [intros _ | reflexivity].
    destruct (in_dec str_eq_dec a (List.map fst (defaultValues e)));
      [assumption|]. apply H in n. discriminate.
  - split; [discriminate|]. intros Hin.
    exfalso. apply (proj1 H); [reflexivity | assumption].
Qed.

Lemma find_by_key (els : list EpanetElementDefinition) (k : jsstring) :
  NoDup (List.map key els) ->
  forall el,
    find (fun e => str_eqb (key e) k) els = Some el
    <-> In el els /\ key el = k.
Proof.
  induction els as [|e els IH]; intros Hnd el; simpl.
  - split; [discriminate | tauto].
  - inversion Hnd as [|? ? Hnotin Hnd']; subst.
    destruct (str_eqb (key e) k) eqn:E.
    + apply str_eqb_eq in E. split.
      * intros H; injection H as <-. auto.
      * intros [[<-|Hin] Hk]; [reflexivity|].
        exfalso; apply Hnotin. rewrite E, <- Hk. apply in_map; assumption.
    + apply str_eqb_neq in E. rewrite IH by assumption.
      split; [tauto|]. intros [[<-|Hin] Hk]; [congruence | tauto].
Qed.

Lemma find_by_key_none (els : list EpanetElementDefinition) (k : jsstring) :
  find (fun e => str_eqb (key e) k) els = None
  <-> forall el, In el els -> key el <> k.
Proof.
  induction els as [|e els IH]; simpl; [tauto|].
  destruct (str_eqb (key e) k) eqn:E.
  - apply str_eqb_eq in E. split; [discriminate|].
    intros H. exfalso. apply (H e); auto.
  - apply str_eqb_neq in E. rewrite IH. split.
    + intros H el [<-|Hin]; auto.
    + intros H el Hin. apply H; auto.
Qed.

Lemma element_keys_distinct : NoDup (List.map key EPANET_ELEMENTS).
Proof.
  distinct_keys.
Qed.

(** C5: a geometry type is valid for an element kind exactly when the
    schema of that kind lists it: pipes take LineString and
    MultiLineString, the five point kinds take Point and MultiPoint; every
    other combination, and every kind without a schema, is rejected. *)
Theorem geometry_valid_iff_listed (geometryType elementType : jsstring) :
  (isValidGeometryForElement geometryType elementType = true
   <-> exists el, In el EPANET_ELEMENTS /\ key el = elementType
                  /\ In geometryType (geometryTypes el))
  /\ (isValidGeometryForElement geometryType (lit "pipes") = true
      <-> geometryType = lit "LineString"
          \/ geometryType = lit "MultiLineString")
  /\ (In elementType POINT_ELEMENTS ->
      (isValidGeometryForElement geometryType elementType = true
       <-> geometryType = lit "Point" \/ geometryType = lit "MultiPoint"))
  /\ ((forall el, In el EPANET_ELEMENTS -> key el <> elementType) ->
      isValidGeometryForElement geometryType elementType = false).
Proof.
  split; [|split; [|split]].
  - unfold isValidGeometryForElement.
    destruct (find _ EPANET_ELEMENTS) as [el|] eqn:E.
    + apply (@find_by_key _ _ element_keys_distinct) in E as [Hin Hk].
      rewrite includes_In. split.
      * intros Hg. exists el. auto.
      * intros (el' & Hin' & Hk' & Hg).
        assert (el' = el); [|subst; assumption].
        assert (H : find (fun e => str_eqb (key e) elementType)
                      EPANET_ELEMENTS = Some el')
          by (apply find_by_key; auto using element_keys_distinct).
        assert (H' : find (fun e => str_eqb (key e) elementType)
                       EPANET_ELEMENTS = Some el)
          by (apply find_by_key; auto using element_keys_distinct).
        congruence.
    + split; [discriminate|]. intros (el & Hin & Hk & _).
      exfalso. exact (proj1 (find_by_key_none _ _) E el Hin Hk).
  - unfold isValidGeometryForElement. simpl find. cbv iota.
    rewrite includes_In. simpl. intuition.
  - intros He. unfold isValidGeometryForElement.
    simpl in He. destruct He as [<-|[<-|[<-|[<-|[<-|[]]]]]];
      simpl find; cbv iota; rewrite includes_In; simpl; intuition.
  - intros H. unfold isValidGeometryForElement.
    apply find_by_key_none in H. rewrite H. reflexivity.
Qed.

(** C5, witness: a point is valid for tanks, and no geometry is valid for
    an element kind that has no schema. *)
Lemma geometry_valid_iff_listed_witness :
  (isValidGeometryForElement (lit "Point") (lit "tanks") = true
   <-> lit "Point" = lit "Point" \/ lit "Point" = lit "MultiPoint")
  /\ isValidGeometryForElement (lit "Point") (lit "curves") = false.
Proof.
  destruct (geometry_valid_iff_listed (lit "Point") (lit "tanks"))
    as (_ & _ & Hpoint & _).
  destruct (geometry_valid_iff_listed (lit "Point") (lit "curves"))
    as (_ & _ & _ & Hnone).
  split.
  - apply Hpoint. simpl. tauto.
  - apply Hnone. simpl.
    intros el [<-|[<-|[<-|[<-|[<-|[<-|[]]]]]]]; discriminate.
Defined.

(** C4: the default pipe roughness is the entry of the headloss formula in
    the table: 0.01 under Darcy-Weisbach, 100 under Hazen-Williams (the
    default of the pipe schema), 0.013 under Chezy-Manning. *)
Theorem default_roughness_by_formula :
  getDefaultPipeRoughness (lit "Darcy-Weisbach") = Fin 1 (-2)
  /\ getDefaultPipeRoughness (lit "Hazen-Williams") = Fin 100 0
  /\ getDefaultPipeRoughness (lit "Chezy-Manning") = Fin 13 (-3)
  /\ (forall formula r,
        get PIPE_ROUGHNESS_DEFAULT formula = Some r ->
        getDefaultPipeRoughness formula = r)
  /\ (forall formula,
        In formula (keys PIPE_ROUGHNESS_DEFAULT) <->
        formula = lit "Hazen-Williams" \/ formula = lit "Darcy-Weisbach"
        \/ formula = lit "Chezy-Manning")
  /\ (exists pipes,
        find (fun e => str_eqb (key e) (lit "pipes")) EPANET_ELEMENTS
        = Some pipes
        /\ get (defaultValues pipes) (lit "Roughness")
           = Some (VNum (getDefaultPipeRoughness (lit "Hazen-Williams")))).
Proof.
  repeat (split; [reflexivity|]).
  split; [|split].
  - intros formula r H. unfold getDefaultPipeRoughness. rewrite H. reflexivity.
  - intros formula. simpl. intuition.
  - eexists. split; reflexivity.
Qed.

(** C4, witness: the table entry of Darcy-Weisbach. *)
Lemma default_roughness_by_formula_witness :
  getDefaultPipeRoughness (lit "Darcy-Weisbach") = Fin 1 (-2).
Proof.
  destruct default_roughness_by_formula as (_ & _ & _ & H & _).
  apply (H (lit "Darcy-Weisbach")). reflexivity.
Defined.

Lemma unit_attributes_keys :
  List.map fst ATTRIBUTE_UNIT_MAP = UNIT_ATTRIBUTES.
Proof. reflexivity. Qed.



(** C3, counterexample: the pipe schema carries a default for MinorLoss,
    which is an optional attribute. *)
Lemma optional_attribute_with_default : ~ only_required_defaulted.
Proof.
  intros H.
  assert (Hin : In (lit "MinorLoss")
                  [lit "Id"; lit "Diameter"; lit "Roughness"]).
  { refine (H _ (lit "MinorLoss") (or_introl eq_refl) _). reflexivity. }
  simpl in Hin. intuition discriminate.
Qed.

(** C3 (amended): in every element schema each default belongs to a
    required or an optional attribute of that schema, and every required
    attribute other than Id has a default; the optional attributes with a
    default are MinorLoss, Status, Parameters and MinVolume. *)
Theorem defaults_cover_required_attributes (e : EpanetElementDefinition)
    (a : jsstring) :
  In e EPANET_ELEMENTS ->
  (has_default e a = true ->
   In a (requiredAttributes e) \/ In a (optionalAttributes e))
  /\ (In a (requiredAttributes e) -> a <> lit "Id" ->
      has_default e a = true)
  /\ (In a (optionalAttributes e) -> has_default e a = true ->
      In a [lit "MinorLoss"; lit "Status"; lit "Parameters";
            lit "MinVolume"]).
Proof.
  intros He. rewrite has_default_In.
  simpl in He.
  destruct He as [<-|[<-|[<-|[<-|[<-|[<-|[]]]]]]]; simpl;
    (split; [|split]); intuition (subst; try discriminate; auto 10).
Qed.

(** C3, witness: the valve schema. *)
Lemma defaults_cover_required_attributes_witness :
  match nth_error EPANET_ELEMENTS 2 with
  | Some valves => has_default valves (lit "Setting") = true
  | None => False
  end.
Proof.
  simpl nth_error. cbv iota beta.
  refine (proj1 (proj2 (@defaults_cover_required_attributes _ _ _)) _ _).
  - simpl. tauto.
  - simpl. tauto.
  - discriminate.
Defined.

End ModelBuilderConstantsFacts.

(* ================================================================== *)
(** * The model on concrete inputs *)
(* ================================================================== *)

Module Examples.

Import JsRecord NetworkUtils InpSpec ModelBuilderConstants.

Example trim_both_ends :
  trim ([9; 32]%N ++ lit "J1 1 2" ++ [13]%N) = lit "J1 1 2".
Proof. reflexivity. Qed.

Example split_ws_runs :
  split_ws (lit "J1   10.5" ++ [9%N] ++ lit "20")
  = [lit "J1"; lit "10.5"; lit "20"].
Proof. reflexivity. Qed.

Example split_ws_keeps_empty_ends :
  split_ws (lit " a ") = [[]; lit "a"; []].
Proof. reflexivity. Qed.

Example split_keeps_empty_lines :
  split LF (lit "a" ++ [LF; LF] ++ lit "b" ++ [LF])
  = [lit "a"; []; lit "b"; []].
Proof. reflexivity. Qed.

Example toFixed_rounds : toFixed (Fin 12345678 (-4)) 2 = Some (lit "1234.57").
Proof. reflexivity. Qed.

Example toFixed_pads : toFixed (Fin 15 (-1)) 4 = Some (lit "1.5000").
Proof. reflexivity. Qed.

Example toFixed_keeps_sign : toFixed (Fin (-4) (-5)) 4 = Some (lit "-0.0000").
Proof. reflexivity. Qed.

Example toFixed_half_up : toFixed (Fin 25 (-1)) 0 = Some (lit "3").
Proof. reflexivity. Qed.

Example toFixed_large : toFixed (Fin 15 20) 4 = Some (lit "1.5e+21").
Proof. reflexivity. Qed.

Example toFixed_range_error : toFixed (Fin 1 0) 101 = None.
Proof. reflexivity. Qed.

Example parseFloat_prefix : parseFloat (lit "-12.50e3abc") = Fin (-1250) 1.
Proof. reflexivity. Qed.

Example parseFloat_not_a_number : parseFloat (lit "abc") = NaN.
Proof. reflexivity. Qed.

Example parseFloat_exponent_notation : parseFloat (lit "1.5e+21") = Fin 15 20.
Proof. reflexivity. Qed.

Example entries_index_keys_first :
  keys [(lit "b", 1%nat); (lit "10", 2%nat); (lit "2", 3%nat);
        (lit "a", 4%nat); (lit "07", 5%nat)]
  = [lit "2"; lit "10"; lit "b"; lit "a"; lit "07"].
Proof. reflexivity. Qed.

Example extract_small :
  extractGeometryData
    (lit "J0 9 9" ++ [LF] ++ lit "[COORDINATES]" ++ [LF]
     ++ lit ";Node X Y" ++ [LF] ++ lit " J1  1.5 2 extra" ++ [LF]
     ++ lit "J2 3" ++ [LF] ++ lit "J1 7 8" ++ [LF]
     ++ lit "[VERTICES]" ++ [LF] ++ lit "P1 1 1" ++ [LF] ++ lit "P2 5 5"
     ++ [LF] ++ lit "P1 2 2" ++ [LF] ++ lit "[END]")
  = ([(lit "J1", (Fin 7 0, Fin 8 0))],
     [(lit "P1", [(Fin 1 0, Fin 1 0); (Fin 2 0, Fin 2 0)]);
      (lit "P2", [(Fin 5 0, Fin 5 0)])]).
Proof. reflexivity. Qed.

Example update_small :
  updateINPWithReprojectedData small_base small_network None
  = Some (lit "[TITLE]" ++ [LF] ++ lit " demo" ++ [LF]
          ++ lit "[COORDINATES]" ++ [LF] ++ lit "[OPTIONS]" ++ [LF]
          ++ lit "UNITS LPS" ++ [LF; LF; LF]
          ++ lit "[COORDINATES]" ++ [LF] ++ lit "10 -1.2346 0.0000" ++ [LF]
          ++ lit "J1 1.5000 2.0000" ++ [LF; LF]
          ++ lit "[VERTICES]" ++ [LF] ++ lit "P1 1.0000 2.0000" ++ [LF]
          ++ lit "P1 3.0000 4.5000" ++ [LF; LF] ++ lit "[END]").
Proof. reflexivity. Qed.

Example update_then_extract :
  option_map extractGeometryData
    (updateINPWithReprojectedData small_base small_network (Some 1%Z))
  = Some ([(lit "10", (Fin (-12) (-1), Fin 0 (-1)));
           (lit "J1", (Fin 15 (-1), Fin 20 (-1)))],
          [(lit "P1", [(Fin 10 (-1), Fin 20 (-1));
                       (Fin 30 (-1), Fin 45 (-1))])]).
Proof. reflexivity. Qed.

Example metric_label : getAttributeUnit (lit "Diameter") (lit "CMH")
                       = Some (lit "mm").
Proof. reflexivity. Qed.

Example us_label : getAttributeUnit (lit "Head") (lit "GPM") = Some (lit "ft").
Proof. reflexivity. Qed.

Example polygon_is_not_a_pipe :
  isValidGeometryForElement (lit "Polygon") (lit "pipes") = false.
Proof. reflexivity. Qed.

End Examples.

(* ================================================================== *)
(** * Further properties of src/lib/network-utils.ts *)
(* ================================================================== *)

Module NetworkUtilsMoreFacts.

Import JsStringFacts JsNumberFacts JsRecordFacts JsRecord NetworkUtils
  NetworkUtilsMore InpSpec MoreSpec NetworkUtilsFacts.

(** ** Objects keep their keys distinct *)

Lemma keys_set (V : Type) (o : record V) (k : jsstring) (v : V) :
  List.map fst (set o k v)
  = match get o k with
    | Some _ => List.map fst o
    | None => List.map fst o ++ [k]
    end.
Proof.
  induction o as [|[k0 v0] o IH]; simpl; [reflexivity|].
  destruct (str_eqb k0 k) eqn:E; simpl; [reflexivity|].
  rewrite IH. destruct (get o k); reflexivity.
Qed.

Lemma wf_set (V : Type) (o : record V) (k : jsstring) (v : V) :
  wf o -> wf (set o k v).
Proof.
  unfold wf; intros H. rewrite keys_set.
  destruct (get o k) eqn:E; [assumption|].
  apply get_none in E. apply NoDup_app; [assumption | repeat constructor; auto |].
  intros x Hx [<- | []]. contradiction.
Qed.

Lemma wf_push_vertex (vs : record (list point)) (k : jsstring) (pt : point) :
  wf vs -> wf (push_vertex vs k pt).
Proof.
  intros H; unfold push_vertex.
  destruct (get vs k) eqn:E.
  - rewrite E. apply wf_set; assumption.
  - rewrite get_set, str_eqb_refl. apply wf_set, wf_set; assumption.
Qed.

(** ** The first field of a data line *)

Lemma trimStart_head_plain (s : jsstring) :
  match trimStart s with [] => True | c :: _ => is_ws c = false end.
Proof.
  induction s as [|c s IH]; simpl; [exact I|].
  destruct (is_ws c) eqn:E; [exact IH | exact E].
Qed.

Lemma trimStart_keeps_last (s : jsstring) (c : char) :
  is_ws c = false -> exists s', trimStart (s ++ [c]) = s' ++ [c].
Proof.
  intros Hc; induction s as [|d s IH]; simpl.
  - rewrite Hc. exists []. reflexivity.
  - destruct (is_ws d); [exact IH|]. exists (d :: s). reflexivity.
Qed.

Lemma trim_head_plain (s : jsstring) :
  match trim s with [] => True | c :: _ => is_ws c = false end.
Proof.
  unfold trim, trimEnd.
  pose proof (trimStart_head_plain s) as H.
  destruct (trimStart s) as [|c r]; [exact I|].
  simpl rev. destruct (@trimStart_keeps_last (rev r) c H) as [s' E].
  rewrite E, rev_app_distr. simpl. exact H.
Qed.

Lemma split_ws_from_no_ws (b : bool) (s : jsstring) :
  Forall no_ws (split_ws_from b s).
Proof.
  revert b; induction s as [|c s IH]; intros b; simpl.
  - repeat constructor.
  - destruct (is_ws c) eqn:E.
    + destruct b; [apply IH | constructor; [constructor | apply IH]].
    + specialize (IH false).
      destruct (split_ws_from false s) as [|f fs].
      * repeat constructor; assumption.
      * inversion IH; subst. constructor; [constructor|]; assumption.
Qed.

Lemma split_ws_from_head (b : bool) (c : char) (s : jsstring) :
  is_ws c = false ->
  exists f fs, split_ws_from b (c :: s) = (c :: f) :: fs.
Proof.
  intros Hc; simpl; rewrite Hc.
  destruct (split_ws_from false s) as [|f fs]; eauto.
Qed.

(** The first field of a line that is neither blank, nor a comment, nor a
    header is a plain identifier. *)
Lemma first_field_plain (l : jsstring) :
  ignorable l = false -> is_header l = false ->
  plain_id (nth 0 (fields l) []).
Proof.
  unfold is_header, ignorable, fields; intros Hi Hh.
  rewrite Hi in Hh; simpl in Hh.
  apply orb_false_iff in Hi as [Hsemi Hne].
  pose proof (trim_head_plain l) as Hc.
  pose proof (split_ws_from_no_ws false (trim l)) as Hws.
  destruct (trim l) as [|c r]; [discriminate|].
  destruct (@split_ws_from_head false c r Hc) as (f & fs & E).
  unfold split_ws in *. rewrite E in *. simpl nth.
  inversion Hws; subst.
  repeat split; try assumption; try discriminate.
  - simpl in *. rewrite startsWith_nil in *. exact Hsemi.
  - simpl in *. rewrite startsWith_nil in *. exact Hh.
Qed.

(** ** What the extractor never returns *)

Lemma plain_state_init : plain_state extract_init.
Proof.
  unfold plain_state, extract_init, wf; simpl.
  split; [constructor|]. split; [constructor|].
  split; [congruence | discriminate].
Qed.

Lemma plain_state_step (st : extract_state) (l : jsstring) :
  plain_state st -> plain_state (extract_step st l).
Proof.
  intros (Hwc & Hwv & Hc & Hv).
  destruct (ignorable l) eqn:Hi.
  { rewrite extract_step_ignorable by assumption. unfold plain_state; tauto. }
  destruct (is_header l) eqn:Hh.
  { rewrite extract_step_header by assumption.
    unfold plain_state; simpl; tauto. }
  destruct (extract_step_data st l Hi Hh) as [_ Hg].
  pose proof (first_field_plain l Hi Hh) as Hid.
  unfold geometry_of, apply_record in Hg.
  unfold plain_state.
  destruct (qualifies COORDINATES (ex_section st, fields l)).
  - injection Hg as -> ->. unfold record_id; simpl.
    split; [apply wf_set; assumption|]. split; [assumption|].
    split; [|assumption].
    intros k. rewrite get_set. destruct (str_eqb _ k) eqn:E; [|apply Hc].
    apply str_eqb_eq in E; subst k. intros _; exact Hid.
  - destruct (qualifies VERTICES (ex_section st, fields l)).
    + injection Hg as -> ->. unfold record_id; simpl.
      split; [assumption|]. split; [apply wf_push_vertex; assumption|].
      split; [assumption|].
      intros k pts. rewrite get_push_vertex.
      destruct (str_eqb _ k) eqn:E; [|apply Hv].
      apply str_eqb_eq in E; subst k. intros H; injection H as <-.
      split; [exact Hid|]. intros E. apply app_eq_nil in E as [_ E].
      discriminate.
    + injection Hg as -> ->. tauto.
Qed.

Lemma plain_state_lines (lines : list jsstring) (st : extract_state) :
  plain_state st -> plain_state (fold_left extract_step lines st).
Proof.
  revert st; induction lines as [|l lines IH]; intros st H; [exact H|].
  simpl. apply IH, plain_state_step, H.
Qed.

Lemma get_some_of_in (V : Type) (o : record V) (kv : jsstring * V) :
  wf o -> In kv o -> get o (fst kv) = Some (snd kv).
Proof.
  intros Hwf Hin. apply get_In; [assumption|]. destruct kv; exact Hin.
Qed.

Lemma parsed_is_plain (content fileName : jsstring) :
  well_formed (parsed content fileName)
  /\ plain_network (parsed content fileName).
Proof.
  pose proof (plain_state_lines (split LF content) plain_state_init)
    as (Hwc & Hwv & Hc & Hv).
  unfold well_formed, plain_network, parsed, extractGeometryData; simpl.
  fold (extract_lines (split LF content)) in *.
  split; [split; assumption|]. split.
  - intros kv Hin. apply Hc.
    rewrite (@get_some_of_in _ _ kv Hwc Hin). discriminate.
  - intros kv Hin. apply (Hv (fst kv) (snd kv)).
    apply (@get_some_of_in _ _ kv Hwv Hin).
Qed.


(** ** Writing a network that was read from a text *)

Lemma roundtrip_when_plain (base : jsstring) (nd : NetworkData)
    (dp : option Z) :
  in_range (precision dp) -> well_formed nd -> plain_network nd ->
  roundtrip_holds base nd dp.
Proof.
  intros Hp [Hwc Hwv] [Hc Hv].
  assert (Hv1 : forall kv, In kv (vertices nd) -> plain_id (fst kv))
    by (intros kv Hin; apply Hv; assumption).
  exists (join [LF]
            (preserved (split LF base)
             ++ coordinate_section (precision dp) (coordinates nd)
             ++ vertex_section (precision dp) (vertices nd)
             ++ [LF :: END])).
  split; [apply update_in_range; assumption|].
  unfold extractGeometryData.
  rewrite written_lines by assumption.
  pose proof (extract_written (precision dp) base nd Hc Hv1) as H.
  unfold geometry_of in H. injection H as Hcs Hvs.
  simpl fst; simpl snd. rewrite Hcs, Hvs.
  rewrite fold_set_point by (apply entries_keys_nodup; assumption).
  rewrite fold_push_points;
    [| apply entries_keys_nodup; assumption
     | intros kv Hin; apply Hv;
       eapply Permutation_in; [apply entries_perm | exact Hin]].
  simpl app. split; intros k; rewrite get_map, get_entries by assumption;
    reflexivity.
Qed.

Lemma parseINPFile_parsed (content fileName : jsstring) :
  parseINPFile (Some {| file_name := fileName; file_text := Some content |})
  = Resolved (Some (parsed content fileName)).
Proof.
  unfold parseINPFile, parsed; simpl.
  destruct (extractGeometryData content); reflexivity.
Qed.



(** ** Values that are already at the precision *)

Lemma stable_at_precision (p m : Z) :
  (0 <= p)%Z -> moderate (Fin m (- p)) = true -> stable p (Fin m (- p)).
Proof.
  intros Hp Hm. unfold stable. rewrite reparse_moderate by assumption.
  rewrite Z.add_opp_diag_l, scaled_round_exact by lia.
  f_equal. destruct (Z.ltb_spec m 0); lia.
Qed.

Lemma option_map_stable (A : Type) (f : A -> A) (x : option A) :
  (forall a, x = Some a -> f a = a) -> option_map f x = x.
Proof.
  destruct x as [a|]; simpl; [|reflexivity].
  intros H; rewrite H; reflexivity.
Qed.

Lemma map_stable (A : Type) (f : A -> A) (l : list A) :
  (forall a, In a l -> f a = a) -> List.map f l = l.
Proof.
  induction l as [|a l IH]; simpl; intros H; [reflexivity|].
  rewrite H, IH; auto.
Qed.

Lemma reparse_point_stable (p : Z) (pt : point) :
  stable_point p pt -> reparse_point p pt = pt.
Proof.
  intros [Hx Hy]. unfold reparse_point, stable in *.
  rewrite Hx, Hy. destruct pt; reflexivity.
Qed.



(** ** Header and end-marker lines of the output *)

Lemma count_lines_app (test : jsstring -> bool) (a b : list jsstring) :
  count_lines test (a ++ b) = (count_lines test a + count_lines test b)%nat.
Proof. unfold count_lines. rewrite filter_app, length_app. reflexivity. Qed.

Lemma count_lines_none (test : jsstring -> bool) (ls : list jsstring) :
  (forall l, In l ls -> test l = false) -> count_lines test ls = 0%nat.
Proof.
  unfold count_lines. induction ls as [|l ls IH]; intros H; [reflexivity|].
  simpl. rewrite (H l) by (left; reflexivity).
  apply IH. intros; apply H; right; assumption.
Qed.

(** The loop keeps every header other than the end marker. *)
Lemma count_kept_headers (test : jsstring -> bool) (lines : list jsstring) :
  (forall l, test l = true ->
     startsWith (trim l) (lit "[") = true /\ is_end_marker l = false) ->
  forall skip,
    count_lines test (kept skip lines) = count_lines test lines.
Proof.
  intros Htest. induction lines as [|l lines IH]; intros skip.
  - rewrite kept_nil; reflexivity.
  - rewrite kept_cons. unfold count_lines in *.
    destruct (test l) eqn:Et.
    + destruct (Htest l Et) as [Hh He]. rewrite He, Hh. simpl.
      rewrite Et. simpl. f_equal. apply IH.
    + simpl filter at 2. rewrite Et.
      destruct (is_end_marker l); [apply IH|].
      destruct (startsWith (trim l) (lit "[")).
      * simpl. rewrite Et. apply IH.
      * destruct skip; [apply IH|]. simpl. rewrite Et. apply IH.
Qed.

Lemma count_kept_end_markers (lines : list jsstring) (skip : bool) :
  count_lines is_end_marker (kept skip lines) = 0%nat.
Proof.
  revert skip; induction lines as [|l lines IH]; intros skip.
  - rewrite kept_nil; reflexivity.
  - rewrite kept_cons. unfold count_lines in *.
    destruct (is_end_marker l) eqn:Ee; [apply IH|].
    destruct (startsWith (trim l) (lit "[")).
    + simpl. rewrite Ee. apply IH.
    + destruct skip; [apply IH|]. simpl. rewrite Ee. apply IH.
Qed.

(** A regenerated data line is never a bracketed line. *)
Lemma data_line_not_bracketed (test : jsstring -> bool) (p : Z)
    (id : jsstring) (pt : point) :
  (forall l, test l = true -> startsWith (trim l) (lit "[") = true) ->
  plain_id id -> test (data_line p id pt) = false.
Proof.
  intros Htest Hid. destruct (test (data_line p id pt)) eqn:E; [|reflexivity].
  apply Htest in E.
  pose proof (@data_line_not_header p id pt Hid) as Hh.
  unfold is_header in Hh.
  rewrite (@data_line_not_ignorable p id pt Hid), E in Hh. discriminate.
Qed.

Lemma count_coordinate_lines (test : jsstring -> bool) (p : Z)
    (coords : record point) :
  (forall l, test l = true -> startsWith (trim l) (lit "[") = true) ->
  (forall kv, In kv coords -> plain_id (fst kv)) ->
  count_lines test (coordinate_lines p coords)
  = match coords with
    | [] => 0%nat
    | _ => if test COORDINATES then 1%nat else 0%nat
    end.
Proof.
  intros Htest Hids. unfold coordinate_lines.
  destruct coords as [|kv coords]; [reflexivity|].
  set (es := entries (kv :: coords)).
  assert (Hes : forall kv', In kv' es -> plain_id (fst kv')).
  { intros kv' Hin. apply Hids.
    eapply Permutation_in; [apply entries_perm | exact Hin]. }
  clearbody es. unfold count_lines. simpl filter.
  assert (Hblank : test [] = false).
  { destruct (test []) eqn:E; [|reflexivity]. apply Htest in E.
    discriminate. }
  rewrite Hblank.
  assert (Hdata : filter test
            (List.map (fun kv0 => data_line p (fst kv0) (snd kv0)) es) = []).
  { induction es as [|e es IHes]; [reflexivity|]. simpl.
    rewrite (@data_line_not_bracketed test p (fst e) (snd e) Htest)
      by (apply Hes; left; reflexivity).
    apply IHes. intros; apply Hes; right; assumption. }
  destruct (test COORDINATES); [simpl|]; rewrite Hdata; reflexivity.
Qed.

Lemma count_vertex_lines (test : jsstring -> bool) (p : Z)
    (verts : record (list point)) :
  (forall l, test l = true -> startsWith (trim l) (lit "[") = true) ->
  (forall kv, In kv verts -> plain_id (fst kv)) ->
  count_lines test (vertex_lines p verts)
  = match verts with
    | [] => 0%nat
    | _ => if test VERTICES then 1%nat else 0%nat
    end.
Proof.
  intros Htest Hids. unfold vertex_lines.
  destruct verts as [|kv verts]; [reflexivity|].
  set (es := entries (kv :: verts)).
  assert (Hes : forall kv', In kv' es -> plain_id (fst kv')).
  { intros kv' Hin. apply Hids.
    eapply Permutation_in; [apply entries_perm | exact Hin]. }
  clearbody es. unfold count_lines. simpl filter.
  assert (Hblank : test [] = false).
  { destruct (test []) eqn:E; [|reflexivity]. apply Htest in E.
    discriminate. }
  rewrite Hblank.
  assert (Hdata : filter test
            (flat_map (fun kv0 => List.map (data_line p (fst kv0)) (snd kv0))
               es) = []).
  { induction es as [|e es IHes]; [reflexivity|]. simpl.
    rewrite filter_app, IHes by (intros; apply Hes; right; assumption).
    rewrite app_nil_r.
    assert (He : plain_id (fst e)) by (apply Hes; left; reflexivity).
    induction (snd e) as [|pt pts IHpts]; [reflexivity|]. simpl.
    rewrite (@data_line_not_bracketed test p (fst e) pt Htest He). exact IHpts. }
  destruct (test VERTICES); [simpl|]; rewrite Hdata; reflexivity.
Qed.

Lemma header_test_bracketed (h : jsstring) :
  startsWith h (lit "[") = true ->
  forall l, str_eqb (trim l) h = true ->
    startsWith (trim l) (lit "[") = true.
Proof. intros Hh l E. apply str_eqb_eq in E. rewrite E. exact Hh. Qed.

(** X4: the headers of the old geometry sections are never removed: when
    the identifiers are plain and the precision is within 0..100, the
    output has one [COORDINATES] header line more than the base text if
    the network has a node (as many otherwise), and one [VERTICES] header
    line more if it has a link. *)
Theorem geometry_headers_accumulate (base : jsstring) (nd : NetworkData)
    (dp : option Z) :
  in_range (precision dp) ->
  (forall kv, In kv (coordinates nd) -> plain_id (fst kv)) ->
  (forall kv, In kv (vertices nd) -> plain_id (fst kv)) ->
  exists out,
    updateINPWithReprojectedData base nd dp = Some out
    /\ count_lines is_coordinates_header (split LF out)
       = (count_lines is_coordinates_header (split LF base)
          + match coordinates nd with [] => 0 | _ => 1 end)%nat
    /\ count_lines is_vertices_header (split LF out)
       = (count_lines is_vertices_header (split LF base)
          + match vertices nd with [] => 0 | _ => 1 end)%nat.
Proof.
  intros Hp Hc Hv. eexists. split; [apply update_in_range; assumption|].
  rewrite written_lines by assumption.
  assert (Bc : forall l, is_coordinates_header l = true ->
                 startsWith (trim l) (lit "[") = true)
    by (apply header_test_bracketed; reflexivity).
  assert (Bv : forall l, is_vertices_header l = true ->
                 startsWith (trim l) (lit "[") = true)
    by (apply header_test_bracketed; reflexivity).
  rewrite !count_lines_app.
  rewrite (@count_coordinate_lines _ _ _ Bc Hc), (@count_vertex_lines _ _ _ Bc Hv).
  rewrite (@count_coordinate_lines _ _ _ Bv Hc), (@count_vertex_lines _ _ _ Bv Hv).
  change (preserved (split LF base)) with (kept false (split LF base)).
  rewrite !count_kept_headers.
  - change (is_coordinates_header COORDINATES) with true.
    change (is_coordinates_header VERTICES) with false.
    change (is_vertices_header COORDINATES) with false.
    change (is_vertices_header VERTICES) with true.
    change (count_lines is_coordinates_header [[]; END]) with 0%nat.
    change (count_lines is_vertices_header [[]; END]) with 0%nat.
    split; destruct (coordinates nd), (vertices nd); lia.
  - intros l E. split; [apply Bv; assumption|].
    unfold is_vertices_header, is_end_marker in *.
    apply str_eqb_eq in E. rewrite E. reflexivity.
  - intros l E. split; [apply Bc; assumption|].
    unfold is_coordinates_header, is_end_marker in *.
    apply str_eqb_eq in E. rewrite E. reflexivity.
Qed.

(** X4, witness: the small base text has one [COORDINATES] header, the
    output has two. *)
Lemma geometry_headers_accumulate_witness :
  exists out,
    updateINPWithReprojectedData small_base small_network None = Some out
    /\ count_lines is_coordinates_header (split LF out) = 2%nat
    /\ count_lines is_vertices_header (split LF out) = 1%nat.
Proof.
  destruct (@geometry_headers_accumulate small_base small_network None)
    as (out & Hout & Hc & Hv).
  - literal_in_range.
  - simpl. intros kv [<-|[<- | []]];
      (split; [discriminate | split; [repeat constructor | split; reflexivity]]).
  - simpl. intros kv [<- | []].
    split; [discriminate | split; [repeat constructor | split; reflexivity]].
  - exists out. split; [assumption|]. split; [rewrite Hc | rewrite Hv];
      reflexivity.
Defined.

(** X5: when the identifiers are plain and the precision is within 0..100,
    the output has exactly one end marker line, and it is its last
    line. *)
Theorem single_end_marker_last (base : jsstring) (nd : NetworkData)
    (dp : option Z) :
  in_range (precision dp) ->
  (forall kv, In kv (coordinates nd) -> plain_id (fst kv)) ->
  (forall kv, In kv (vertices nd) -> plain_id (fst kv)) ->
  exists out before,
    updateINPWithReprojectedData base nd dp = Some out
    /\ split LF out = before ++ [END]
    /\ count_lines is_end_marker before = 0%nat.
Proof.
  intros Hp Hc Hv.
  eexists. exists (preserved (split LF base)
            ++ coordinate_lines (precision dp) (coordinates nd)
            ++ vertex_lines (precision dp) (vertices nd) ++ [[]]).
  split; [apply update_in_range; assumption|].
  rewrite written_lines by assumption. split.
  - rewrite <- !app_assoc. reflexivity.
  - assert (Be : forall l, is_end_marker l = true ->
                   startsWith (trim l) (lit "[") = true)
      by (apply header_test_bracketed; reflexivity).
    rewrite !count_lines_app.
    rewrite (@count_coordinate_lines _ _ _ Be Hc), (@count_vertex_lines _ _ _ Be Hv).
    change (preserved (split LF base)) with (kept false (split LF base)).
    rewrite count_kept_end_markers.
    change (is_end_marker COORDINATES) with false.
    change (is_end_marker VERTICES) with false.
    destruct (coordinates nd), (vertices nd); reflexivity.
Qed.

(** X5, witness: the small network written into the small base text. *)
Lemma single_end_marker_last_witness :
  exists out before,
    updateINPWithReprojectedData small_base small_network None = Some out
    /\ split LF out = before ++ [END]
    /\ count_lines is_end_marker before = 0%nat.
Proof.
  apply (@single_end_marker_last small_base small_network None).
  - literal_in_range.
  - simpl. intros kv [<-|[<- | []]];
      (split; [discriminate | split; [repeat constructor | split; reflexivity]]).
  - simpl. intros kv [<- | []].
    split; [discriminate | split; [repeat constructor | split; reflexivity]].
Defined.

(** ** A network without values; a precision out of range *)

Lemma nothing_written_lines (p : Z) (base content fileName : jsstring) :
  split LF (join [LF] (preserved (split LF base) ++ [LF :: END]))
  = preserved (split LF base) ++ [[]; END].
Proof.
  pose proof (@written_lines p base (empty_network content fileName)) as H.
  simpl in H. apply H; intros kv [].
Qed.

(** X6: writing a network that has no node and no link never throws,
    whatever the precision; the output is the preserved lines and the end
    marker, and the extractor finds no geometry in it. *)
Theorem empty_network_erases_geometry (base content fileName : jsstring)
    (dp : option Z) :
  updateINPWithReprojectedData base (empty_network content fileName) dp
  = Some (join [LF] (preserved (split LF base) ++ [LF :: END]))
  /\ extractGeometryData
       (join [LF] (preserved (split LF base) ++ [LF :: END]))
     = ([], []).
Proof.
  split.
  - rewrite update_by_parts. reflexivity.
  - unfold extractGeometryData.
    rewrite (nothing_written_lines 0 base content fileName).
    assert (H : geometry_of
                  (extract_lines (preserved (split LF base) ++ [[]; END]))
                = ([], [])).
    { apply (@extract_written 0 base (empty_network content fileName));
        intros kv []. }
    exact H.
Qed.

Lemma foldM_link_out_of_range (p : Z) (es : list (jsstring * list point))
    (l0 : list jsstring) :
  ~ in_range p ->
  (Throw.foldM (push_link p) es l0 = None
   <-> exists kv, In kv es /\ snd kv <> []).
Proof.
  intros Hp; revert l0; induction es as [|[k pts] es IH]; intros l0.
  - simpl. split; [discriminate | intros (kv & [] & _)].
  - simpl Throw.foldM. unfold push_link at 1. simpl.
    destruct pts as [|pt pts].
    + simpl. rewrite IH. split.
      * intros (kv & Hin & Hne). exists kv. auto.
      * intros (kv & [<-|Hin] & Hne); [exfalso; apply Hne; reflexivity|].
        exists kv. auto.
    + rewrite foldM_push_none;
        [| intros x; apply format_line_out_of_range; assumption
         | discriminate].
      simpl. split; [intros _ | reflexivity].
      exists (k, pt :: pts). split; [left; reflexivity | discriminate].
Qed.

Lemma push_vertices_out_of_range (p : Z) (verts : record (list point))
    (l0 : list jsstring) :
  ~ in_range p ->
  (push_vertices p verts l0 = None
   <-> exists kv, In kv verts /\ snd kv <> []).
Proof.
  intros Hp. unfold push_vertices. rewrite nonempty_keys.
  destruct verts as [|kv verts].
  - split; [discriminate | intros (kv & [] & _)].
  - change (Throw.foldM (push_link p) (entries (kv :: verts))
              (l0 ++ [LF :: VERTICES]) = None
            <-> exists kv0, In kv0 (kv :: verts) /\ snd kv0 <> []).
    rewrite foldM_link_out_of_range by assumption.
    split; intros (kv' & Hin & Hne); exists kv'; (split; [|assumption]).
    + eapply Permutation_in; [apply entries_perm | exact Hin].
    + eapply Permutation_in; [apply Permutation_sym, entries_perm | exact Hin].
Qed.

Lemma push_coordinates_out_of_range (p : Z) (coords : record point)
    (l0 : list jsstring) :
  ~ in_range p ->
  push_coordinates p coords l0
  = match coords with [] => Some l0 | _ => None end.
Proof.
  intros Hp. unfold push_coordinates. rewrite nonempty_keys.
  destruct coords as [|kv coords]; [reflexivity|].
  apply (foldM_push_none (fun kv0 => format_line (fst kv0) (snd kv0) p)).
  - intros x. apply format_line_out_of_range; assumption.
  - intros E. apply (f_equal (@length _)) in E.
    rewrite entries_length in E. discriminate.
Qed.

(** X7: the call throws exactly when the precision is outside 0..100 and
    there is a value to format: a node, or a link with a vertex. *)
Theorem update_throws_iff (base : jsstring) (nd : NetworkData)
    (dp : option Z) :
  updateINPWithReprojectedData base nd dp = None
  <-> ~ in_range (precision dp) /\ has_values nd.
Proof.
  rewrite update_by_parts. unfold has_values.
  destruct (in_range_dec (precision dp)) as [Hp|Hp].
  - rewrite regenerated_in_range by assumption. simpl.
    split; [discriminate | tauto].
  - unfold regenerated.
    rewrite push_coordinates_out_of_range by assumption.
    destruct (coordinates nd) as [|kv coords].
    + simpl.
      pose proof (push_vertices_out_of_range (vertices nd) [] Hp) as Hv.
      destruct (push_vertices (precision dp) (vertices nd) []) as [l2|];
        simpl.
      * split; [discriminate|]. intros [_ [H|H]]; [congruence|].
        apply Hv in H. discriminate.
      * split; [|reflexivity]. intros _. split; [assumption|].
        right. apply Hv. reflexivity.
    + simpl. split; [|reflexivity]. intros _.
      split; [assumption | left; discriminate].
Qed.

(** X7, witness: precision 101 with the small network. *)
Lemma update_throws_iff_witness :
  updateINPWithReprojectedData small_base small_network (Some 101%Z) = None.
Proof.
  apply (proj2 (@update_throws_iff small_base small_network (Some 101%Z))).
  split.
  - unfold in_range; simpl; lia.
  - left; discriminate.
Defined.

End NetworkUtilsMoreFacts.

Module ProjectionMoreFacts.

Import JsStringFacts JsRecordFacts JsRecord NetworkUtils NetworkUtilsMore
  InpSpec MoreSpec GeoSpec ProjectionFacts.

Section Facts.
Variable proj4 : jsstring -> jsstring -> point -> point.

(** ** Converting twice *)

Lemma converted_well_formed (nd : NetworkData) (src tgt : jsstring) :
  well_formed nd -> well_formed (convertCoordinates proj4 nd src tgt).
Proof.
  intros [Hc Hv]. split; unfold wf.
  - rewrite converted_coordinates, map_keys by assumption.
    apply wf_entries; assumption.
  - rewrite converted_vertices, map_keys by assumption.
    apply wf_entries; assumption.
Qed.

Lemma converted_get_coordinates (nd : NetworkData) (src tgt k : jsstring) :
  well_formed nd ->
  get (coordinates (convertCoordinates proj4 nd src tgt)) k
  = option_map (proj4 src tgt) (get (coordinates nd) k).
Proof.
  intros [Hc Hv].
  rewrite converted_coordinates, get_map, get_entries by assumption.
  reflexivity.
Qed.

Lemma converted_get_vertices (nd : NetworkData) (src tgt k : jsstring) :
  well_formed nd ->
  get (vertices (convertCoordinates proj4 nd src tgt)) k
  = option_map (List.map (proj4 src tgt)) (get (vertices nd) k).
Proof.
  intros [Hc Hv].
  rewrite converted_vertices, get_map, get_entries by assumption.
  reflexivity.
Qed.


(** ** convertGeoJsonToWGS84 *)

Variable members : Type.
Variable standard_members : members -> members.

Lemma mapM_none (A B : Type) (f : A -> option B) (xs : list A) :
  mapM f xs = None <-> exists x, In x xs /\ f x = None.
Proof.
  induction xs as [|x xs IH]; simpl.
  - split; [discriminate | intros (x & [] & _)].
  - destruct (f x) as [y|] eqn:E; simpl.
    + destruct (mapM f xs) as [ys|]; simpl.
      * split; [discriminate|]. intros (x' & [<-|Hin] & Hx); [congruence|].
        assert (H : Some ys = None) by (apply IH; exists x'; auto).
        discriminate.
      * split; [|reflexivity]. intros _.
        destruct (proj1 IH eq_refl) as (x' & Hin & Hx). exists x'. auto.
    + split; [|reflexivity]. intros _. exists x. auto.
Qed.

Lemma mapM_some (A B : Type) (f : A -> option B) (xs : list A)
    (ys : list B) :
  mapM f xs = Some ys -> List.map f xs = List.map Some ys.
Proof.
  revert ys; induction xs as [|x xs IH]; intros ys; simpl.
  - intros H; injection H as <-. reflexivity.
  - destruct (f x) as [y|]; simpl; [|discriminate].
    destruct (mapM f xs) as [ys'|]; simpl; [|discriminate].
    intros H; injection H as <-. simpl. rewrite (IH ys') by reflexivity.
    reflexivity.
Qed.


End Facts.



End ProjectionMoreFacts.

(* ================================================================== *)
(** * Further properties of src/lib/model-builder-constants.ts *)
(* ================================================================== *)

Module ModelBuilderConstantsMoreFacts.

Import JsStringFacts JsRecordFacts JsRecord ModelBuilderConstants
  ModelBuilderConstantsMore ModelBuilderConstantsFacts.

(** ** A set of strings in insertion order *)

Lemma in_set_add (s : list jsstring) (x y : jsstring) :
  In y (set_add s x) <-> In y s \/ y = x.
Proof.
  unfold set_add. destruct (includes s x) eqn:E.
  - apply includes_In in E. split; [auto | intros [H | ->]; assumption].
  - rewrite in_app_iff. simpl. intuition.
Qed.

Lemma nodup_set_add (s : list jsstring) (x : jsstring) :
  NoDup s -> NoDup (set_add s x).
Proof.
  intros H. unfold set_add. destruct (includes s x) eqn:E; [assumption|].
  apply NoDup_app; [assumption | repeat constructor; auto |].
  intros y Hy [<- | []].
  apply includes_In in Hy. congruence.
Qed.

Lemma fold_set_add (xs acc : list jsstring) :
  NoDup acc ->
  NoDup (fold_left set_add xs acc)
  /\ (forall y, In y (fold_left set_add xs acc) <-> In y acc \/ In y xs).
Proof.
  revert acc; induction xs as [|x xs IH]; intros acc Hnd; simpl.
  - split; [assumption | intros; tauto].
  - destruct (IH (set_add acc x) (nodup_set_add x Hnd)) as [H1 H2].
    split; [assumption|]. intros y. rewrite H2, in_set_add.
    intuition.
Qed.

Lemma fold_set_add_each (A : Type) (g : A -> list jsstring) (fs : list A)
    (acc : list jsstring) :
  fold_left (fun acc f => fold_left set_add (g f) acc) fs acc
  = fold_left set_add (flat_map g fs) acc.
Proof.
  revert acc; induction fs as [|f fs IH]; intros acc; simpl; [reflexivity|].
  rewrite fold_left_app. apply IH.
Qed.

Section Any.
Variable V : Type.

Lemma add_geometry_type_typed (acc : list jsstring) (f : AnyFeature V) :
  add_geometry_type acc f = fold_left set_add (typed f) acc.
Proof.
  unfold add_geometry_type, typed.
  destruct (any_geometry f) as [g|]; [|reflexivity].
  destruct (geometry_type g) as [[|c t]|]; reflexivity.
Qed.

Lemma fold_left_same (A B : Type) (f g : A -> B -> A) (l : list B) (a : A) :
  (forall a b, f a b = g a b) -> fold_left f l a = fold_left g l a.
Proof.
  intros H; revert a; induction l as [|b l IH]; intros a; simpl;
    [reflexivity | rewrite H; apply IH].
Qed.

(** The set built by [getValidGeometryType] and what it returns for it. *)
Lemma valid_geometry_type_set (geoJSON : option (AnyGeoJSON V)) :
  exists types,
    NoDup types
    /\ (forall t, In t types <-> In t (geometry_types geoJSON))
    /\ getValidGeometryType geoJSON
       = match types with
         | [t] => t
         | _ :: _ :: _ => lit "Mixed"
         | [] => lit "Unknown"
         end.
Proof.
  destruct geoJSON as [[[fs|]]|];
    try (exists []; split; [constructor | split; [simpl; tauto | reflexivity]]).
  exists (fold_left (@add_geometry_type V) fs []).
  assert (E : fold_left (@add_geometry_type V) fs []
              = fold_left set_add (flat_map (@typed V) fs) []).
  { rewrite <- fold_set_add_each. apply fold_left_same.
    apply add_geometry_type_typed. }
  destruct (@fold_set_add (flat_map (@typed V) fs) [] (NoDup_nil _))
    as [Hnd Hin].
  rewrite E. split; [assumption|]. split.
  - intros t. rewrite Hin. simpl. tauto.
  - simpl. rewrite E. destruct fs; reflexivity.
Qed.

Lemma valid_geometry_type_unknown (geoJSON : option (AnyGeoJSON V)) :
  geometry_types geoJSON = [] ->
  getValidGeometryType geoJSON = lit "Unknown".
Proof.
  destruct (valid_geometry_type_set geoJSON) as (types & Hnd & Hin & ->).
  intros E. rewrite E in Hin. destruct types as [|t types]; [reflexivity|].
  exfalso. apply (proj1 (Hin t)). left; reflexivity.
Qed.

Lemma valid_geometry_type_single (geoJSON : option (AnyGeoJSON V))
    (t : jsstring) :
  In t (geometry_types geoJSON) ->
  (forall t', In t' (geometry_types geoJSON) -> t' = t) ->
  getValidGeometryType geoJSON = t.
Proof.
  destruct (valid_geometry_type_set geoJSON) as (types & Hnd & Hin & ->).
  intros Ht Hall. apply Hin in Ht.
  destruct types as [|a [|b types]]; [destruct Ht | |].
  - destruct Ht as [-> | []]. reflexivity.
  - exfalso. inversion Hnd as [|? ? Hnotin _]; subst. apply Hnotin.
    assert (a = t) by (apply Hall, Hin; left; reflexivity).
    assert (b = t) by (apply Hall, Hin; right; left; reflexivity).
    subst. left; reflexivity.
Qed.

Lemma valid_geometry_type_mixed (geoJSON : option (AnyGeoJSON V))
    (t1 t2 : jsstring) :
  In t1 (geometry_types geoJSON) -> In t2 (geometry_types geoJSON) ->
  t1 <> t2 ->
  getValidGeometryType geoJSON = lit "Mixed".
Proof.
  destruct (valid_geometry_type_set geoJSON) as (types & Hnd & Hin & ->).
  intros H1 H2 Hne. apply Hin in H1. apply Hin in H2.
  destruct types as [|a [|b types]]; [destruct H1 | | reflexivity].
  destruct H1 as [-> | []], H2 as [-> | []]. congruence.
Qed.

(** What [getValidGeometryType] returns is "Unknown", "Mixed", or the one
    type that all typed features share. *)
Lemma valid_geometry_type_result (geoJSON : option (AnyGeoJSON V)) :
  getValidGeometryType geoJSON = lit "Unknown"
  \/ getValidGeometryType geoJSON = lit "Mixed"
  \/ (In (getValidGeometryType geoJSON) (geometry_types geoJSON)
      /\ forall t, In t (geometry_types geoJSON) ->
                   t = getValidGeometryType geoJSON).
Proof.
  destruct (valid_geometry_type_set geoJSON) as (types & Hnd & Hin & ->).
  destruct types as [|a [|b types]]; [auto | | auto].
  right; right. split.
  - apply Hin. left; reflexivity.
  - intros t Ht. apply Hin in Ht. destruct Ht as [-> | []]. reflexivity.
Qed.

(** X10: [getValidGeometryType] returns "Unknown" when no feature has a
    geometry type (also for a missing value, a missing or an empty list of
    features), the type when every feature that has one has the same, and
    "Mixed" as soon as two features have different types. *)
Theorem valid_geometry_type_cases (geoJSON : option (AnyGeoJSON V)) :
  (geometry_types geoJSON = [] ->
   getValidGeometryType geoJSON = lit "Unknown")
  /\ (forall t, In t (geometry_types geoJSON) ->
        (forall t', In t' (geometry_types geoJSON) -> t' = t) ->
        getValidGeometryType geoJSON = t)
  /\ (forall t1 t2, In t1 (geometry_types geoJSON) ->
        In t2 (geometry_types geoJSON) -> t1 <> t2 ->
        getValidGeometryType geoJSON = lit "Mixed").
Proof.
  split; [|split].
  - apply valid_geometry_type_unknown.
  - apply valid_geometry_type_single.
  - apply valid_geometry_type_mixed.
Qed.

End Any.

(** X10, witness: the layer of points. *)
Lemma valid_geometry_type_cases_witness :
  getValidGeometryType point_layer = lit "Point".
Proof.
  destruct (valid_geometry_type_cases point_layer) as (_ & Hone & _).
  apply Hone.
  - left; reflexivity.
  - simpl. intros t' [<- | [<- | []]]; reflexivity.
Defined.

(** ** Validity of the detected type *)

(** The types that some schema lists. *)
Lemma valid_geometry_listed (geometryType elementType : jsstring) :
  isValidGeometryForElement geometryType elementType = true ->
  In geometryType [lit "LineString"; lit "MultiLineString";
                   lit "Point"; lit "MultiPoint"].
Proof.
  unfold isValidGeometryForElement.
  destruct (find _ EPANET_ELEMENTS) as [el|] eqn:E; [|discriminate].
  apply find_some in E. destruct E as [Hel _].
  intros H. apply includes_In in H.
  simpl in Hel.
  repeat (destruct Hel as [<- | Hel];
          [simpl in H; simpl; tauto|]).
  destruct Hel.
Qed.

Section Composition.
Variable V : Type.

(** X11: the detected geometry type of a layer is valid for an element
    kind exactly when the layer has a typed feature, all typed features
    share one type, and that type is valid for the kind; in particular a
    layer of mixed types or without types is valid for no kind. *)
Theorem detected_type_valid_iff (geoJSON : option (AnyGeoJSON V))
    (elementType : jsstring) :
  isValidGeometryForElement (getValidGeometryType geoJSON) elementType = true
  <-> exists t,
        In t (geometry_types geoJSON)
        /\ (forall t', In t' (geometry_types geoJSON) -> t' = t)
        /\ isValidGeometryForElement t elementType = true.
Proof.
  split.
  - intros H. pose proof (valid_geometry_listed _ _ H) as Hl.
    destruct (valid_geometry_type_result geoJSON) as [E | [E | [Hin Hall]]].
    + exfalso. rewrite E in Hl. simpl in Hl.
      repeat (destruct Hl as [Hl | Hl]; [discriminate Hl|]). exact Hl.
    + exfalso. rewrite E in Hl. simpl in Hl.
      repeat (destruct Hl as [Hl | Hl]; [discriminate Hl|]). exact Hl.
    + exists (getValidGeometryType geoJSON). auto.
  - intros (t & Hin & Hall & Hv).
    rewrite (valid_geometry_type_single geoJSON Hin Hall). exact Hv.
Qed.

End Composition.

(** X11, witness: the layer of points is valid for tanks. *)
Lemma detected_type_valid_iff_witness :
  isValidGeometryForElement (getValidGeometryType point_layer) (lit "tanks")
  = true.
Proof.
  apply (proj2 (detected_type_valid_iff point_layer (lit "tanks"))).
  exists (lit "Point"). split; [left; reflexivity|]. split.
  - simpl. intros t' [<- | [<- | []]]; reflexivity.
  - reflexivity.
Defined.

(** ** Sorting *)

Lemma str_ltb_total (a b : jsstring) :
  str_ltb a b = false -> a <> b -> str_ltb b a = true.
Proof.
  revert b; induction a as [|x a IH]; intros [|y b]; simpl; auto;
    try congruence.
  intros H Hne. apply orb_false_iff in H. destruct H as [H1 H2].
  apply N.ltb_ge in H1.
  destruct (N.eqb_spec x y) as [->|Hxy].
  - simpl in H2. rewrite N.eqb_refl, N.ltb_irrefl. simpl.
    apply IH; [assumption | congruence].
  - assert (Hlt : (y < x)%N) by lia.
    apply N.ltb_lt in Hlt. rewrite Hlt. reflexivity.
Qed.

Lemma in_insert_sorted (x y : jsstring) (l : list jsstring) :
  In y (insert_sorted x l) <-> y = x \/ In y l.
Proof.
  induction l as [|z l IH]; simpl.
  - intuition.
  - destruct (str_ltb z x); simpl; [rewrite IH|]; intuition.
Qed.

Lemma in_sort (y : jsstring) (l : list jsstring) :
  In y (sort l) <-> In y l.
Proof.
  induction l as [|x l IH]; simpl; [tauto|].
  rewrite in_insert_sorted, IH. intuition.
Qed.

Lemma insert_sorted_head (x y : jsstring) (l : list jsstring) :
  str_ltb y x = true ->
  match l with [] => True | z :: _ => str_ltb y z = true end ->
  match insert_sorted x l with
  | [] => True
  | z :: _ => str_ltb y z = true
  end.
Proof.
  destruct l as [|z l]; simpl; [auto|].
  destruct (str_ltb z x); auto.
Qed.

Lemma strictly_ascending_cons (x : jsstring) (l : list jsstring) :
  strictly_ascending (x :: l) = true
  <-> match l with [] => True | z :: _ => str_ltb x z = true end
      /\ strictly_ascending l = true.
Proof.
  destruct l as [|z l].
  - simpl. tauto.
  - change (strictly_ascending (x :: z :: l))
      with (str_ltb x z && strictly_ascending (z :: l)).
    rewrite andb_true_iff. tauto.
Qed.

Lemma insert_sorted_ascending (x : jsstring) (l : list jsstring) :
  strictly_ascending l = true -> ~ In x l ->
  strictly_ascending (insert_sorted x l) = true.
Proof.
  induction l as [|y l IH]; intros Hasc Hnotin; [reflexivity|].
  apply strictly_ascending_cons in Hasc. destruct Hasc as [Hhead Htail].
  simpl insert_sorted. destruct (str_ltb y x) eqn:E.
  - apply strictly_ascending_cons. split.
    + apply insert_sorted_head; assumption.
    + apply IH; [assumption|]. intros H; apply Hnotin; right; assumption.
  - apply strictly_ascending_cons. split.
    + apply str_ltb_total; [assumption|].
      intros ->. apply Hnotin; left; reflexivity.
    + apply strictly_ascending_cons. split; assumption.
Qed.

Lemma sort_ascending (l : list jsstring) :
  NoDup l -> strictly_ascending (sort l) = true.
Proof.
  induction 1 as [|x l Hnotin Hnd IH]; [reflexivity|].
  simpl. apply insert_sorted_ascending; [assumption|].
  rewrite in_sort. assumption.
Qed.

Section Properties.
Variable V : Type.

Lemma add_property_keys_names (acc : list jsstring) (f : AnyFeature V) :
  add_property_keys acc f
  = fold_left set_add
      (match any_properties f with
       | Some properties => keys properties
       | None => []
       end) acc.
Proof.
  unfold add_property_keys. destruct (any_properties f); reflexivity.
Qed.

(** X12: [getGeoJSONProperties] returns every property name that some
    feature carries and nothing else, each once, in ascending order of
    code units. *)
Theorem properties_sorted_and_complete (geoJSON : option (AnyGeoJSON V)) :
  strictly_ascending (getGeoJSONProperties geoJSON) = true
  /\ forall k, In k (getGeoJSONProperties geoJSON)
               <-> In k (property_names geoJSON).
Proof.
  destruct geoJSON as [[[fs|]]|];
    try (split; [reflexivity | intros k; simpl; tauto]).
  set (names := fun f : AnyFeature V =>
                  match any_properties f with
                  | Some properties => keys properties
                  | None => []
                  end).
  assert (E : getGeoJSONProperties (Some {| any_features := Some fs |})
              = sort (fold_left set_add (flat_map names fs) [])).
  { unfold getGeoJSONProperties. simpl any_features.
    rewrite <- fold_set_add_each.
    rewrite (fold_left_same (@add_property_keys V)
               (fun acc f => fold_left set_add (names f) acc) fs []
               (@add_property_keys_names)).
    destruct fs; reflexivity. }
  destruct (@fold_set_add (flat_map names fs) [] (NoDup_nil _))
    as [Hnd Hin].
  rewrite E. split.
  - apply sort_ascending. assumption.
  - intros k. rewrite in_sort, Hin. simpl.
    rewrite !in_flat_map. split.
    + intros [[] | (f & Hf & Hk)]. exists f. split; [assumption|].
      unfold names in Hk. destruct (any_properties f); [|assumption].
      apply in_keys. assumption.
    + intros (f & Hf & Hk). right. exists f. split; [assumption|].
      unfold names. destruct (any_properties f); [|assumption].
      apply in_keys. assumption.
Qed.

End Properties.

End ModelBuilderConstantsMoreFacts.

(* ================================================================== *)
(** * Properties of src/unnamed/part_001 *)
(* ================================================================== *)

Module ModelBuilderPageFacts.

Import JsStringFacts JsRecordFacts JsRecord ModelBuilderConstants
  ModelBuilderConstantsFacts ModelBuilderPage.

(** ** The progress of a build *)

Lemma names_mark_progress (t : jsstring) (steps : list ProgressStep) :
  List.map step_name (List.map (mark_progress t) steps)
  = List.map step_name steps.
Proof.
  rewrite map_map. apply map_ext. intros s. unfold mark_progress.
  destruct (str_eqb (step_name s) t); [reflexivity|].
  destruct (status s); reflexivity.
Qed.

Lemma names_mark_complete (steps : list ProgressStep) :
  List.map step_name (List.map mark_complete steps)
  = List.map step_name steps.
Proof.
  rewrite map_map. apply map_ext. intros s. unfold mark_complete.
  destruct (status s); reflexivity.
Qed.

(** After a progress message the steps in progress are those named by the
    message. *)
Lemma in_progress_mark_progress (t : jsstring) (steps : list ProgressStep) :
  in_progress (List.map (mark_progress t) steps)
  = List.map (fun _ => {| step_name := t; status := inProgress |})
      (filter (fun n => str_eqb n t) (List.map step_name steps)).
Proof.
  induction steps as [|s steps IH]; [reflexivity|].
  cbn [List.map in_progress filter]. fold (in_progress (List.map (mark_progress t) steps)).
  rewrite IH. unfold mark_progress.
  destruct (str_eqb (step_name s) t) eqn:E.
  - apply str_eqb_eq in E. rewrite E. reflexivity.
  - destruct (status s) eqn:Es; cbn [status]; try rewrite Es; reflexivity.
Qed.

Lemma in_progress_mark_complete (steps : list ProgressStep) :
  in_progress (List.map mark_complete steps) = [].
Proof.
  induction steps as [|s steps IH]; [reflexivity|].
  cbn [List.map in_progress filter]. fold (in_progress (List.map mark_complete steps)).
  rewrite IH. unfold mark_complete.
  destruct (status s) eqn:Es; cbn [status]; try rewrite Es; reflexivity.
Qed.

Lemma filter_distinct_name (t : jsstring) (names : list jsstring) :
  NoDup names ->
  filter (fun n => str_eqb n t) names = if includes names t then [t] else [].
Proof.
  unfold includes. induction 1 as [|n names Hnotin Hnd IH]; [reflexivity|].
  simpl. destruct (str_eqb n t) eqn:E; simpl.
  - apply str_eqb_eq in E; subst n. rewrite IH.
    destruct (existsb _ names) eqn:Ex; [|reflexivity].
    exfalso. apply Hnotin. apply includes_In. exact Ex.
  - exact IH.
Qed.

Lemma tasks_distinct : NoDup tasks.
Proof.
  distinct_keys.
Qed.

Lemma names_after_start (st : BuildState) :
  List.map step_name (progressSteps (handleBuildModel st)) = tasks.
Proof. reflexivity. Qed.

(** One message keeps the names, and leaves at most one step in
    progress when the names differ. *)
Lemma onmessage_keeps (names : list jsstring) (data : WorkerMessage)
    (st : BuildState) :
  NoDup names ->
  List.map step_name (progressSteps st) = names ->
  (length (in_progress (progressSteps st)) <= 1)%nat ->
  List.map step_name (progressSteps (onmessage data st)) = names
  /\ (length (in_progress (progressSteps (onmessage data st))) <= 1)%nat.
Proof.
  intros Hnd Hnames Hone. unfold onmessage.
  destruct (str_eqb (type data) (lit "progress") && truthy (task data)).
  - simpl progressSteps. rewrite names_mark_progress.
    split; [assumption|].
    rewrite in_progress_mark_progress, Hnames, length_map.
    rewrite (filter_distinct_name _ Hnd).
    destruct (includes names _); simpl; lia.
  - destruct (str_eqb (type data) (lit "complete") && truthy (inpFile data)).
    + simpl progressSteps. rewrite names_mark_complete.
      split; [assumption|].
      rewrite in_progress_mark_complete. simpl; lia.
    + destruct (str_eqb (type data) (lit "error")); simpl progressSteps;
        split; assumption.
Qed.

Lemma handle_keeps (event : BuildEvent) (st : BuildState) :
  (List.map step_name (progressSteps st) = tasks \/ progressSteps st = []) ->
  (length (in_progress (progressSteps st)) <= 1)%nat ->
  (List.map step_name (progressSteps (handle event st)) = tasks
   \/ progressSteps (handle event st) = [])
  /\ (length (in_progress (progressSteps (handle event st))) <= 1)%nat.
Proof.
  intros Hn Ho. destruct event as [|data|m|]; cbn [handle].
  - split; [left; reflexivity | simpl; lia].
  - destruct Hn as [Hn | Hn].
    + destruct (onmessage_keeps data st tasks_distinct Hn Ho) as [Hn' Ho'].
      auto.
    + assert (H0 : List.map step_name (progressSteps st) = [])
        by (rewrite Hn; reflexivity).
      destruct (onmessage_keeps data st (NoDup_nil _) H0 Ho) as [Hn' Ho'].
      split; [right | exact Ho'].
      destruct (progressSteps (onmessage data st)); [reflexivity|].
      discriminate.
  - split; assumption.
  - unfold onClose. destruct (negb (isBuilding st)); cbn [progressSteps].
    + split; [right; reflexivity | simpl; lia].
    + split; assumption.
Qed.

(** X18: whatever happens to the build state from the first render on
    (builds started, messages and errors of the worker, the dialog
    closed), the list of steps is empty or holds the nine task names in
    their order, and at most one step is in progress. *)
Theorem one_step_in_progress (events : list BuildEvent) :
  (List.map step_name (progressSteps (run events initial_build)) = tasks
   \/ progressSteps (run events initial_build) = [])
  /\ (length (in_progress (progressSteps (run events initial_build)))
      <= 1)%nat.
Proof.
  assert (H : forall st,
             (List.map step_name (progressSteps st) = tasks
              \/ progressSteps st = []) ->
             (length (in_progress (progressSteps st)) <= 1)%nat ->
             (List.map step_name (progressSteps (run events st)) = tasks
              \/ progressSteps (run events st) = [])
             /\ (length (in_progress (progressSteps (run events st)))
                 <= 1)%nat).
  { induction events as [|event events IH]; intros st Hn Ho;
      [split; assumption|].
    unfold run; simpl.
    destruct (handle_keeps event st Hn Ho) as [Hn' Ho'].
    apply IH; assumption. }
  apply H; [right; reflexivity | simpl; lia].
Qed.

Lemma onmessage_keeps_open (data : WorkerMessage) (st : BuildState) :
  dialog_open st = true -> dialog_open (onmessage data st) = true.
Proof.
  intros H. unfold onmessage.
  destruct (str_eqb (type data) (lit "progress") && truthy (task data));
    [exact H|].
  destruct (str_eqb (type data) (lit "complete") && truthy (inpFile data))
    eqn:E.
  - apply andb_true_iff in E. destruct E as [_ E].
    unfold dialog_open. cbn [isBuilding buildError inpContent].
    destruct (inpFile data) as [[|c f]|]; try discriminate.
    cbn [or_else length Nat.eqb negb]. apply orb_true_r.
  - destruct (str_eqb (type data) (lit "error")); [|exact H].
    unfold dialog_open. cbn [isBuilding buildError inpContent].
    replace (negb (Nat.eqb
                     (length (or_else (message data) (lit "Unknown error")))
                     0)) with true; [reflexivity|].
    unfold or_else. destruct (message data) as [[|c m]|]; reflexivity.
Qed.

(** X20: no message of the worker closes the progress dialog: once a build
    has started, the dialog stays open whatever the worker sends, so a
    build that has ended shows an error text or offers the file. *)
Theorem messages_keep_dialog_open (msgs : list WorkerMessage)
    (st : BuildState) :
  dialog_open (after msgs (handleBuildModel st)) = true
  /\ (isBuilding (after msgs (handleBuildModel st)) = false ->
      buildError (after msgs (handleBuildModel st)) <> []
      \/ inpContent (after msgs (handleBuildModel st)) <> []).
Proof.
  assert (H : forall st', dialog_open st' = true ->
                          dialog_open (after msgs st') = true).
  { induction msgs as [|data msgs IH]; intros st' Ho; [exact Ho|].
    unfold after; simpl. apply IH, onmessage_keeps_open, Ho. }
  assert (Ho : dialog_open (after msgs (handleBuildModel st)) = true)
    by (apply H; reflexivity).
  split; [exact Ho|].
  intros Hb. unfold dialog_open in Ho. rewrite Hb in Ho. simpl in Ho.
  apply orb_true_iff in Ho.
  destruct Ho as [Ho | Ho]; [left | right]; intros E; rewrite E in Ho;
    discriminate.
Qed.

(** X19: what each message of the worker does.  A progress message for a
    task of the list leaves exactly that step in progress, and one for
    another name leaves none; the final message leaves none, stores the
    file and ends the build; an error message ends the build with a
    non-empty error text and keeps the steps; every other message,
    also a progress message without task and a final message without file,
    changes nothing. *)
Theorem message_outcomes (data : WorkerMessage) (st : BuildState) :
  List.map step_name (progressSteps st) = tasks ->
  (forall t, type data = lit "progress" -> task data = Some t -> t <> [] ->
     in_progress (progressSteps (onmessage data st))
     = (if includes tasks t
        then [{| step_name := t; status := inProgress |}] else [])
     /\ isBuilding (onmessage data st) = isBuilding st)
  /\ (forall f, type data = lit "complete" -> inpFile data = Some f ->
        f <> [] ->
        in_progress (progressSteps (onmessage data st)) = []
        /\ inpContent (onmessage data st) = f
        /\ isBuilding (onmessage data st) = false)
  /\ (type data = lit "error" ->
        isBuilding (onmessage data st) = false
        /\ buildError (onmessage data st) <> []
        /\ progressSteps (onmessage data st) = progressSteps st
        /\ inpContent (onmessage data st) = inpContent st)
  /\ ((type data = lit "progress" -> truthy (task data) = false) ->
      (type data = lit "complete" -> truthy (inpFile data) = false) ->
      type data <> lit "error" ->
      onmessage data st = st).
Proof.
  intros Hnames. split; [|split; [|split]].
  - intros t Ht Htask Hne. unfold onmessage. rewrite Ht, Htask.
    rewrite str_eqb_refl.
    destruct t as [|c t]; [congruence|].
    cbn [truthy andb or_else progressSteps isBuilding].
    split; [|reflexivity].
    rewrite in_progress_mark_progress, Hnames.
    rewrite (filter_distinct_name _ tasks_distinct).
    destruct (includes tasks (c :: t)); reflexivity.
  - intros f Ht Hf Hne. unfold onmessage. rewrite Ht, Hf.
    replace (str_eqb (lit "complete") (lit "progress")) with false
      by reflexivity.
    rewrite str_eqb_refl.
    destruct f as [|c f]; [congruence|].
    cbn [truthy andb or_else progressSteps isBuilding inpContent].
    rewrite in_progress_mark_complete. auto.
  - intros Ht. unfold onmessage. rewrite Ht.
    replace (str_eqb (lit "error") (lit "progress")) with false
      by reflexivity.
    replace (str_eqb (lit "error") (lit "complete")) with false
      by reflexivity.
    rewrite str_eqb_refl.
    cbn [andb progressSteps isBuilding inpContent buildError].
    split; [reflexivity|]. split; [|split; reflexivity].
    unfold or_else. destruct (message data) as [[|c m]|]; discriminate.
  - intros Hp Hc He. unfold onmessage.
    destruct (str_eqb (type data) (lit "progress")) eqn:E1.
    + apply str_eqb_eq in E1. rewrite (Hp E1). cbn [andb].
      rewrite E1.
      replace (str_eqb (lit "progress") (lit "complete")) with false
        by reflexivity.
      replace (str_eqb (lit "progress") (lit "error")) with false
        by reflexivity.
      reflexivity.
    + cbn [andb]. destruct (str_eqb (type data) (lit "complete")) eqn:E2.
      * apply str_eqb_eq in E2. rewrite (Hc E2). cbn [andb].
        rewrite E2.
        replace (str_eqb (lit "complete") (lit "error")) with false
          by reflexivity.
        reflexivity.
      * cbn [andb]. apply str_eqb_neq in He. rewrite He. reflexivity.
Qed.

(** X19, witness: the second task is announced after the start. *)
Lemma message_outcomes_witness :
  in_progress
    (progressSteps
       (onmessage {| type := lit "progress";
                     task := Some (lit "Validating Data");
                     inpFile := None; message := None |}
          (handleBuildModel {| isBuilding := false; progressSteps := [];
                               inpContent := []; buildError := [] |})))
  = [{| step_name := lit "Validating Data"; status := inProgress |}].
Proof.
  apply (proj1 (@message_outcomes
                  {| type := lit "progress";
                     task := Some (lit "Validating Data");
                     inpFile := None; message := None |}
                  (handleBuildModel {| isBuilding := false;
                                       progressSteps := [];
                                       inpContent := []; buildError := [] |})
                  eq_refl) (lit "Validating Data") eq_refl eq_refl
           ltac:(discriminate)).
Defined.

(** ** Objects rebuilt by spreading *)

Section SpreadFacts.
Variable V : Type.
Implicit Types (o : record V) (k : jsstring) (v : V).

Lemma get_spread_set o k v k' :
  wf o ->
  get (spread_set o k v) k' = if str_eqb k k' then Some v else get o k'.
Proof.
  intros H. unfold spread_set. rewrite get_set.
  rewrite (get_entries k' H). reflexivity.
Qed.

Lemma wf_spread_set o k v : wf o -> wf (spread_set o k v).
Proof.
  intros H. apply NetworkUtilsMoreFacts.wf_set, wf_entries, H.
Qed.

Lemma get_delete o k k' :
  get (delete o k) k' = if str_eqb k k' then None else get o k'.
Proof.
  unfold delete. induction o as [|[k0 v0] o IH]; simpl.
  - destruct (str_eqb k k'); reflexivity.
  - destruct (str_eqb k0 k) eqn:E; simpl.
    + rewrite IH. apply str_eqb_eq in E; subst k0.
      destruct (str_eqb k k'); reflexivity.
    + rewrite IH. destruct (str_eqb k0 k') eqn:E'; [|reflexivity].
      apply str_eqb_eq in E'; subst k0.
      rewrite str_eqb_sym, E. reflexivity.
Qed.

Lemma keys_delete o k :
  List.map fst (delete o k)
  = filter (fun n => negb (str_eqb n k)) (List.map fst o).
Proof.
  unfold delete. induction o as [|[k0 v0] o IH]; simpl; [reflexivity|].
  destruct (str_eqb k0 k); simpl; rewrite IH; reflexivity.
Qed.

Lemma wf_delete o k : wf o -> wf (delete o k).
Proof.
  unfold wf. rewrite keys_delete. apply NoDup_filter.
Qed.

Lemma get_spread_delete o k k' :
  wf o ->
  get (spread_delete o k) k' = if str_eqb k k' then None else get o k'.
Proof.
  intros H. unfold spread_delete. rewrite get_delete.
  rewrite (get_entries k' H). reflexivity.
Qed.

Lemma wf_spread_delete o k : wf o -> wf (spread_delete o k).
Proof.
  intros H. apply wf_delete, wf_entries, H.
Qed.

(** Setting a run of keys to one value. *)
Lemma get_fold_set (v : V) (ks : list jsstring) o k :
  get (fold_left (fun acc k' => set acc k' v) ks o) k
  = if includes ks k then Some v else get o k.
Proof.
  unfold includes. revert o; induction ks as [|k0 ks IH]; intros o; simpl;
    [reflexivity|].
  rewrite IH, get_set.
  destruct (existsb _ ks); [rewrite orb_true_r; reflexivity|].
  rewrite orb_false_r. reflexivity.
Qed.

Lemma wf_fold_set (v : V) (ks : list jsstring) o :
  wf o -> wf (fold_left (fun acc k' => set acc k' v) ks o).
Proof.
  revert o; induction ks as [|k0 ks IH]; intros o H; simpl; [assumption|].
  apply IH, NetworkUtilsMoreFacts.wf_set, H.
Qed.

End SpreadFacts.

(** ** The wizard *)

Lemma initial_step_valid (stepFromUrl : option jsstring) :
  In (getInitialStep stepFromUrl) validSteps.
Proof.
  unfold getInitialStep. destruct stepFromUrl as [s|]; [|left; reflexivity].
  destruct (includes validSteps s) eqn:E; [|left; reflexivity].
  apply includes_In. exact E.
Qed.

Lemma initialMapping_get (element : EpanetElementDefinition)
    (attribute : jsstring) :
  get (initialMapping element) attribute
  = if includes (requiredAttributes element ++ optionalAttributes element)
         attribute
    then Some None else None.
Proof.
  unfold initialMapping. rewrite get_fold_set. reflexivity.
Qed.

Lemma initialMapping_wf (element : EpanetElementDefinition) :
  wf (initialMapping element).
Proof.
  unfold initialMapping. apply wf_fold_set. constructor.
Qed.

Section PageFacts.

Variables (G : Type) (isLikelyLatLng : G -> bool) (UploadedFile : Type)
  (id : UploadedFile -> jsstring) (geoJSON : UploadedFile -> option G)
  (Projection : Type) (placeholder : jsstring -> G -> option UploadedFile).

Implicit Types (st : PageState G UploadedFile Projection).

Lemma next_cases st :
  handleNextStep isLikelyLatLng geoJSON st = (st, None)
  \/ (exists toast,
        handleNextStep isLikelyLatLng geoJSON st = (st, Some toast)
        /\ currentStep st = lit "dataAssignment")
  \/ (currentStep st = lit "modelSettings"
      /\ handleNextStep isLikelyLatLng geoJSON st
         = (updateStepInUrl (lit "dataAssignment") st, None))
  \/ (currentStep st = lit "dataAssignment"
      /\ handleNextStep isLikelyLatLng geoJSON st
         = (updateStepInUrl (lit "attributeMapping") st, None)).
Proof.
  unfold handleNextStep.
  destruct (str_eqb (currentStep st) (lit "modelSettings")) eqn:E1.
  - apply str_eqb_eq in E1. right; right; left. auto.
  - destruct (str_eqb (currentStep st) (lit "dataAssignment")) eqn:E2;
      [|left; reflexivity].
    apply str_eqb_eq in E2.
    destruct (negb _).
    + right; left. exists NoFilesAssigned. auto.
    + destruct (_ && _).
      * right; left. exists ProjectionRequired. auto.
      * right; right; right. auto.
Qed.

Lemma previous_cases st :
  handlePreviousStep st = st
  \/ (currentStep st = lit "attributeMapping"
      /\ handlePreviousStep st = updateStepInUrl (lit "dataAssignment") st)
  \/ (currentStep st = lit "dataAssignment"
      /\ handlePreviousStep st = updateStepInUrl (lit "modelSettings") st).
Proof.
  unfold handlePreviousStep.
  destruct (str_eqb (currentStep st) (lit "attributeMapping")) eqn:E1.
  - apply str_eqb_eq in E1. right; left. auto.
  - destruct (str_eqb (currentStep st) (lit "dataAssignment")) eqn:E2;
      [|left; reflexivity].
    apply str_eqb_eq in E2. right; right. auto.
Qed.

Lemma unassignment_cases (elementType : jsstring) st st' :
  handleFileUnassignment placeholder elementType st = Some st' ->
  st' = st \/ exists file, st' = unassigned elementType file st.
Proof.
  unfold handleFileUnassignment.
  destruct (get (assignedGisData st) elementType) as [[g|]|];
    try (intros H; injection H as <-; left; reflexivity).
  destruct (get (assignedFileInfo st) elementType) as [f|].
  - intros H; injection H as <-. right. exists f. reflexivity.
  - destruct (placeholder elementType g) as [f|]; [|discriminate].
    intros H; injection H as <-. right. exists f. reflexivity.
Qed.

Lemma assignment_well_formed (file : UploadedFile) (elementType : jsstring)
    st :
  objects_well_formed st ->
  objects_well_formed (handleFileAssignment id geoJSON file elementType st).
Proof.
  intros (Hd & Hi & Hm & Hin).
  unfold objects_well_formed, handleFileAssignment.
  cbn [assignedGisData assignedFileInfo attributeMapping].
  split; [apply wf_spread_set, Hd|].
  split; [apply wf_spread_set, Hi|].
  destruct (find _ EPANET_ELEMENTS) as [el|]; [|auto].
  split; [apply wf_spread_set, Hm|].
  intros e m. rewrite (get_spread_set _ _ e Hm).
  destruct (str_eqb elementType e).
  - intros H; injection H as <-. apply initialMapping_wf.
  - apply Hin.
Qed.

Lemma assignment_recorded (file : UploadedFile) (elementType : jsstring) st :
  objects_well_formed st -> files_recorded geoJSON st ->
  files_recorded geoJSON (handleFileAssignment id geoJSON file elementType st).
Proof.
  intros (Hd & Hi & _) Hf e.
  unfold handleFileAssignment. cbn [assignedGisData assignedFileInfo].
  rewrite (get_spread_set _ _ e Hd), (get_spread_set _ _ e Hi).
  destruct (str_eqb elementType e); [reflexivity | apply Hf].
Qed.

Lemma unassigned_well_formed (elementType : jsstring) (file : UploadedFile)
    st :
  objects_well_formed st ->
  objects_well_formed (unassigned elementType file st).
Proof.
  intros (Hd & Hi & Hm & Hin).
  unfold objects_well_formed, unassigned.
  cbn [assignedGisData assignedFileInfo attributeMapping].
  split; [apply wf_spread_delete, Hd|].
  split; [apply wf_spread_delete, Hi|].
  split; [apply wf_spread_delete, Hm|].
  intros e m. rewrite (get_spread_delete _ e Hm).
  destruct (str_eqb elementType e); [discriminate | apply Hin].
Qed.

Lemma unassigned_recorded (elementType : jsstring) (file : UploadedFile) st :
  objects_well_formed st -> files_recorded geoJSON st ->
  files_recorded geoJSON (unassigned elementType file st).
Proof.
  intros (Hd & Hi & _) Hf e.
  unfold unassigned. cbn [assignedGisData assignedFileInfo].
  rewrite (get_spread_delete _ e Hd), (get_spread_delete _ e Hi).
  destruct (str_eqb elementType e); [reflexivity | apply Hf].
Qed.

Lemma mapping_of_wf st (elementType : jsstring) :
  objects_well_formed st ->
  wf (mapping_of (attributeMapping st) elementType).
Proof.
  intros (_ & _ & _ & Hin). unfold mapping_of.
  destruct (get (attributeMapping st) elementType) as [m|] eqn:E.
  - apply (Hin _ _ E).
  - constructor.
Qed.

Lemma mapping_change_well_formed (elementType attribute : jsstring)
    (propertyName : option jsstring) st :
  objects_well_formed st ->
  objects_well_formed
    (handleAttributeMappingChange elementType attribute propertyName st).
Proof.
  intros Hwf. pose proof (mapping_of_wf elementType Hwf) as Hmo.
  destruct Hwf as (Hd & Hi & Hm & Hin).
  unfold objects_well_formed, handleAttributeMappingChange.
  cbn [assignedGisData assignedFileInfo attributeMapping].
  split; [exact Hd|]. split; [exact Hi|].
  split; [apply wf_spread_set, Hm|].
  intros e m. rewrite (get_spread_set _ _ e Hm).
  destruct (str_eqb elementType e).
  - intros H; injection H as <-. apply wf_spread_set, Hmo.
  - apply Hin.
Qed.

Lemma initial_well_formed (stepFromUrl : option jsstring) :
  objects_well_formed (initial G UploadedFile Projection stepFromUrl).
Proof.
  unfold objects_well_formed, initial.
  cbn [assignedGisData assignedFileInfo attributeMapping].
  split; [constructor|]. split; [constructor|]. split; [constructor|].
  intros e m; discriminate.
Qed.

(** What holds in every state of the page. *)
Lemma reachable_invariant st :
  reachable isLikelyLatLng id geoJSON placeholder st ->
  objects_well_formed st /\ files_recorded geoJSON st
  /\ In (currentStep st) validSteps.
Proof.
  induction 1 as [s | s st _ IH | files st _ IH | p st _ IH
                  | file e st _ IH | e st st' _ IH Hu | e a v st _ IH
                  | st _ IH | st _ IH].
  - split; [|split].
    + apply initial_well_formed.
    + intros e; reflexivity.
    + apply initial_step_valid.
  - destruct IH as (Hw & Hf & Hs).
    split; [exact Hw|]. split; [exact Hf|]. apply initial_step_valid.
  - exact IH.
  - exact IH.
  - destruct IH as (Hw & Hf & Hs).
    split; [apply assignment_well_formed, Hw|].
    split; [apply assignment_recorded; assumption | exact Hs].
  - destruct IH as (Hw & Hf & Hs).
    destruct (unassignment_cases _ _ Hu) as [-> | [f ->]]; [auto|].
    split; [apply unassigned_well_formed, Hw|].
    split; [apply unassigned_recorded; assumption | exact Hs].
  - destruct IH as (Hw & Hf & Hs).
    split; [apply mapping_change_well_formed, Hw|].
    split; [exact Hf | exact Hs].
  - destruct IH as (Hw & Hf & Hs).
    destruct (next_cases st) as [E | [(t & E & _) | [(_ & E) | (_ & E)]]];
      rewrite E; cbn [fst]; auto.
    + split; [exact Hw|]. split; [exact Hf|]. right; left; reflexivity.
    + split; [exact Hw|]. split; [exact Hf|]. right; right; left; reflexivity.
  - destruct IH as (Hw & Hf & Hs).
    destruct (previous_cases st) as [E | [(_ & E) | (_ & E)]];
      rewrite E; auto.
    + split; [exact Hw|]. split; [exact Hf|]. right; left; reflexivity.
    + split; [exact Hw|]. split; [exact Hf|]. left; reflexivity.
Qed.

Lemma needs_not_latlng (l : list (option G)) :
  existsb (fun geoJSON => match geoJSON with
                          | Some g => negb (isLikelyLatLng g)
                          | None => false
                          end) l = true ->
  forallb (fun geoJSON => match geoJSON with
                          | Some g => isLikelyLatLng g
                          | None => false
                          end) l = false.
Proof.
  induction l as [|[g|] l IH]; simpl; [discriminate | | reflexivity].
  destruct (isLikelyLatLng g); simpl; [exact IH | reflexivity].
Qed.

(** X13: the wizard is always at one of its three steps, whatever step the
    URL names and whatever the handlers did; when Next moved the wizard,
    Previous goes back to the step it left; and Next shows a toast only
    on the data assignment step, and then it stays there. *)
Theorem wizard_steps st :
  reachable isLikelyLatLng id geoJSON placeholder st ->
  In (currentStep st) validSteps
  /\ (currentStep (fst (handleNextStep isLikelyLatLng geoJSON st))
      <> currentStep st ->
      currentStep
        (handlePreviousStep (fst (handleNextStep isLikelyLatLng geoJSON st)))
      = currentStep st)
  /\ (forall toast,
        snd (handleNextStep isLikelyLatLng geoJSON st) = Some toast ->
        fst (handleNextStep isLikelyLatLng geoJSON st) = st
        /\ currentStep st = lit "dataAssignment").
Proof.
  intros Hr. split; [apply (reachable_invariant Hr)|]. split.
  - destruct (next_cases st) as [E | [(t & E & _) | [(Hs & E) | (Hs & E)]]];
      rewrite E; cbn [fst]; try congruence; intros _.
    + unfold handlePreviousStep. cbn [currentStep updateStepInUrl].
      replace (str_eqb (lit "dataAssignment") (lit "attributeMapping"))
        with false by reflexivity.
      rewrite str_eqb_refl. cbn [currentStep updateStepInUrl].
      symmetry; exact Hs.
    + unfold handlePreviousStep. cbn [currentStep updateStepInUrl].
      rewrite str_eqb_refl. cbn [currentStep updateStepInUrl].
      symmetry; exact Hs.
  - intros toast.
    destruct (next_cases st) as [E | [(t & E & Hs) | [(_ & E) | (_ & E)]]];
      rewrite E; cbn [fst snd]; try discriminate.
    intros _. auto.
Qed.

(** X14: on the data assignment step, Next asks for files exactly when no
    element type has data, asks for a projection exactly when some layer,
    assigned or only uploaded, does not look like longitude and latitude
    and no projection is selected, and goes on to the attribute mapping in
    the remaining cases; the second test of the guard never decides,
    because data that needs reprojection is never all longitude and
    latitude. *)
Theorem next_from_assignment st :
  currentStep st = lit "dataAssignment" ->
  (checkDataNeedsReprojection isLikelyLatLng geoJSON st = true ->
   isDataLatLng isLikelyLatLng geoJSON st = false)
  /\ (snd (handleNextStep isLikelyLatLng geoJSON st) = Some NoFilesAssigned
      <-> assignedGisData st = [])
  /\ (snd (handleNextStep isLikelyLatLng geoJSON st) = Some ProjectionRequired
      <-> assignedGisData st <> []
          /\ checkDataNeedsReprojection isLikelyLatLng geoJSON st = true
          /\ selectedProjection st = None)
  /\ (currentStep (fst (handleNextStep isLikelyLatLng geoJSON st))
      = lit "attributeMapping"
      <-> assignedGisData st <> []
          /\ (checkDataNeedsReprojection isLikelyLatLng geoJSON st = false
              \/ selectedProjection st <> None)).
Proof.
  intros Hs.
  assert (Hn : checkDataNeedsReprojection isLikelyLatLng geoJSON st = true ->
               isDataLatLng isLikelyLatLng geoJSON st = false)
    by apply needs_not_latlng.
  assert (Hd : lit "dataAssignment" <> lit "attributeMapping")
    by (intros E; vm_compute in E; discriminate E).
  split; [exact Hn|].
  unfold handleNextStep. rewrite Hs.
  replace (str_eqb (lit "dataAssignment") (lit "modelSettings"))
    with false by reflexivity.
  rewrite str_eqb_refl, keys_length.
  destruct (assignedGisData st) as [|kv o] eqn:Ea.
  - cbn [length Nat.ltb Nat.leb negb fst snd].
    split; [tauto|]. split.
    + split; [discriminate | intros [H _]; congruence].
    + rewrite Hs. split; [intros E; congruence | intros [H _]; congruence].
  - cbn [length Nat.ltb Nat.leb negb].
    destruct (checkDataNeedsReprojection isLikelyLatLng geoJSON st) eqn:Ec.
    + rewrite (Hn eq_refl). cbn [negb andb].
      destruct (selectedProjection st) as [p|]; cbn [fst snd].
      * split; [split; discriminate|]. split.
        -- split; [discriminate | intros (_ & _ & H); discriminate].
        -- cbn [currentStep updateStepInUrl].
           split; [intros _ | reflexivity].
           split; [discriminate | right; discriminate].
      * split; [split; discriminate|]. split.
        -- split; [intros _ | reflexivity].
           split; [discriminate | auto].
        -- rewrite Hs. split; [intros E; congruence|].
           intros (_ & [H | H]); [discriminate | congruence].
    + cbn [andb fst snd]. split; [split; discriminate|]. split.
      * split; [discriminate | intros (_ & H & _); discriminate].
      * cbn [currentStep updateStepInUrl].
        split; [intros _ | reflexivity].
        split; [discriminate | left; reflexivity].
Qed.

(** X15: assigning a file to an element type stores the data of the file
    under that type and takes every file with the same id out of the list
    of uploaded files; for a type of the schema the attribute mapping of
    the type starts anew, with every required and optional attribute
    unmapped and no other attribute present; the mappings of other types
    stay, and for a type outside the schema no mapping changes. *)
Theorem assignment_outcome (file : UploadedFile) (elementType : jsstring) st :
  objects_well_formed st ->
  (forall e,
     get (assignedGisData (handleFileAssignment id geoJSON file elementType st))
       e
     = if str_eqb elementType e then Some (geoJSON file)
       else get (assignedGisData st) e)
  /\ (forall f,
        In f (uploadedFiles
                (handleFileAssignment id geoJSON file elementType st))
        <-> In f (uploadedFiles st) /\ id f <> id file)
  /\ (forall element, In element EPANET_ELEMENTS ->
        key element = elementType ->
        forall attribute,
          mapped (handleFileAssignment id geoJSON file elementType st)
            elementType attribute
          = if includes (requiredAttributes element
                         ++ optionalAttributes element) attribute
            then Some None else None)
  /\ (forall e attribute, e <> elementType ->
        mapped (handleFileAssignment id geoJSON file elementType st)
          e attribute
        = mapped st e attribute)
  /\ ((forall element, In element EPANET_ELEMENTS ->
         key element <> elementType) ->
      attributeMapping (handleFileAssignment id geoJSON file elementType st)
      = attributeMapping st).
Proof.
  intros (Hd & Hi & Hm & Hin). unfold mapped, handleFileAssignment.
  cbn [assignedGisData uploadedFiles attributeMapping].
  split; [intros e; apply (get_spread_set _ _ e Hd)|].
  split.
  { intros f. rewrite filter_In, negb_true_iff, str_eqb_neq. reflexivity. }
  split.
  { intros element Hel Hk attribute.
    assert (E : find (fun e => str_eqb (key e) elementType) EPANET_ELEMENTS
                = Some element)
      by (apply (@find_by_key EPANET_ELEMENTS elementType element_keys_distinct element); auto).
    rewrite E, (get_spread_set _ _ elementType Hm), str_eqb_refl.
    apply initialMapping_get. }
  split.
  { intros e attribute Hne.
    destruct (find _ EPANET_ELEMENTS) as [el|]; [|reflexivity].
    rewrite (get_spread_set _ _ e Hm).
    assert (E : str_eqb elementType e = false)
      by (apply str_eqb_neq; congruence).
    rewrite E. reflexivity. }
  intros Hnone. apply find_by_key_none in Hnone. rewrite Hnone. reflexivity.
Qed.

(** X16: changing the mapping of one attribute of one element type is read
    back, also when the type had no mapping before, and changes the
    mapping of no other attribute and of no other type. *)
Theorem mapping_change_outcome (elementType attribute : jsstring)
    (propertyName : option jsstring) st :
  objects_well_formed st ->
  forall e a,
    mapped (handleAttributeMappingChange elementType attribute propertyName st)
      e a
    = if str_eqb elementType e && str_eqb attribute a
      then Some propertyName else mapped st e a.
Proof.
  intros Hwf e a. pose proof (mapping_of_wf elementType Hwf) as Hmo.
  destruct Hwf as (_ & _ & Hm & _).
  unfold mapped, handleAttributeMappingChange. cbn [attributeMapping].
  rewrite (get_spread_set _ _ e Hm).
  destruct (str_eqb elementType e) eqn:E; [|reflexivity].
  apply str_eqb_eq in E; subst e.
  rewrite (get_spread_set _ _ a Hmo). cbn [andb].
  destruct (str_eqb attribute a); [reflexivity|].
  unfold mapping_of.
  destruct (get (attributeMapping st) elementType); reflexivity.
Qed.

(** X17: in every state that the handlers produce, an element type with
    data has its uploaded file on record, so unassigning never builds the
    placeholder file and never throws: it returns the original file to
    the end of the list of uploaded files, or does nothing when the type
    has no data. *)
Theorem unassignment_returns_original (elementType : jsstring) st :
  reachable isLikelyLatLng id geoJSON placeholder st ->
  handleFileUnassignment placeholder elementType st
  = match get (assignedFileInfo st) elementType with
    | Some file =>
        match geoJSON file with
        | Some _ => Some (unassigned elementType file st)
        | None => Some st
        end
    | None => Some st
    end.
Proof.
  intros Hr. destruct (reachable_invariant Hr) as (_ & Hf & _).
  unfold handleFileUnassignment. rewrite (Hf elementType).
  destruct (get (assignedFileInfo st) elementType) as [f|]; [|reflexivity].
  destruct (geoJSON f); reflexivity.
Qed.

(** X21: assigning a file that has data and unassigning the type again
    puts the file at the end of the uploaded files, leaves the type
    without data and without attribute mapping, and leaves the data and
    the mappings of the other types as they were. *)
Theorem assign_then_unassign (file : UploadedFile) (g : G)
    (elementType : jsstring) st :
  objects_well_formed st ->
  geoJSON file = Some g ->
  exists st',
    handleFileUnassignment placeholder elementType
      (handleFileAssignment id geoJSON file elementType st) = Some st'
    /\ uploadedFiles st'
       = filter (fun f => negb (str_eqb (id f) (id file))) (uploadedFiles st)
         ++ [file]
    /\ (forall e, get (assignedGisData st') e
                  = if str_eqb elementType e then None
                    else get (assignedGisData st) e)
    /\ (forall e a, mapped st' e a
                    = if str_eqb elementType e then None
                      else mapped st e a).
Proof.
  intros Hwf Hg.
  pose proof (assignment_well_formed file elementType Hwf) as Hwf'.
  destruct Hwf as (Hd & Hi & Hm & Hin).
  destruct Hwf' as (Hd' & Hi' & Hm' & Hin').
  exists (unassigned elementType file
            (handleFileAssignment id geoJSON file elementType st)).
  split; [|split; [|split]].
  - unfold handleFileUnassignment.
    unfold handleFileAssignment at 1 2.
    cbn [assignedGisData assignedFileInfo].
    rewrite (get_spread_set _ _ elementType Hd), str_eqb_refl, Hg.
    rewrite (get_spread_set _ _ elementType Hi), str_eqb_refl.
    reflexivity.
  - reflexivity.
  - intros e. unfold unassigned. cbn [assignedGisData].
    rewrite (get_spread_delete _ e Hd').
    destruct (str_eqb elementType e) eqn:E; [reflexivity|].
    unfold handleFileAssignment. cbn [assignedGisData].
    rewrite (get_spread_set _ _ e Hd), E. reflexivity.
  - intros e a. unfold mapped, unassigned. cbn [attributeMapping].
    rewrite (get_spread_delete _ e Hm').
    destruct (str_eqb elementType e) eqn:E; [reflexivity|].
    unfold handleFileAssignment. cbn [attributeMapping].
    destruct (find _ EPANET_ELEMENTS) as [el|]; [|reflexivity].
    rewrite (get_spread_set _ _ e Hm), E. reflexivity.
Qed.

Lemma last_default (A : Type) (x : A) (l : list A) (d d' : A) :
  last (x :: l) d = last (x :: l) d'.
Proof.
  revert x; induction l as [|y l IH]; intros x; [reflexivity|].
  change (last (y :: l) d = last (y :: l) d'). apply IH.
Qed.

(** X22: the original projection is the first projection that was
    selected and never changes afterwards, also when the selection is
    cleared; the selected projection is the last selection. *)
Theorem original_projection_is_first
    (projections : list (option Projection)) st :
  originalProjection (select_all projections st)
  = match originalProjection st with
    | Some original => Some original
    | None => first_selected projections
    end
  /\ selectedProjection (select_all projections st)
     = last projections (selectedProjection st).
Proof.
  unfold select_all. revert st.
  induction projections as [|p ps IH]; intros st.
  - simpl. destruct (originalProjection st); auto.
  - cbn [fold_left]. destruct (IH (handleProjectionSelect p st)) as [H1 H2].
    rewrite H1, H2. unfold handleProjectionSelect.
    cbn [originalProjection selectedProjection]. split.
    + destruct p as [p|], (originalProjection st); reflexivity.
    + destruct ps as [|q ps]; [reflexivity|].
      change (last (p :: q :: ps) (selectedProjection st))
        with (last (q :: ps) (selectedProjection st)).
      apply last_default.
Qed.

End PageFacts.

(** ** The sample page *)

Lemma sample_assigned_reachable :
  reachable sample_isLikelyLatLng sample_id sample_geoJSON sample_placeholder
    sample_assigned.
Proof.
  apply reach_assigned, reach_initial.
Qed.

Lemma sample_assigned_well_formed : objects_well_formed sample_assigned.
Proof.
  apply assignment_well_formed, initial_well_formed.
Qed.

(** X13, witness: the page after the pipes layer was assigned. *)
Lemma wizard_steps_witness : In (currentStep sample_assigned) validSteps.
Proof.
  apply (proj1 (wizard_steps sample_assigned_reachable)).
Defined.

(** X14, witness: the pipes layer is in a projected system and no
    projection is selected. *)
Lemma next_from_assignment_witness :
  snd (handleNextStep sample_isLikelyLatLng sample_geoJSON sample_assigned)
  = Some ProjectionRequired.
Proof.
  apply (proj2 (proj1 (proj2 (proj2
           (@next_from_assignment bool sample_isLikelyLatLng sample_file
              sample_geoJSON unit sample_assigned eq_refl))))).
  split; [discriminate|]. split; reflexivity.
Defined.

(** X15, witness: the diameter of the pipes starts unmapped. *)
Lemma assignment_outcome_witness :
  mapped sample_assigned (lit "pipes") (lit "Diameter") = Some None.
Proof.
  destruct (assignment_outcome sample_id sample_geoJSON sample_pipes
              (lit "pipes")
              (initial_well_formed bool sample_file unit
                 (Some (lit "dataAssignment"))))
    as (_ & _ & H & _).
  apply (H (nth 0 EPANET_ELEMENTS
              {| key := []; name := []; geometryTypes := [];
                 requiredAttributes := []; optionalAttributes := [];
                 defaultValues := [] |})).
  - left; reflexivity.
  - reflexivity.
Defined.

(** X16, witness: the diameter of the pipes is mapped to a property. *)
Lemma mapping_change_outcome_witness :
  mapped (handleAttributeMappingChange (lit "pipes") (lit "Diameter")
            (Some (lit "DIA")) sample_assigned)
    (lit "pipes") (lit "Diameter")
  = Some (Some (lit "DIA"))
  /\ mapped (handleAttributeMappingChange (lit "pipes") (lit "Diameter")
               (Some (lit "DIA")) sample_assigned)
       (lit "pipes") (lit "Roughness")
     = Some None.
Proof.
  split.
  - apply (mapping_change_outcome (lit "pipes") (lit "Diameter")
             (Some (lit "DIA")) sample_assigned_well_formed
             (lit "pipes") (lit "Diameter")).
  - apply (mapping_change_outcome (lit "pipes") (lit "Diameter")
             (Some (lit "DIA")) sample_assigned_well_formed
             (lit "pipes") (lit "Roughness")).
Defined.

(** X17, witness: the pipes layer goes back to the uploaded files. *)
Lemma unassignment_returns_original_witness :
  handleFileUnassignment sample_placeholder (lit "pipes") sample_assigned
  = Some (unassigned (lit "pipes") sample_pipes sample_assigned).
Proof.
  apply (unassignment_returns_original (lit "pipes")
           sample_assigned_reachable).
Defined.

(** X21, witness: the pipes layer assigned and unassigned again. *)
Lemma assign_then_unassign_witness :
  exists st',
    handleFileUnassignment sample_placeholder (lit "pipes") sample_assigned
    = Some st'
    /\ uploadedFiles st' = [sample_pipes]
    /\ (forall e, get (assignedGisData st') e = None)
    /\ (forall e a, mapped st' e a = None).
Proof.
  destruct (@assign_then_unassign bool sample_file sample_id sample_geoJSON
              unit sample_placeholder sample_pipes false (lit "pipes")
              sample_state
              (initial_well_formed bool sample_file unit
                 (Some (lit "dataAssignment")))
              eq_refl)
    as (st' & H1 & H2 & H3 & H4).
  exists st'. split; [exact H1|]. split; [exact H2|]. split.
  - intros e. rewrite H3. destruct (str_eqb (lit "pipes") e); reflexivity.
  - intros e a. rewrite H4. destruct (str_eqb (lit "pipes") e); reflexivity.
Defined.

End ModelBuilderPageFacts.
